(** * MyEcs: an archetype-based entity-component-system store

    A shallow embedding of [src/ecs.h] and [src/ecs.c] and the verification
    of the storage engine's documented properties.

    Conventions of the embedding.
    - Machine integers are [Z]; [uint8_t] counters wrap with [wrap8],
      [uint32_t] ones with [wrap32], exactly where the C code computes in
      those types.
    - A heap array of scalars is an [array]: a list of cells, a cell being
      [None] while its content is indeterminate (fresh from [malloc]).
      Arrays of structs are plain lists, each element being initialised
      right after (re)allocation in the source.
    - Every operation runs in the [option] monad: [None] is undefined
      behaviour (out-of-bounds access, read of an indeterminate cell, NULL
      dereference, division by zero) or a failed [assert].  Allocation is
      assumed to succeed (the source exits the process otherwise).
    - A (pointer, count) pair of arguments is the list of the [count]
      elements.
    - A pointer into a column is the path to the column plus a byte
      offset. *)

From Stdlib Require Import ZArith Lia.
From stdpp Require Import base tactics option list numbers sorting.

Abbreviation byte := Corelib.Init.Byte.byte.

#[local] Set Warnings "-clear-no-such-hyp".
Local Open Scope Z_scope.

(** ** Machine arithmetic *)

Definition wrap8 (z : Z) : Z := z mod 256.
Definition wrap32 (z : Z) : Z := z mod 2 ^ 32.

(** ** Arrays *)

(** Bounds-checked read of an array of structs. *)
Definition zlookup {A} (l : list A) (i : Z) : option A :=
  if decide (0 ≤ i) then l !! Z.to_nat i else None.

(** Bounds-checked write of an array of structs. *)
Definition zstore {A} (l : list A) (i : Z) (x : A) : option (list A) :=
  if decide (0 ≤ i < Z.of_nat (length l)) then Some (<[Z.to_nat i := x]> l)
  else None.

Abbreviation array A := (list (option A)).

Definition malloc {A} (n : Z) : array A := replicate (Z.to_nat n) None.

Definition realloc {A} (a : array A) (n : Z) : array A :=
  resize (Z.to_nat n) None a.

(** Reading a cell that was never written is undefined. *)
Definition aload {A} (a : array A) (i : Z) : option A :=
  zlookup a i ≫= id.

Definition astore {A} (a : array A) (i : Z) (x : A) : option (array A) :=
  zstore a i (Some x).

(** [memcpy (base + dst, base + src, n)] inside one block; the two ranges
    must lie in the block and must not overlap. *)
Definition memcpy (col : array byte) (dst src n : Z) : option (array byte) :=
  if decide (0 ≤ dst ∧ 0 ≤ src ∧ 0 ≤ n ∧
             dst + n ≤ Z.of_nat (length col) ∧
             src + n ≤ Z.of_nat (length col) ∧
             (n = 0 ∨ dst + n ≤ src ∨ src + n ≤ dst))
  then Some (take (Z.to_nat dst) col
             ++ take (Z.to_nat n) (drop (Z.to_nat src) col)
             ++ drop (Z.to_nat (dst + n)) col)
  else None.

(** [for (i = 0; i < n; i++) out[i] = f(i);] *)
Definition tabulate {A} (n : Z) (f : Z → option A) : option (list A) :=
  mapM f (seqZ 0 n).

(** ** Data model ([ecs.h]) *)

Record ComponentData := mkComponentData {
  number_of_fields : Z;                 (* comp_size_t *)
  field_sizes : list Z                  (* comp_size_t[number_of_fields] *)
}.

(** The per-field columns of one component in one chunk ([void**]). *)
Abbreviation columns := (list (array byte)).

Record ArchetypeDataChunk := mkArchetypeDataChunk {
  id_dense_array : array Z;                       (* id_t[chunk_size] *)
  component_field_arrays : list (option columns); (* void***, None = NULL *)
  dense_arrays_length : Z                         (* chunk_size_t *)
}.

Record Archetype := mkArchetype {
  components : list Z;                  (* comp_id_t* *)
  chunks : list ArchetypeDataChunk;
  number_of_chunks : Z;                 (* chunks_length_t *)
  chunk_size : Z;                       (* chunk_size_t *)
  arch_number_of_components : Z;        (* comp_id_t *)
  archetype_id : Z                      (* arch_id_t *)
}.

Record SparseArrayChunk := mkSparseArrayChunk {
  sparse_archetypes : array Z;          (* arch_id_t* *)
  chunk_indexes : array Z;              (* chunks_length_t* *)
  dense_id_array_indexes : array Z      (* id_t* *)
}.

(** [component_ids] is reallocated by the source but never read or
    written and [starting_sparse_array_chunks] is never read: both are
    left out. *)
Record World := mkWorld {
  archetypes : list Archetype;
  id_stack_ids : array Z;
  id_stack_capacity : Z;                (* id_t *)
  id_stack_top_index : Z;               (* id_t *)
  all_components_data : list ComponentData;
  sparse_array_chunks : list SparseArrayChunk;
  sparse_array_chunk_size : Z;          (* chunk_size_t *)
  sparse_array_number_of_chunks : Z;    (* chunks_length_t *)
  dense_array_chunk_size : Z;           (* chunk_size_t *)
  number_of_archetypes : Z;             (* arch_id_t *)
  number_of_components : Z              (* comp_id_t *)
}.

(** The value of [chunk.component_field_arrays[k]] as seen from outside:
    NULL or a reference to the column vector of component [k] in chunk
    [ch] of archetype [a]. *)
Inductive columns_ptr :=
  | NullColumns
  | ColumnsOf (a ch k : Z).

(** An address inside the column of field [fp_field]. *)
Record field_ptr := mkFieldPtr {
  fp_archetype : Z;
  fp_chunk : Z;
  fp_component : Z;
  fp_field : Z;
  fp_offset : Z
}.

Record ComponentIterator := mkComponentIterator {
  it_component_field_arrays : list (list columns_ptr);
  chunk_lengths : list Z;
  it_number_of_chunks : Z
}.

(** Field updates. *)
Definition set_chunks (arch : Archetype) (chs : list ArchetypeDataChunk)
    (n : Z) : Archetype :=
  mkArchetype (components arch) chs n (chunk_size arch)
    (arch_number_of_components arch) (archetype_id arch).

Definition set_id_stack (w : World) (ids : array Z) (cap top : Z) : World :=
  mkWorld (archetypes w) ids cap top (all_components_data w)
    (sparse_array_chunks w) (sparse_array_chunk_size w)
    (sparse_array_number_of_chunks w) (dense_array_chunk_size w)
    (number_of_archetypes w) (number_of_components w).

Definition set_archetypes (w : World) (archs : list Archetype) (n : Z)
    : World :=
  mkWorld archs (id_stack_ids w) (id_stack_capacity w)
    (id_stack_top_index w) (all_components_data w)
    (sparse_array_chunks w) (sparse_array_chunk_size w)
    (sparse_array_number_of_chunks w) (dense_array_chunk_size w)
    n (number_of_components w).

Definition set_components (w : World) (all : list ComponentData) (n : Z)
    : World :=
  mkWorld (archetypes w) (id_stack_ids w) (id_stack_capacity w)
    (id_stack_top_index w) all
    (sparse_array_chunks w) (sparse_array_chunk_size w)
    (sparse_array_number_of_chunks w) (dense_array_chunk_size w)
    (number_of_archetypes w) n.

Definition set_sparse (w : World) (scs : list SparseArrayChunk) (n : Z)
    : World :=
  mkWorld (archetypes w) (id_stack_ids w) (id_stack_capacity w)
    (id_stack_top_index w) (all_components_data w)
    scs (sparse_array_chunk_size w)
    n (dense_array_chunk_size w)
    (number_of_archetypes w) (number_of_components w).

(** ** Sorting

    [qsort] is the C library's; it is modelled by its contract (the array
    is sorted according to the comparison function) as an insertion sort
    driven by the source's comparator. *)

Definition compare_comp_ids (a b : Z) : Z :=
  if decide (a < b) then -1 else if decide (a > b) then 1 else 0.

Fixpoint qsort_insert (cmp : Z → Z → Z) (x : Z) (l : list Z) : list Z :=
  match l with
  | [] => [x]
  | y :: l' =>
      if decide (cmp x y ≤ 0) then x :: l else y :: qsort_insert cmp x l'
  end.

Definition qsort (cmp : Z → Z → Z) (l : list Z) : list Z :=
  foldr (qsort_insert cmp) [] l.

(** ** ComponentData *)

Definition component_data_init (fs : list Z) : ComponentData :=
  mkComponentData (Z.of_nat (length fs)) fs.

(** ** ArchetypeDataChunk *)

(** The loop over the archetype's components: allocate one column per
    field of each. *)
Fixpoint init_columns (all : list ComponentData) (size : Z) (comps : list Z)
    (cfa : list (option columns)) : option (list (option columns)) :=
  match comps with
  | [] => Some cfa
  | k :: rest =>
      cd ← zlookup all k;
      cols ← tabulate (number_of_fields cd)
                (λ j, fs ← zlookup (field_sizes cd) j;
                      Some (malloc (fs * size) : array byte));
      cfa' ← zstore cfa k (Some cols);
      init_columns all size rest cfa'
  end.

Definition archetype_data_chunk_init (all : list ComponentData)
    (number_of_all_components : Z) (comps : list Z) (size : Z)
    : option ArchetypeDataChunk :=
  cfa ← init_columns all size comps
           (replicate (Z.to_nat number_of_all_components) None);
  Some (mkArchetypeDataChunk (malloc size) cfa 0).

(** ** Archetype *)

Definition archetype_init (id : Z) (number_of_all_components : Z)
    (all : list ComponentData) (comps : list Z) (size : Z) (nchunks : Z)
    : option Archetype :=
  chs ← tabulate nchunks
          (λ _, archetype_data_chunk_init all number_of_all_components
                  comps size);
  Some (mkArchetype comps chs nchunks size (Z.of_nat (length comps)) id).

(** The scan of [archetype_add_entity]: [Some None] when the loop ends
    without finding room. *)
Fixpoint archetype_scan (arch : Archetype) (e : Z) (fuel : nat) (i : Z)
    : option (option (Archetype * Z * Z)) :=
  match fuel with
  | O => Some None
  | S fuel' =>
      ch ← zlookup (chunks arch) i;
      if decide (dense_arrays_length ch < chunk_size arch) then
        ids ← astore (id_dense_array ch) (dense_arrays_length ch) e;
        chs ← zstore (chunks arch) i
                (mkArchetypeDataChunk ids (component_field_arrays ch)
                   (wrap32 (dense_arrays_length ch + 1)));
        Some (Some (set_chunks arch chs (number_of_chunks arch),
                    dense_arrays_length ch, wrap32 i))
      else archetype_scan arch e fuel' (i + 1)
  end.

(** Returns the archetype, [*id_dense_array_index] and [*chunk_index]. *)
Definition archetype_add_entity (arch : Archetype) (e : Z)
    (number_of_all_components : Z) (all : list ComponentData)
    : option (Archetype * Z * Z) :=
  r ← archetype_scan arch e (Z.to_nat (number_of_chunks arch)) 0;
  match r with
  | Some res => Some res
  | None =>
      let n := wrap32 (number_of_chunks arch + 1) in
      ch ← archetype_data_chunk_init all number_of_all_components
             (components arch) (chunk_size arch);
      ids ← astore (id_dense_array ch) 0 e;
      let ch' := mkArchetypeDataChunk ids (component_field_arrays ch)
                   (wrap32 (dense_arrays_length ch + 1)) in
      chs ← zstore (resize (Z.to_nat n) ch (chunks arch)) (n - 1) ch';
      Some (set_chunks arch chs n, 0, wrap32 (n - 1))
  end.

(** ** SparseArrayChunk *)

Definition sparse_array_chunk_init (size : Z) : SparseArrayChunk :=
  mkSparseArrayChunk (malloc size) (malloc size) (malloc size).

(** ** World *)

Definition world_create (dense_array_chunk_size sparse_array_chunk_size
    starting_sparse_array_chunks : Z) : World :=
  mkWorld [] (Some <$> seqZ 0 sparse_array_chunk_size)
    sparse_array_chunk_size 0 []
    (replicate (Z.to_nat starting_sparse_array_chunks)
       (sparse_array_chunk_init sparse_array_chunk_size))
    sparse_array_chunk_size starting_sparse_array_chunks
    dense_array_chunk_size 0 0.

(** The inner loop of [world_match_archetype], with its [break]. *)
Fixpoint components_equal (l1 l2 : list Z) : bool :=
  match l1, l2 with
  | x :: l1', y :: l2' =>
      if decide (x ≠ y) then false else components_equal l1' l2'
  | _, _ => true
  end.

Fixpoint match_archetype_from (archs : list Archetype) (comps : list Z)
    (fuel : nat) (a : Z) : option (option Z) :=
  match fuel with
  | O => Some None
  | S fuel' =>
      arch ← zlookup archs a;
      if decide (arch_number_of_components arch = Z.of_nat (length comps))
      then
        if components_equal (components arch) comps then Some (Some a)
        else match_archetype_from archs comps fuel' (a + 1)
      else match_archetype_from archs comps fuel' (a + 1)
  end.

Definition world_match_archetype (w : World) (comps : list Z)
    : option (option Z) :=
  match_archetype_from (archetypes w) comps
    (Z.to_nat (number_of_archetypes w)) 0.

Definition world_add_archetype (w : World) (comps : list Z)
    : option (World * Z) :=
  let n := number_of_archetypes w in
  arch ← archetype_init n (number_of_components w) (all_components_data w)
            comps (dense_array_chunk_size w) 1;
  Some (set_archetypes w (take (Z.to_nat n) (archetypes w) ++ [arch])
          (wrap8 (n + 1)), n).

Definition world_add_component_type (w : World) (fs : list Z)
    : World * Z :=
  let n := number_of_components w in
  (set_components w
     (take (Z.to_nat n) (all_components_data w) ++ [component_data_init fs])
     (wrap8 (n + 1)), n).

(** The id stack: [allocate]. *)
Definition id_stack_pop (w : World) : option (World * Z) :=
  let w1 :=
    if decide (id_stack_capacity w ≤ id_stack_top_index w) then
      let cap := wrap32 (id_stack_capacity w * 2) in
      let top := id_stack_top_index w in
      set_id_stack w
        (take (Z.to_nat top) (realloc (id_stack_ids w) cap)
           ++ (Some <$> seqZ top (cap - top)))
        cap top
    else w in
  id ← aload (id_stack_ids w1) (id_stack_top_index w1);
  Some (set_id_stack w1 (id_stack_ids w1) (id_stack_capacity w1)
          (wrap32 (id_stack_top_index w1 + 1)), id).

(** The sparse index: grow if needed, then write the triple. *)
Definition sparse_set (w : World) (id a c r : Z) : option World :=
  guard (sparse_array_chunk_size w ≠ 0);;
  let sparse_chunk_index := id / sparse_array_chunk_size w in
  let w1 :=
    if decide (sparse_array_number_of_chunks w ≤ sparse_chunk_index) then
      let new_chunk_count := wrap32 (sparse_array_number_of_chunks w + 1) in
      set_sparse w
        (resize (Z.to_nat new_chunk_count)
           (sparse_array_chunk_init (sparse_array_chunk_size w))
           (sparse_array_chunks w))
        new_chunk_count
    else w in
  let local_id_index := id mod sparse_array_chunk_size w in
  sc ← zlookup (sparse_array_chunks w1) sparse_chunk_index;
  s1 ← astore (sparse_archetypes sc) local_id_index a;
  s2 ← astore (chunk_indexes sc) local_id_index c;
  s3 ← astore (dense_id_array_indexes sc) local_id_index r;
  scs ← zstore (sparse_array_chunks w1) sparse_chunk_index
          (mkSparseArrayChunk s1 s2 s3);
  Some (set_sparse w1 scs (sparse_array_number_of_chunks w1)).

Definition world_add_entity (w : World) (comps : list Z)
    : option (World * Z) :=
  '(w1, id) ← id_stack_pop w;
  let sorted_components := qsort compare_comp_ids comps in
  m ← world_match_archetype w1 sorted_components;
  '(w2, matched_arch_id) ←
     match m with
     | Some a => Some (w1, a)
     | None => world_add_archetype w1 sorted_components
     end;
  arch ← zlookup (archetypes w2) matched_arch_id;
  '(arch', id_dense_array_index, chunk_index) ←
     archetype_add_entity arch id (number_of_components w2)
       (all_components_data w2);
  archs ← zstore (archetypes w2) matched_arch_id arch';
  let w3 := set_archetypes w2 archs (number_of_archetypes w2) in
  w4 ← sparse_set w3 id matched_arch_id chunk_index id_dense_array_index;
  Some (w4, id).

(** The triple stored for an entity id. *)
Definition sparse_get (w : World) (id : Z) : option (Z * Z * Z) :=
  guard (sparse_array_chunk_size w ≠ 0);;
  sc ← zlookup (sparse_array_chunks w) (id / sparse_array_chunk_size w);
  let local_id_index := id mod sparse_array_chunk_size w in
  a ← aload (sparse_archetypes sc) local_id_index;
  c ← aload (chunk_indexes sc) local_id_index;
  r ← aload (dense_id_array_indexes sc) local_id_index;
  Some (a, c, r).

(** The inner loop of [does_archetype_have_components]. *)
Fixpoint archetype_has_component (arch : Archetype) (c : Z) (fuel : nat)
    (ac : Z) : option bool :=
  match fuel with
  | O => Some false
  | S fuel' =>
      x ← zlookup (components arch) ac;
      if decide (x = c) then Some true
      else archetype_has_component arch c fuel' (ac + 1)
  end.

Fixpoint have_components_loop (arch : Archetype) (comp_ids : list Z)
    : option bool :=
  match comp_ids with
  | [] => Some true
  | c :: rest =>
      found ← archetype_has_component arch c
                (Z.to_nat (arch_number_of_components arch)) 0;
      match found with
      | true => have_components_loop arch rest
      | false => Some false
      end
  end.

Definition does_archetype_have_components (arch : Archetype)
    (comp_ids : list Z) : option bool :=
  if decide (arch_number_of_components arch < Z.of_nat (length comp_ids))
  then Some false
  else have_components_loop arch comp_ids.

(** The field loop of [world_remove_entity]. *)
Fixpoint copy_fields (fsizes : list Z) (dst src : Z) (fuel : nat) (f : Z)
    (cols : columns) : option columns :=
  match fuel with
  | O => Some cols
  | S fuel' =>
      field_size ← zlookup fsizes f;
      col ← zlookup cols f;
      col' ← memcpy col (wrap32 (dst * field_size))
               (wrap32 (src * field_size)) field_size;
      cols' ← zstore cols f col';
      copy_fields fsizes dst src fuel' (f + 1) cols'
  end.

(** The component loop of [world_remove_entity]. *)
Fixpoint copy_components (all : list ComponentData) (comps : list Z)
    (dst src : Z) (fuel : nat) (c : Z) (cfa : list (option columns))
    : option (list (option columns)) :=
  match fuel with
  | O => Some cfa
  | S fuel' =>
      component_index ← zlookup comps c;
      component_data ← zlookup all component_index;
      cols ← zlookup cfa component_index ≫= id;
      cols' ← copy_fields (field_sizes component_data) dst src
                (Z.to_nat (number_of_fields component_data)) 0 cols;
      cfa' ← zstore cfa component_index (Some cols');
      copy_components all comps dst src fuel' (c + 1) cfa'
  end.

Definition world_remove_entity (w : World) (entity_id : Z) : option World :=
  (* return the deleted id to the stack *)
  let top := wrap32 (id_stack_top_index w - 1) in
  ids ← astore (id_stack_ids w) top entity_id;
  let w1 := set_id_stack w ids (id_stack_capacity w) top in
  (* find the location of the entity to be removed *)
  guard (sparse_array_chunk_size w1 ≠ 0);;
  guard (entity_id / sparse_array_chunk_size w1
         < sparse_array_number_of_chunks w1);;
  '(archetype_id, chunk_index, dense_id_array_index) ←
     sparse_get w1 entity_id;
  arch ← zlookup (archetypes w1) archetype_id;
  ch ← zlookup (chunks arch) chunk_index;
  let last_element_index := wrap32 (dense_arrays_length ch - 1) in
  if decide (dense_id_array_index = last_element_index) then
    let ch' := mkArchetypeDataChunk (id_dense_array ch)
                 (component_field_arrays ch)
                 (wrap32 (dense_arrays_length ch - 1)) in
    chs ← zstore (chunks arch) chunk_index ch';
    archs ← zstore (archetypes w1) archetype_id
              (set_chunks arch chs (number_of_chunks arch));
    Some (set_archetypes w1 archs (number_of_archetypes w1))
  else
    last_entity_id ← aload (id_dense_array ch) last_element_index;
    dense ← astore (id_dense_array ch) dense_id_array_index last_entity_id;
    cfa ← copy_components (all_components_data w1) (components arch)
            dense_id_array_index last_element_index
            (Z.to_nat (arch_number_of_components arch)) 0
            (component_field_arrays ch);
    (* update the sparse array for the moved entity *)
    let sci := last_entity_id / sparse_array_chunk_size w1 in
    let local := last_entity_id mod sparse_array_chunk_size w1 in
    sc ← zlookup (sparse_array_chunks w1) sci;
    s3 ← astore (dense_id_array_indexes sc) local dense_id_array_index;
    scs ← zstore (sparse_array_chunks w1) sci
            (mkSparseArrayChunk (sparse_archetypes sc) (chunk_indexes sc) s3);
    let ch' := mkArchetypeDataChunk dense cfa
                 (wrap32 (dense_arrays_length ch - 1)) in
    chs ← zstore (chunks arch) chunk_index ch';
    archs ← zstore (archetypes w1) archetype_id
              (set_chunks arch chs (number_of_chunks arch));
    Some (set_sparse (set_archetypes w1 archs (number_of_archetypes w1))
            scs (sparse_array_number_of_chunks w1)).

(** [Some None] is the NULL result.  The world is returned as it was
    passed: the source takes a [const World*] and writes nothing. *)
Definition world_get_component_field (w : World)
    (entity_id component_id field_index : Z)
    : option (World * option field_ptr) :=
  guard (sparse_array_chunk_size w ≠ 0);;
  let sparse_chunk_index := entity_id / sparse_array_chunk_size w in
  if decide (sparse_array_number_of_chunks w ≤ sparse_chunk_index) then
    Some (w, None)
  else
    '(archetype_id, chunk_index, dense_id_array_index) ←
       sparse_get w entity_id;
    arch ← zlookup (archetypes w) archetype_id;
    has_component ← archetype_has_component arch component_id
                      (Z.to_nat (arch_number_of_components arch)) 0;
    match has_component with
    | false => Some (w, None)
    | true =>
      component_data ← zlookup (all_components_data w) component_id;
      if decide (number_of_fields component_data ≤ field_index) then
        Some (w, None)
      else
        ch ← zlookup (chunks arch) chunk_index;
        field_size ← zlookup (field_sizes component_data) field_index;
        cols ← zlookup (component_field_arrays ch) component_id ≫= id;
        _ ← zlookup cols field_index;
        Some (w, Some (mkFieldPtr archetype_id chunk_index component_id
                         field_index
                         (wrap32 (dense_id_array_index * field_size))))
    end.

(** The chunk loop of the iterator's second pass. *)
Fixpoint iterator_chunks (arch : Archetype) (a : Z) (comp_ids : list Z)
    (fuel : nat) (ch : Z) : option (list (list columns_ptr * Z)) :=
  match fuel with
  | O => Some []
  | S fuel' =>
      chunk ← zlookup (chunks arch) ch;
      ptrs ← mapM (λ k, cols ← zlookup (component_field_arrays chunk) k;
                        Some (match cols with
                              | Some _ => ColumnsOf a ch k
                              | None => NullColumns
                              end)) comp_ids;
      rest ← iterator_chunks arch a comp_ids fuel' (ch + 1);
      Some ((ptrs, dense_arrays_length chunk) :: rest)
  end.

(** First pass: count the chunks of the matching archetypes. *)
Fixpoint iterator_count (archs : list Archetype) (comp_ids : list Z)
    (fuel : nat) (a : Z) (total_chunks : Z) : option Z :=
  match fuel with
  | O => Some total_chunks
  | S fuel' =>
      arch ← zlookup archs a;
      b ← does_archetype_have_components arch comp_ids;
      iterator_count archs comp_ids fuel' (a + 1)
        (match b with
         | true => wrap32 (total_chunks + number_of_chunks arch)
         | false => total_chunks
         end)
  end.

(** Second pass: collect the records. *)
Fixpoint iterator_fill (archs : list Archetype) (comp_ids : list Z)
    (fuel : nat) (a : Z) : option (list (list columns_ptr * Z)) :=
  match fuel with
  | O => Some []
  | S fuel' =>
      arch ← zlookup archs a;
      b ← does_archetype_have_components arch comp_ids;
      here ← match b with
             | true => iterator_chunks arch a comp_ids
                         (Z.to_nat (number_of_chunks arch)) 0
             | false => Some []
             end;
      rest ← iterator_fill archs comp_ids fuel' (a + 1);
      Some (here ++ rest)
  end.

(** The records are written at [current_chunk_index++] into arrays of
    [total_chunks] entries: more records than entries is an out-of-bounds
    write. *)
Definition world_get_component_iterator (w : World) (comp_ids : list Z)
    : option ComponentIterator :=
  let n := Z.to_nat (number_of_archetypes w) in
  total_chunks ← iterator_count (archetypes w) comp_ids n 0 0;
  if decide (total_chunks = 0) then Some (mkComponentIterator [] [] 0)
  else
    recs ← iterator_fill (archetypes w) comp_ids n 0;
    guard (Z.of_nat (length recs) = total_chunks);;
    Some (mkComponentIterator (recs.*1) (recs.*2) total_chunks).

(** ** The caller's side: reads and writes through a field pointer *)

Definition column_of (w : World) (p : field_ptr) : option (array byte) :=
  arch ← zlookup (archetypes w) (fp_archetype p);
  ch ← zlookup (chunks arch) (fp_chunk p);
  cols ← zlookup (component_field_arrays ch) (fp_component p) ≫= id;
  zlookup cols (fp_field p).

(** The [n] bytes at the address. *)
Definition load_bytes (w : World) (p : field_ptr) (n : Z)
    : option (list (option byte)) :=
  col ← column_of w p;
  guard (0 ≤ fp_offset p ∧ 0 ≤ n ∧
         fp_offset p + n ≤ Z.of_nat (length col));;
  Some (take (Z.to_nat n) (drop (Z.to_nat (fp_offset p)) col)).

Definition store_bytes (w : World) (p : field_ptr) (bs : list byte)
    : option World :=
  arch ← zlookup (archetypes w) (fp_archetype p);
  ch ← zlookup (chunks arch) (fp_chunk p);
  cols ← zlookup (component_field_arrays ch) (fp_component p) ≫= id;
  col ← zlookup cols (fp_field p);
  guard (0 ≤ fp_offset p ∧
         fp_offset p + Z.of_nat (length bs) ≤ Z.of_nat (length col));;
  let col' := take (Z.to_nat (fp_offset p)) col ++ (Some <$> bs)
              ++ drop (Z.to_nat (fp_offset p) + length bs)%nat col in
  cols' ← zstore cols (fp_field p) col';
  cfa ← zstore (component_field_arrays ch) (fp_component p) (Some cols');
  chs ← zstore (chunks arch) (fp_chunk p)
          (mkArchetypeDataChunk (id_dense_array ch) cfa
             (dense_arrays_length ch));
  archs ← zstore (archetypes w) (fp_archetype p)
            (set_chunks arch chs (number_of_chunks arch));
  Some (set_archetypes w archs (number_of_archetypes w)).

(** The value of a field of an entity: the [field_size] bytes found at the
    address [world_get_component_field] returns. *)
Definition read_field (w : World) (e k f : Z) : option (list (option byte)) :=
  '(_, r) ← world_get_component_field w e k f;
  p ← r;
  cd ← zlookup (all_components_data w) k;
  fs ← zlookup (field_sizes cd) f;
  load_bytes w p fs.

Definition write_field (w : World) (e k f : Z) (bs : list byte)
    : option World :=
  '(_, r) ← world_get_component_field w e k f;
  p ← r;
  cd ← zlookup (all_components_data w) k;
  fs ← zlookup (field_sizes cd) f;
  guard (Z.of_nat (length bs) = fs);;
  store_bytes w p bs.

(** ** Well-formed worlds *)

Definition sizes_ok (w : World) : Prop :=
  0 < sparse_array_chunk_size w < 2 ^ 32 ∧
  0 < dense_array_chunk_size w ∧
  dense_array_chunk_size w * 255 < 2 ^ 32.

(** A registered layout as [component_data_init] leaves it. *)
Definition component_ok (cd : ComponentData) : Prop :=
  number_of_fields cd = Z.of_nat (length (field_sizes cd)) ∧
  number_of_fields cd < 256 ∧
  Forall (λ s, 0 ≤ s < 256) (field_sizes cd).

(** The columns of component [k] exist in the chunk and have the size the
    registry dictates. *)
Definition columns_ok (all : list ComponentData) (size : Z)
    (cfa : list (option columns)) (k : Z) : Prop :=
  ∃ cd cols,
    zlookup all k = Some cd ∧ zlookup cfa k = Some (Some cols) ∧
    Forall2 (λ fs (col : array byte), Z.of_nat (length col) = fs * size)
      (field_sizes cd) cols.

Definition chunk_ok (all : list ComponentData) (size : Z) (comps : list Z)
    (ch : ArchetypeDataChunk) : Prop :=
  Z.of_nat (length (id_dense_array ch)) = size ∧
  0 ≤ dense_arrays_length ch ≤ size ∧
  (∀ r, 0 ≤ r < dense_arrays_length ch →
        is_Some (aload (id_dense_array ch) r)) ∧
  Forall (columns_ok all size (component_field_arrays ch)) comps.

Definition archetype_ok (all : list ComponentData) (size : Z)
    (arch : Archetype) : Prop :=
  arch_number_of_components arch = Z.of_nat (length (components arch)) ∧
  NoDup (components arch) ∧
  chunk_size arch = size ∧
  number_of_chunks arch = Z.of_nat (length (chunks arch)) ∧
  number_of_chunks arch < 2 ^ 32 ∧
  Forall (chunk_ok all size (components arch)) (chunks arch).

Definition sparse_chunk_ok (size : Z) (sc : SparseArrayChunk) : Prop :=
  Z.of_nat (length (sparse_archetypes sc)) = size ∧
  Z.of_nat (length (chunk_indexes sc)) = size ∧
  Z.of_nat (length (dense_id_array_indexes sc)) = size.

(** The free-id stack occupies [ids[top .. capacity)]; [hw] is the
    high-water mark of [top]: above it the cells still hold their seeds. *)
Definition stack_ok (w : World) (live : list Z) (hw : Z) : Prop :=
  ∃ vals : list Z,
    id_stack_ids w = Some <$> vals ∧
    id_stack_capacity w = Z.of_nat (length vals) ∧
    0 < id_stack_capacity w < 2 ^ 32 ∧
    id_stack_top_index w = Z.of_nat (length live) ∧
    id_stack_top_index w ≤ hw ≤ id_stack_capacity w ∧
    Forall (λ e, 0 ≤ e < hw) live ∧
    (∀ i v, id_stack_top_index w ≤ i < hw → zlookup vals i = Some v →
            0 ≤ v < hw) ∧
    (∀ i, hw ≤ i < id_stack_capacity w → zlookup vals i = Some i) ∧
    NoDup (live ++ drop (length live) vals).

(** The entity id held by a live row, if any. *)
Definition chunk_row (ch : ArchetypeDataChunk) (r : Z) : option Z :=
  guard (0 ≤ r < dense_arrays_length ch);; aload (id_dense_array ch) r.

Definition chunks_row (chs : list ArchetypeDataChunk) (c r : Z) : option Z :=
  ch ← zlookup chs c; chunk_row ch r.

Definition row_at (archs : list Archetype) (a c r : Z) : option Z :=
  arch ← zlookup archs a; chunks_row (chunks arch) c r.

(** Entity [e] occupies live row [r] of chunk [c] of archetype [a]. *)
Definition entity_at (w : World) (e a c r : Z) : Prop :=
  row_at (archetypes w) a c r = Some e.

(** Invariant 1 of the specification, for one entity. *)
Definition sparse_dense_consistent (w : World) (e : Z) : Prop :=
  ∃ a c r, sparse_get w e = Some (a, c, r) ∧ entity_at w e a c r.

Record WF (w : World) (live : list Z) : Prop := mkWF {
  wf_sizes : sizes_ok w;
  wf_ncomp : number_of_components w
             = Z.of_nat (length (all_components_data w)) ∧
             number_of_components w ≤ 255;
  wf_comps : Forall component_ok (all_components_data w);
  wf_narch : number_of_archetypes w = Z.of_nat (length (archetypes w)) ∧
             number_of_archetypes w ≤ 255;
  wf_archs : Forall (archetype_ok (all_components_data w)
                       (dense_array_chunk_size w)) (archetypes w);
  wf_registered :
    Forall (λ arch, Forall (λ k, 0 ≤ k < number_of_components w)
                      (components arch)) (archetypes w);
  wf_nsparse : sparse_array_number_of_chunks w
               = Z.of_nat (length (sparse_array_chunks w));
  wf_sparse : Forall (sparse_chunk_ok (sparse_array_chunk_size w))
                (sparse_array_chunks w);
  wf_stack : ∃ hw, stack_ok w live hw ∧
                   hw ≤ sparse_array_number_of_chunks w
                        * sparse_array_chunk_size w;
  wf_live : ∀ e, e ∈ live → sparse_dense_consistent w e;
  wf_rows : ∀ e a c r, entity_at w e a c r →
                       e ∈ live ∧ sparse_get w e = Some (a, c, r)
}.

(** ** Specification-level descriptions *)

(** What [append] does to the chosen chunk: [ids[length] = entity_id] and
    [length] incremented. *)
Definition chunk_push (ch : ArchetypeDataChunk) (e : Z)
    : ArchetypeDataChunk :=
  mkArchetypeDataChunk
    (<[Z.to_nat (dense_arrays_length ch) := Some e]> (id_dense_array ch))
    (component_field_arrays ch) (dense_arrays_length ch + 1).

Definition chunk_full (arch : Archetype) (ch : ArchetypeDataChunk) : Prop :=
  ¬ dense_arrays_length ch < chunk_size arch.

Definition chunk_shape_ok (size : Z) (ch : ArchetypeDataChunk) : Prop :=
  Z.of_nat (length (id_dense_array ch)) = size ∧
  0 ≤ dense_arrays_length ch ≤ size.

(** ** Legal operations and reachable worlds *)

(** Creation parameters: positive chunk sizes, and a dense chunk size for
    which the 32-bit byte offsets [row * field_size] cannot wrap. *)
Definition create_legal (dense_size sparse_size starting : Z) : Prop :=
  0 < dense_size ∧ dense_size * 255 < 2 ^ 32 ∧
  0 < sparse_size < 2 ^ 32 ∧ 0 ≤ starting < 2 ^ 32.

(** A field layout that fits the [comp_size_t] count and sizes. *)
Definition fields_legal (fs : list Z) : Prop :=
  Z.of_nat (length fs) < 256 ∧ Forall (λ s, 0 ≤ s < 256) fs.

(** A signature of registered components, without duplicates. *)
Definition signature_legal (w : World) (cs : list Z) : Prop :=
  NoDup cs ∧ Forall (λ k, 0 ≤ k < number_of_components w) cs.

(** The 32-bit capacity of the id stack can still double. *)
Definition id_room (w : World) : Prop :=
  id_stack_top_index w < id_stack_capacity w
  ∨ 2 * id_stack_capacity w < 2 ^ 32.

(** The 8-bit archetype counter does not wrap: the signature is already
    known, or fewer than 255 archetypes exist. *)
Definition archetype_room (w : World) (cs : list Z) : Prop :=
  number_of_archetypes w < 255
  ∨ Exists (λ arch, components arch = qsort compare_comp_ids cs)
      (archetypes w).

(** Worlds reachable from [world_create] by the public operations and the
    caller's writes through field pointers, together with the list of live
    entity ids, as long as no counter wraps. *)
Inductive reachable : World → list Z → Prop :=
  | reach_create d s n :
      create_legal d s n → reachable (world_create d s n) []
  | reach_add_component_type w live fs :
      reachable w live → fields_legal fs → number_of_components w < 255 →
      reachable (world_add_component_type w fs).1 live
  | reach_add_entity w live cs w' e :
      reachable w live → signature_legal w cs → id_room w →
      archetype_room w cs →
      world_add_entity w cs = Some (w', e) →
      reachable w' (e :: live)
  | reach_remove_entity w live e w' :
      reachable w live → e ∈ live →
      world_remove_entity w e = Some w' →
      reachable w' (filter (λ x, x ≠ e) live)
  | reach_write_field w live e k f bs w' :
      reachable w live → e ∈ live →
      write_field w e k f bs = Some w' →
      reachable w' live.

(** [a] is the first archetype whose component list is [comps]: the
    archetype [world_match_archetype] selects. *)
Definition first_match (archs : list Archetype) (comps : list Z) (a : Z)
    : Prop :=
  (∃ arch, zlookup archs a = Some arch ∧ components arch = comps) ∧
  ∀ j arch', 0 ≤ j < a → zlookup archs j = Some arch' →
             components arch' ≠ comps.

(** The bytes of row [r] in a column of [fs]-byte values. *)
Definition row_bytes (col : array byte) (r fs : Z) : list (option byte) :=
  take (Z.to_nat fs) (drop (Z.to_nat (r * fs)) col).

(** The column after the [fs] bytes of row [src] were copied over row
    [dst]. *)
Definition copy_row (col : array byte) (dst src fs : Z) : array byte :=
  take (Z.to_nat (dst * fs)) col ++ row_bytes col src fs
    ++ drop (Z.to_nat (dst * fs + fs)) col.

(** Step 3 of [swap_pop]: in every column of every component of the
    archetype, row [src] was copied over row [dst]; nothing else changed. *)
Definition columns_swapped (all : list ComponentData) (comps : list Z)
    (cfa cfa' : list (option columns)) (dst src : Z) : Prop :=
  (∀ k, k ∉ comps → zlookup cfa' k = zlookup cfa k) ∧
  (∀ k cd cols, k ∈ comps → zlookup all k = Some cd →
     zlookup cfa k = Some (Some cols) →
     ∃ cols', zlookup cfa' k = Some (Some cols') ∧
       ∀ j fs col, zlookup (field_sizes cd) j = Some fs →
         zlookup cols j = Some col →
         zlookup cols' j = Some (copy_row col dst src fs)).

(** ** Runs of operations *)

Inductive op :=
  | AddComponentType (fs : list Z)
  | AddEntity (cs : list Z)
  | RemoveEntity (e : Z)
  | WriteField (e k f : Z) (bs : list byte).

(** The legality the specification asks of the caller. *)
Definition op_legal (w : World) (live : list Z) (o : op) : Prop :=
  match o with
  | AddComponentType fs => fields_legal fs
  | AddEntity cs => signature_legal w cs
  | RemoveEntity e => e ∈ live
  | WriteField e _ _ _ => e ∈ live
  end.

(** No 8-bit or 32-bit counter wraps in the operation. *)
Definition op_within_limits (w : World) (o : op) : Prop :=
  match o with
  | AddComponentType _ => number_of_components w < 255
  | AddEntity cs => id_room w ∧ archetype_room w cs
  | RemoveEntity _ => True
  | WriteField _ _ _ _ => True
  end.

#[global] Instance fields_legal_dec fs : Decision (fields_legal fs).
Proof. unfold fields_legal. apply _. Defined.

#[global] Instance signature_legal_dec w cs : Decision (signature_legal w cs).
Proof. unfold signature_legal. apply _. Defined.

#[global] Instance id_room_dec w : Decision (id_room w).
Proof. unfold id_room. apply _. Defined.

#[global] Instance archetype_room_dec w cs : Decision (archetype_room w cs).
Proof. unfold archetype_room. apply _. Defined.

#[global] Instance op_legal_dec w live o : Decision (op_legal w live o).
Proof. destruct o; simpl; apply _. Defined.

#[global] Instance op_within_limits_dec w o : Decision (op_within_limits w o).
Proof. destruct o; simpl; apply _. Defined.

(** One operation on a world and its live ids.  With [limits] the
    operation is also refused when a counter would wrap. *)
Definition exec (limits : bool) (st : World * list Z) (o : op)
    : option (World * list Z) :=
  let '(w, live) := st in
  if bool_decide (op_legal w live o)
     && (negb limits || bool_decide (op_within_limits w o)) then
    match o with
    | AddComponentType fs => Some ((world_add_component_type w fs).1, live)
    | AddEntity cs =>
        '(w', e) ← world_add_entity w cs; Some (w', e :: live)
    | RemoveEntity e =>
        w' ← world_remove_entity w e; Some (w', filter (λ x, x ≠ e) live)
    | WriteField e k f bs =>
        w' ← write_field w e k f bs; Some (w', live)
    end
  else None.

Definition run (limits : bool) (ops : list op) (st : World * list Z)
    : option (World * list Z) :=
  foldl (λ acc o, acc ≫= λ st, exec limits st o) (Some st) ops.

(** ** Concrete worlds *)

(** A small run: two component types, entities of three signatures spread
    over several chunks, writes through field pointers, and removals. *)
Definition example_ops : list op :=
  [AddComponentType [8; 8; 8]; AddComponentType [2];
   AddEntity [0; 1]; AddEntity [1; 0]; AddEntity [1]; AddEntity [0; 1];
   AddEntity [0; 1]; AddEntity [1; 0]; AddEntity []; AddEntity [1];
   WriteField 0 1 0 [Byte.x01; Byte.x02];
   WriteField 1 1 0 [Byte.x03; Byte.x04];
   WriteField 3 1 0 [Byte.x05; Byte.x06];
   WriteField 5 1 0 [Byte.x07; Byte.x08];
   WriteField 7 1 0 [Byte.x09; Byte.x0a];
   WriteField 2 1 0 [Byte.x0b; Byte.x0c];
   RemoveEntity 4].

Definition example_state : World * list Z :=
  Eval vm_compute in
    default (world_create 1 1 0, [])
      (run true example_ops (world_create 4 4 1, [])).

Definition example_world : World := example_state.1.
Definition example_live : list Z := example_state.2.

(** Component [j] belongs to the signature of index [i] iff bit [j] of [i]
    is set: 512 distinct signatures over 9 component types. *)
Definition signature_of (i : Z) : list Z :=
  filter (λ j, Z.testbit i j = true) (seqZ 0 9).

(** Register 9 one-byte components, then add one entity for each of the
    first [n] signatures. *)
Definition many_signatures_ops (n : Z) : list op :=
  replicate 9 (AddComponentType [1])
  ++ ((λ i, AddEntity (signature_of i)) <$> seqZ 0 n).

(** Registering a list of layouts, collecting the ids returned. *)
Definition register_all (w : World) (fss : list (list Z)) : World * list Z :=
  foldl (λ acc fs, let '(w', k) := world_add_component_type acc.1 fs in
                   (w', acc.2 ++ [k])) (w, []) fss.

#[global] Instance component_ok_dec cd : Decision (component_ok cd).
Proof. unfold component_ok. apply _. Defined.

#[global] Instance chunk_shape_ok_dec size ch :
  Decision (chunk_shape_ok size ch).
Proof. unfold chunk_shape_ok. apply _. Defined.

(** The first archetype of the example world: signature [[0; 1]], a chunk
    with three live rows and a chunk with one. *)
Definition example_archetype : Archetype :=
  Eval vm_compute in
    default (mkArchetype [] [] 0 0 0 0) (archetypes example_world !! 0%nat).

(** ** The id allocator seen from outside *)



(** The free part of the id stack, top first. *)
Definition free_ids (w : World) : array Z :=
  drop (Z.to_nat (id_stack_top_index w)) (id_stack_ids w).

(** ** What an iterator snapshot shows *)

(** The archetype's component set contains every id of the request
    (membership, not position). *)
Definition carries (arch : Archetype) (R : list Z) : Prop :=
  Forall (λ k, k ∈ components arch) R.

#[global] Instance carries_dec arch R : Decision (carries arch R).
Proof. unfold carries. apply _. Defined.

(** The chunks of the archetypes that carry the request: archetypes in id
    order starting at id [a], the chunks of each in index order. *)
Fixpoint included_from (archs : list Archetype) (R : list Z) (a : Z)
    : list (Z * Z) :=
  match archs with
  | [] => []
  | arch :: rest =>
      (if decide (carries arch R)
       then (λ c, (a, c)) <$> seqZ 0 (Z.of_nat (length (chunks arch)))
       else [])
      ++ included_from rest R (a + 1)
  end.

Definition included_chunks (w : World) (R : list Z) : list (Z * Z) :=
  included_from (archetypes w) R 0.


(** The record of chunk [c] of archetype [a]: the column tables of the
    requested components in request order, and the chunk's live length. *)
Definition record_of (w : World) (R : list Z) (ac : Z * Z)
    : option (list columns_ptr * Z) :=
  arch ← zlookup (archetypes w) ac.1;
  ch ← zlookup (chunks arch) ac.2;
  Some ((λ k, ColumnsOf ac.1 ac.2 k) <$> R, dense_arrays_length ch).


(** The archetype entity [e] is stored in carries the request. *)
Definition entity_carries (w : World) (R : list Z) (e : Z) : Prop :=
  match sparse_get w e with
  | Some (a, _, _) =>
      match zlookup (archetypes w) a with
      | Some arch => carries arch R
      | None => False
      end
  | None => False
  end.

#[global] Instance entity_carries_dec w R e : Decision (entity_carries w R e).
Proof.
  unfold entity_carries. destruct (sparse_get w e) as [[[a c] r]|]; [|apply _].
  destruct (zlookup (archetypes w) a); apply _.
Defined.

(** ** The shape of the archetype array *)

(** The column table of a chunk has an entry for each component type that
    was registered when the chunk was created, and the entries of the
    components the archetype does not carry are NULL. *)
Definition table_ok (ncomp : Z) (comps : list Z) (ch : ArchetypeDataChunk)
    : Prop :=
  Z.of_nat (length (component_field_arrays ch)) ≤ ncomp ∧
  ∀ k, k ∉ comps →
       0 ≤ k < Z.of_nat (length (component_field_arrays ch)) →
       zlookup (component_field_arrays ch) k = Some None.

(** Invariants 2 to 4 of the specification, and two more the code keeps:
    signatures are pairwise different and strictly ascending, an
    archetype's stored id is its index, no archetype is without a chunk,
    and column tables are as [table_ok] says. *)
Record Shape (ncomp : Z) (archs : list Archetype) : Prop := mkShape {
  shape_unique : NoDup (components <$> archs);
  shape_sorted : Forall (λ arch, StronglySorted Z.lt (components arch)) archs;
  shape_ids : ∀ a arch, zlookup archs a = Some arch → archetype_id arch = a;
  shape_chunks : Forall (λ arch, 1 ≤ number_of_chunks arch) archs;
  shape_tables :
    Forall (λ arch, Forall (table_ok ncomp (components arch)) (chunks arch))
      archs
}.

(** ** The rows in use *)

(** The entity ids in the live rows of chunk [c] of archetype [a], in row
    order. *)
Definition rows_of_chunk (w : World) (ac : Z * Z) : list Z :=
  omap (row_at (archetypes w) ac.1 ac.2)
    (seqZ 0 (dense_array_chunk_size w)).

(** The entity ids in all live rows of the world: archetypes in id order,
    chunks in index order, rows in order. *)
Definition stored_ids (w : World) : list Z :=
  included_chunks w [] ≫= rows_of_chunk w.

(** The sum of the chunk lengths. *)
Definition arch_rows (arch : Archetype) : Z :=
  foldr (λ ch n, dense_arrays_length ch + n) 0 (chunks arch).

Definition total_rows (w : World) : Z :=
  foldr (λ arch n, arch_rows arch + n) 0 (archetypes w).

(** ** Storage that only grows *)


(** ** Destruction

    The destroy functions only release memory.  They are modelled by the
    list of pointers they pass to [free], in call order, each pointer
    named by the path the source reaches it through; [None] is an
    out-of-bounds read on the way. *)

Inductive block :=
  | IdArray (a c : Z)              (* chunk->id_dense_array *)
  | Column (a c k j : Z)           (* chunk->component_field_arrays[k][j] *)
  | ColumnVector (a c k : Z)       (* chunk->component_field_arrays[k] *)
  | ColumnTable (a c : Z)          (* chunk->component_field_arrays *)
  | ChunkArray (a : Z)             (* archetype->chunks *)
  | ComponentList (a : Z)          (* archetype->components *)
  | ArchetypeArray                 (* world->archetypes *)
  | FieldSizes (k : Z)             (* all_components_data[k].field_sizes *)
  | ComponentDataArray             (* world->all_components_data *)
  | ComponentIds                   (* world->component_ids *)
  | SparseArchetypes (i : Z)       (* sparse chunk i: archetypes *)
  | SparseChunkIndexes (i : Z)     (* sparse chunk i: chunk_indexes *)
  | SparseRows (i : Z)             (* sparse chunk i: dense_id_array_indexes *)
  | SparseChunkArray               (* world->sparse_array_chunks *)
  | IdStack.                       (* world->id_stack_ids *)

(** The field loop of [archetype_data_chunk_destroy]. *)
Fixpoint destroy_fields (a c k : Z) (cols : columns) (fuel : nat) (j : Z)
    : option (list block) :=
  match fuel with
  | O => Some []
  | S fuel' =>
      _ ← zlookup cols j;
      rest ← destroy_fields a c k cols fuel' (j + 1);
      Some (Column a c k j :: rest)
  end.

(** The component loop of [archetype_data_chunk_destroy]: it runs over all
    the component types the world has now. *)
Fixpoint destroy_columns (a c : Z) (ch : ArchetypeDataChunk)
    (all : list ComponentData) (fuel : nat) (i : Z) : option (list block) :=
  match fuel with
  | O => Some []
  | S fuel' =>
      entry ← zlookup (component_field_arrays ch) i;
      here ← match entry with
             | None => Some []
             | Some cols =>
                 cd ← zlookup all i;
                 fields ← destroy_fields a c i cols
                            (Z.to_nat (number_of_fields cd)) 0;
                 Some (fields ++ [ColumnVector a c i])
             end;
      rest ← destroy_columns a c ch all fuel' (i + 1);
      Some (here ++ rest)
  end.

Definition archetype_data_chunk_destroy (a c : Z) (ch : ArchetypeDataChunk)
    (all : list ComponentData) (number_of_all_components : Z)
    : option (list block) :=
  cols ← destroy_columns a c ch all (Z.to_nat number_of_all_components) 0;
  Some (IdArray a c :: cols ++ [ColumnTable a c]).

(** The chunk loop of [archetype_destroy]. *)
Fixpoint destroy_chunks (a : Z) (arch : Archetype)
    (all : list ComponentData) (nall : Z) (fuel : nat) (i : Z)
    : option (list block) :=
  match fuel with
  | O => Some []
  | S fuel' =>
      ch ← zlookup (chunks arch) i;
      here ← archetype_data_chunk_destroy a i ch all nall;
      rest ← destroy_chunks a arch all nall fuel' (i + 1);
      Some (here ++ rest)
  end.

Definition archetype_destroy (a : Z) (arch : Archetype)
    (all : list ComponentData) (number_of_all_components : Z)
    : option (list block) :=
  chs ← destroy_chunks a arch all number_of_all_components
          (Z.to_nat (number_of_chunks arch)) 0;
  Some (chs ++ [ChunkArray a; ComponentList a]).

(** The archetype loop of [world_destroy]. *)
Fixpoint destroy_archetypes (w : World) (fuel : nat) (i : Z)
    : option (list block) :=
  match fuel with
  | O => Some []
  | S fuel' =>
      arch ← zlookup (archetypes w) i;
      here ← archetype_destroy i arch (all_components_data w)
               (number_of_components w);
      rest ← destroy_archetypes w fuel' (i + 1);
      Some (here ++ rest)
  end.

(** The [component_data_destroy] loop of [world_destroy]. *)
Fixpoint destroy_components (w : World) (fuel : nat) (i : Z)
    : option (list block) :=
  match fuel with
  | O => Some []
  | S fuel' =>
      _ ← zlookup (all_components_data w) i;
      rest ← destroy_components w fuel' (i + 1);
      Some (FieldSizes i :: rest)
  end.

(** The [sparse_array_chunk_destroy] loop of [world_destroy]. *)
Fixpoint destroy_sparse (w : World) (fuel : nat) (i : Z)
    : option (list block) :=
  match fuel with
  | O => Some []
  | S fuel' =>
      _ ← zlookup (sparse_array_chunks w) i;
      rest ← destroy_sparse w fuel' (i + 1);
      Some (SparseArchetypes i :: SparseChunkIndexes i :: SparseRows i
            :: rest)
  end.

Definition world_destroy (w : World) : option (list block) :=
  archs ← destroy_archetypes w (Z.to_nat (number_of_archetypes w)) 0;
  comps ← destroy_components w (Z.to_nat (number_of_components w)) 0;
  sparse ← destroy_sparse w (Z.to_nat (sparse_array_number_of_chunks w)) 0;
  Some (archs ++ [ArchetypeArray] ++ comps
        ++ [ComponentDataArray; ComponentIds] ++ sparse
        ++ [SparseChunkArray; IdStack]).

(** ** Destroying an iterator

    [component_iterator_destroy] releases the arrays the iterator owns and
    resets its fields.  As for [world_destroy], the model gives the
    pointers passed to [free], in call order; a NULL array of the iterator
    is the empty list, as [world_get_component_iterator] returns it. *)

Inductive iterator_block :=
  | IteratorRecord (i : Z)     (* iterator->component_field_arrays[i] *)
  | IteratorRecords            (* iterator->component_field_arrays *)
  | IteratorLengths.           (* iterator->chunk_lengths *)

(** The loop over the records. *)
Fixpoint destroy_records (it : ComponentIterator) (fuel : nat) (i : Z)
    : option (list iterator_block) :=
  match fuel with
  | O => Some []
  | S fuel' =>
      _ ← zlookup (it_component_field_arrays it) i;
      rest ← destroy_records it fuel' (i + 1);
      Some (IteratorRecord i :: rest)
  end.

Definition component_iterator_destroy (it : ComponentIterator)
    : option (ComponentIterator * list iterator_block) :=
  records ←
    (if decide (it_component_field_arrays it ≠ []) then
       inner ← destroy_records it (Z.to_nat (it_number_of_chunks it)) 0;
       Some (inner ++ [IteratorRecords])
     else Some []);
  let lengths :=
    if decide (chunk_lengths it ≠ []) then [IteratorLengths] else [] in
  Some (mkComponentIterator [] [] 0, records ++ lengths).

(** * Properties *)

(** ** Arrays *)

Lemma zlookup_Some {A} (l : list A) i x :
  zlookup l i = Some x ↔ 0 ≤ i ∧ l !! Z.to_nat i = Some x.
Proof. unfold zlookup. destruct (decide (0 ≤ i)); naive_solver. Qed.

Lemma zlookup_nat {A} (l : list A) (n : nat) :
  zlookup l (Z.of_nat n) = l !! n.
Proof. unfold zlookup. case_decide; [by rewrite Nat2Z.id | lia]. Qed.

Lemma zlookup_lt {A} (l : list A) i x :
  zlookup l i = Some x → 0 ≤ i < Z.of_nat (length l).
Proof.
  rewrite zlookup_Some. intros [? H%lookup_lt_Some]. lia.
Qed.

Lemma zlookup_is_Some {A} (l : list A) i :
  0 ≤ i < Z.of_nat (length l) → is_Some (zlookup l i).
Proof.
  intros ?. unfold zlookup. case_decide; [|lia].
  apply lookup_lt_is_Some. lia.
Qed.

Lemma zlookup_None {A} (l : list A) i :
  Z.of_nat (length l) ≤ i → zlookup l i = None.
Proof.
  intros ?. unfold zlookup. case_decide; [|done].
  apply lookup_ge_None. lia.
Qed.

Lemma zlookup_elem_of {A} (l : list A) i x : zlookup l i = Some x → x ∈ l.
Proof. rewrite zlookup_Some. intros [_ ?]. by eapply list_elem_of_lookup_2. Qed.

Lemma elem_of_zlookup {A} (l : list A) x : x ∈ l → ∃ i, zlookup l i = Some x.
Proof.
  intros [n Hn]%list_elem_of_lookup_1. exists (Z.of_nat n).
  by rewrite zlookup_nat.
Qed.

Lemma zlookup_Forall {A} (P : A → Prop) (l : list A) i x :
  Forall P l → zlookup l i = Some x → P x.
Proof. rewrite Forall_forall. eauto using zlookup_elem_of. Qed.

Lemma zstore_Some {A} (l : list A) i x l' :
  zstore l i x = Some l' ↔
  0 ≤ i < Z.of_nat (length l) ∧ l' = <[Z.to_nat i := x]> l.
Proof.
  unfold zstore. destruct (decide (0 ≤ i < Z.of_nat (length l))); naive_solver.
Qed.

Lemma zstore_is_Some {A} (l : list A) i x :
  0 ≤ i < Z.of_nat (length l) → zstore l i x = Some (<[Z.to_nat i := x]> l).
Proof. intros. unfold zstore. by case_decide. Qed.

Lemma zstore_length {A} (l : list A) i x l' :
  zstore l i x = Some l' → length l' = length l.
Proof. rewrite zstore_Some. intros [_ ->]. apply length_insert. Qed.

Lemma zlookup_zstore {A} (l : list A) i x l' j :
  zstore l i x = Some l' →
  zlookup l' j = if decide (j = i) then Some x else zlookup l j.
Proof.
  rewrite zstore_Some. intros [? ->]. unfold zlookup.
  destruct (decide (j = i)) as [->|Hj].
  - rewrite decide_True by lia. apply list_lookup_insert_eq. lia.
  - destruct (decide (0 ≤ j)); [|done]. apply list_lookup_insert_ne. lia.
Qed.

Lemma zlookup_zstore_eq {A} (l : list A) i x l' :
  zstore l i x = Some l' → zlookup l' i = Some x.
Proof. intros H. rewrite (zlookup_zstore _ _ _ _ _ H). by case_decide. Qed.

Lemma zlookup_zstore_ne {A} (l : list A) i x l' j :
  zstore l i x = Some l' → j ≠ i → zlookup l' j = zlookup l j.
Proof. intros H ?. rewrite (zlookup_zstore _ _ _ _ _ H). by case_decide. Qed.

Lemma zstore_Forall {A} (P : A → Prop) (l : list A) i x l' :
  zstore l i x = Some l' → Forall P l → P x → Forall P l'.
Proof. rewrite zstore_Some. intros [_ ->] ??. by apply Forall_insert. Qed.

Lemma aload_Some {A} (a : array A) i x :
  aload a i = Some x ↔ zlookup a i = Some (Some x).
Proof.
  unfold aload. destruct (zlookup a i) as [[y|]|]; simpl; naive_solver.
Qed.

Lemma aload_lt {A} (a : array A) i x :
  aload a i = Some x → 0 ≤ i < Z.of_nat (length a).
Proof. rewrite aload_Some. apply zlookup_lt. Qed.

Lemma astore_Some {A} (a : array A) i x a' :
  astore a i x = Some a' ↔
  0 ≤ i < Z.of_nat (length a) ∧ a' = <[Z.to_nat i := Some x]> a.
Proof. apply zstore_Some. Qed.

Lemma astore_is_Some {A} (a : array A) i x :
  0 ≤ i < Z.of_nat (length a) →
  astore a i x = Some (<[Z.to_nat i := Some x]> a).
Proof. apply zstore_is_Some. Qed.

Lemma astore_length {A} (a : array A) i x a' :
  astore a i x = Some a' → length a' = length a.
Proof. apply zstore_length. Qed.

Lemma aload_astore {A} (a : array A) i x a' j :
  astore a i x = Some a' →
  aload a' j = if decide (j = i) then Some x else aload a j.
Proof.
  intros H. unfold aload. rewrite (zlookup_zstore _ _ _ _ _ H).
  by case_decide.
Qed.

Lemma aload_astore_eq {A} (a : array A) i x a' :
  astore a i x = Some a' → aload a' i = Some x.
Proof. intros H. rewrite (aload_astore _ _ _ _ _ H). by case_decide. Qed.

Lemma aload_astore_ne {A} (a : array A) i x a' j :
  astore a i x = Some a' → j ≠ i → aload a' j = aload a j.
Proof. intros H ?. rewrite (aload_astore _ _ _ _ _ H). by case_decide. Qed.

Lemma aload_insert_ne {A} (a : array A) (i : nat) x j :
  j ≠ Z.of_nat i → aload (<[i := x]> a) j = aload a j.
Proof.
  intros. unfold aload, zlookup. case_decide; [|done].
  by rewrite list_lookup_insert_ne by lia.
Qed.

Lemma aload_insert_eq {A} (a : array A) (i : nat) x :
  (i < length a)%nat → aload (<[i := Some x]> a) (Z.of_nat i) = Some x.
Proof.
  intros. unfold aload. rewrite zlookup_nat.
  by rewrite list_lookup_insert_eq by lia.
Qed.

Lemma length_malloc {A} n : 0 ≤ n → Z.of_nat (length (@malloc A n)) = n.
Proof. intros. unfold malloc. rewrite length_replicate. lia. Qed.

Lemma wrap32_small z : 0 ≤ z < 2 ^ 32 → wrap32 z = z.
Proof. intros. unfold wrap32. by apply Z.mod_small. Qed.

Lemma wrap8_small z : 0 ≤ z < 256 → wrap8 z = z.
Proof. intros. unfold wrap8. by apply Z.mod_small. Qed.

Lemma tabulate_Some {A} n (f : Z → option A) (g : Z → A) :
  (∀ i, 0 ≤ i < n → f i = Some (g i)) →
  tabulate n f = Some (g <$> seqZ 0 n).
Proof.
  intros H. unfold tabulate. apply mapM_Some.
  apply Forall2_fmap_r, Forall2_same_length_lookup_2; [done|].
  intros i x y [-> ?]%lookup_seqZ Hy. apply lookup_seqZ in Hy as [-> _].
  apply H. lia.
Qed.

(** ** The id stack *)

Lemma aload_fmap_Some (vals : list Z) i :
  aload (Some <$> vals) i = zlookup vals i.
Proof.
  unfold aload, zlookup. case_decide; [|done].
  rewrite list_lookup_fmap. by destruct (vals !! Z.to_nat i).
Qed.

Lemma zlookup_drop_head (vals : list Z) (n : nat) v :
  zlookup vals (Z.of_nat n) = Some v →
  drop n vals = v :: drop (S n) vals.
Proof.
  rewrite zlookup_nat. intros H. by rewrite (drop_S _ _ _ H).
Qed.

(** Popping an id: the result is fresh, and the high-water mark moves by at
    most one. *)
Lemma id_stack_pop_spec w live hw :
  stack_ok w live hw →
  id_stack_top_index w < id_stack_capacity w
  ∨ 2 * id_stack_capacity w < 2 ^ 32 →
  ∃ e ids cap,
    id_stack_pop w
    = Some (set_id_stack w ids cap (id_stack_top_index w + 1), e) ∧
    e ∉ live ∧ 0 ≤ e ∧
    (e < hw ∧ stack_ok (set_id_stack w ids cap (id_stack_top_index w + 1))
                (e :: live) hw
     ∨ e = hw ∧ id_stack_top_index w = hw ∧
       stack_ok (set_id_stack w ids cap (id_stack_top_index w + 1))
         (e :: live) (hw + 1)) ∧
    (id_stack_top_index w < id_stack_capacity w →
     ids = id_stack_ids w ∧ cap = id_stack_capacity w) ∧
    (id_stack_capacity w ≤ id_stack_top_index w →
     cap = 2 * id_stack_capacity w ∧ e = id_stack_capacity w ∧
     ∀ i, id_stack_capacity w ≤ i < 2 * id_stack_capacity w →
          aload ids i = Some i).
Proof.
  intros (vals & Hids & Hcap & Hcapb & Htop & Hhw & Hlive & Hlow & Hseed & Hnd)
    Hroom.
  (* the stack after the optional growth *)
  assert (∃ vals' cap',
    (if decide (id_stack_capacity w ≤ id_stack_top_index w) then
       set_id_stack w
         (take (Z.to_nat (id_stack_top_index w))
            (realloc (id_stack_ids w) (wrap32 (id_stack_capacity w * 2)))
          ++ (Some <$> seqZ (id_stack_top_index w)
                (wrap32 (id_stack_capacity w * 2) - id_stack_top_index w)))
         (wrap32 (id_stack_capacity w * 2)) (id_stack_top_index w)
     else w)
    = set_id_stack w (Some <$> vals') cap' (id_stack_top_index w) ∧
    cap' = Z.of_nat (length vals') ∧ cap' < 2 ^ 32 ∧
    id_stack_top_index w < cap' ∧ hw ≤ cap' ∧
    id_stack_capacity w ≤ cap' ∧
    take (length vals) vals' = vals ∧
    (∀ i, hw ≤ i < cap' → zlookup vals' i = Some i) ∧
    NoDup (live ++ drop (length live) vals') ∧
    (id_stack_top_index w < id_stack_capacity w →
     vals' = vals ∧ cap' = id_stack_capacity w) ∧
    (id_stack_capacity w ≤ id_stack_top_index w →
     cap' = 2 * id_stack_capacity w))
    as (vals' & cap' & Hw1 & Hcap' & Hcapb' & Htop' & Hhw' & Hmono & Hpre
        & Hseed' & Hnd' & Hsame & Hgrow).
  { case_decide as Hfull.
    - assert (id_stack_top_index w = id_stack_capacity w) as Heq by lia.
      assert (hw = id_stack_capacity w) as -> by lia.
      destruct Hroom as [?|Hroom]; [lia|].
      rewrite (wrap32_small (_ * 2)) by lia.
      exists (vals ++ seqZ (id_stack_capacity w) (id_stack_capacity w)),
        (id_stack_capacity w * 2).
      split_and!; try lia.
      + f_equal. rewrite fmap_app. f_equal.
        * unfold realloc. rewrite Hids, Heq, Hcap, Nat2Z.id.
          rewrite resize_spec, take_app_le, take_take
            by (rewrite length_take, length_fmap; lia).
          apply take_ge. rewrite length_fmap. lia.
        * do 2 f_equal; lia.
      + rewrite length_app, length_seqZ. lia.
      + by rewrite take_app_length.
      + intros i Hi. rewrite Hcap in Hi |- *. unfold zlookup.
        case_decide; [|lia].
        rewrite lookup_app_r by lia. apply lookup_seqZ. lia.
      + assert (length live = length vals) as Hlen by lia.
        rewrite Hlen, drop_app_length.
        rewrite Hlen, drop_all, app_nil_r in Hnd.
        apply NoDup_app. split_and!; [done| |apply NoDup_seqZ].
        intros x Hx [? ?]%elem_of_seqZ.
        rewrite Forall_forall in Hlive. apply Hlive in Hx. lia.
    - exists vals, (id_stack_capacity w). destruct w; simpl in *.
      split_and!; try done; try lia.
      + unfold set_id_stack. simpl. by subst.
      + by rewrite take_ge. }
  unfold id_stack_pop. rewrite Hw1. simpl.
  rewrite aload_fmap_Some.
  destruct (zlookup_is_Some vals' (id_stack_top_index w)) as [e He]; [lia|].
  rewrite He. simpl.
  rewrite wrap32_small by lia.
  assert (drop (length live) vals' = e :: drop (S (length live)) vals')
    as Hdrop.
  { apply zlookup_drop_head. by rewrite <- Htop. }
  assert (0 ≤ e ∧ (e < hw ∧ id_stack_top_index w < hw
                   ∨ e = hw ∧ id_stack_top_index w = hw)) as [He0 Hehw].
  { destruct (decide (id_stack_top_index w < hw)).
    - assert (zlookup vals (id_stack_top_index w) = Some e) as Hv.
      { rewrite <- Hpre. unfold zlookup in He |- *.
        case_decide; [|done]. rewrite lookup_take_lt; [done|]. lia. }
      apply Hlow in Hv; lia.
    - rewrite Hseed' in He by lia. simplify_eq. lia. }
  exists e, (Some <$> vals'), cap'. split_and!.
  - done.
  - rewrite Hdrop in Hnd'. apply NoDup_app in Hnd' as (_ & Hdisj & _).
    intros Hin. apply (Hdisj _ Hin). left.
  - done.
  - assert (NoDup ((e :: live) ++ drop (length (e :: live)) vals')).
    { rewrite Hdrop in Hnd'. simpl.
      by rewrite <- Permutation_middle in Hnd'. }
    assert (∀ hw', hw ≤ hw' ≤ cap' → e < hw' →
                   id_stack_top_index w + 1 ≤ hw' →
                   (id_stack_top_index w + 1 < hw' → hw' = hw) →
      stack_ok (set_id_stack w (Some <$> vals') cap'
                  (id_stack_top_index w + 1)) (e :: live) hw') as Hok.
    { intros hw' ? ? ? Hhw'eq. exists vals'. simpl.
      split_and!; try done; try lia.
      - constructor; [lia|]. eapply Forall_impl; [done|]. simpl. lia.
      - intros i v Hi Hv. rewrite Hhw'eq in Hi |- * by lia.
        assert (zlookup vals i = Some v) as Hv'.
        { rewrite <- Hpre. unfold zlookup in Hv |- *.
          case_decide; [|done]. rewrite lookup_take_lt; [done|]. lia. }
        apply Hlow in Hv'; lia.
      - intros i Hi. apply Hseed'. lia. }
    destruct Hehw as [[? ?]|[-> Heq]].
    + left. split; [done|]. apply Hok; lia.
    + right. split_and!; [done..|]. apply Hok; lia.
  - intros Hlt. destruct (Hsame Hlt) as [-> ->]. by rewrite Hids.
  - intros Hge. specialize (Hgrow Hge).
    assert (id_stack_top_index w = hw ∧ hw = id_stack_capacity w)
      as [Htophw Hhwcap] by lia.
    split_and!; [done| |].
    + rewrite Hseed' in He by lia. simplify_eq. lia.
    + intros i Hi. rewrite aload_fmap_Some. apply Hseed'. lia.
Qed.

(** ** Canonical signatures *)

Lemma compare_comp_ids_le a b : compare_comp_ids a b ≤ 0 ↔ a ≤ b.
Proof. unfold compare_comp_ids. repeat case_decide; lia. Qed.

Lemma qsort_insert_perm cmp x l : qsort_insert cmp x l ≡ₚ x :: l.
Proof.
  induction l as [|y l IH]; simpl; [done|].
  case_decide; [done|]. by rewrite IH, Permutation_swap.
Qed.

Lemma qsort_perm cmp l : qsort cmp l ≡ₚ l.
Proof.
  induction l as [|x l IH]; simpl; [done|].
  by rewrite qsort_insert_perm, IH.
Qed.

Lemma qsort_insert_sorted x l :
  Sorted Z.le l → Sorted Z.le (qsort_insert compare_comp_ids x l).
Proof.
  induction 1 as [|y l Hs IH Hhd]; simpl.
  - by repeat constructor.
  - case_decide as Hc; rewrite compare_comp_ids_le in Hc.
    + by repeat constructor.
    + constructor; [done|].
      destruct Hhd as [|z l]; simpl.
      * constructor. lia.
      * case_decide as Hc'; constructor; [lia|done].
Qed.

Lemma qsort_sorted l : Sorted Z.le (qsort compare_comp_ids l).
Proof.
  induction l; simpl; [constructor|]. by apply qsort_insert_sorted.
Qed.

Lemma qsort_permutation_eq l l' :
  l ≡ₚ l' → qsort compare_comp_ids l = qsort compare_comp_ids l'.
Proof.
  intros Hp. apply (Sorted_unique Z.le); try apply qsort_sorted.
  by rewrite !qsort_perm.
Qed.

Lemma qsort_length cmp l : length (qsort cmp l) = length l.
Proof. apply Permutation_length, qsort_perm. Qed.

Lemma qsort_Forall (P : Z → Prop) cmp l : Forall P l → Forall P (qsort cmp l).
Proof. intros. by rewrite qsort_perm. Qed.

(** ** Archetype matching *)

Lemma components_equal_spec l1 l2 :
  length l1 = length l2 → components_equal l1 l2 = true ↔ l1 = l2.
Proof.
  revert l2. induction l1 as [|x l1 IH]; intros [|y l2] Hlen;
    simplify_eq/=; [done|].
  case_decide as Hxy.
  - split; [done|]. intros [= ? ?]. done.
  - subst y. rewrite IH by done. naive_solver.
Qed.

(** The scan returns the first archetype whose list equals the request. *)
Lemma match_archetype_from_spec archs comps fuel a :
  0 ≤ a → a + Z.of_nat fuel = Z.of_nat (length archs) →
  Forall (λ arch, arch_number_of_components arch
                  = Z.of_nat (length (components arch))) archs →
  (∃ i arch, match_archetype_from archs comps fuel a = Some (Some i) ∧
     a ≤ i ∧ zlookup archs i = Some arch ∧ components arch = comps ∧
     ∀ j arch', a ≤ j < i → zlookup archs j = Some arch' →
                components arch' ≠ comps)
  ∨ (match_archetype_from archs comps fuel a = Some None ∧
     ∀ j arch', a ≤ j → zlookup archs j = Some arch' →
                components arch' ≠ comps).
Proof.
  intros Ha Hlen Hn. revert a Ha Hlen.
  induction fuel as [|fuel IH]; intros a Ha Hlen; simpl.
  { right. split; [done|]. intros j arch' ? Hj%zlookup_lt. lia. }
  destruct (zlookup_is_Some archs a) as [arch Harch]; [lia|].
  rewrite Harch. simpl.
  pose proof (zlookup_Forall _ _ _ _ Hn Harch) as Hna. simpl in Hna.
  assert (components arch = comps ∨ components arch ≠ comps) as [Heq|Hne]
    by (destruct (decide (components arch = comps)); auto).
  - left. exists a, arch. rewrite decide_True by (subst; lia).
    assert (components_equal (components arch) comps = true) as ->
      by (apply components_equal_spec; by subst).
    split_and!; [done|lia|done..|]. intros; lia.
  - assert ((if decide (arch_number_of_components arch
                        = Z.of_nat (length comps)) then
               if components_equal (components arch) comps
               then Some (Some a)
               else match_archetype_from archs comps fuel (a + 1)
             else match_archetype_from archs comps fuel (a + 1))
            = match_archetype_from archs comps fuel (a + 1)) as ->.
    { case_decide as Hl; [|done].
      destruct (components_equal _ _) eqn:Hce; [|done].
      apply components_equal_spec in Hce; [done|lia]. }
    assert (∀ j arch', a ≤ j < a + 1 → zlookup archs j = Some arch' →
                       components arch' ≠ comps) as Hhere.
    { intros j arch' ? Hj. assert (j = a) as -> by lia. by simplify_eq. }
    destruct (IH (a + 1)) as [(i & arch' & -> & ? & ? & ? & Hbefore)|[-> Hno]];
      [lia|lia|..].
    + left. exists i, arch'. split_and!; [done|lia|done..|].
      intros j arch'' ? ?. destruct (decide (j < a + 1)); [eapply Hhere|
        eapply Hbefore]; eauto; lia.
    + right. split; [done|]. intros j arch'' ? ?.
      destruct (decide (j < a + 1)); [eapply Hhere|eapply Hno]; eauto; lia.
Qed.

(** ** Chunk and archetype construction *)

Lemma tabulate_columns cd size :
  component_ok cd →
  tabulate (number_of_fields cd)
    (λ j, fs ← zlookup (field_sizes cd) j;
          Some (malloc (fs * size) : array byte))
  = Some ((λ fs, malloc (fs * size)) <$> field_sizes cd).
Proof.
  intros (Hn & _ & _). unfold tabulate. apply mapM_Some.
  apply Forall2_fmap_r, Forall2_same_length_lookup_2.
  { rewrite length_seqZ. lia. }
  intros i j fs [-> ?]%lookup_seqZ Hfs.
  rewrite Z.add_0_l, zlookup_nat, Hfs. done.
Qed.

Lemma columns_ok_fresh all size cfa cfa' k cd :
  zlookup all k = Some cd → 0 ≤ size →
  Forall (λ s, 0 ≤ s < 256) (field_sizes cd) →
  zstore cfa k (Some ((λ fs, malloc (fs * size)) <$> field_sizes cd))
  = Some cfa' →
  columns_ok all size cfa' k.
Proof.
  intros Hcd Hsize Hfs Hst. eexists cd, _. split_and!; [done| |].
  - by eapply zlookup_zstore_eq.
  - apply Forall2_fmap_r, Forall_Forall2_diag.
    eapply Forall_impl; [done|]. intros s [? ?]. simpl.
    apply length_malloc. nia.
Qed.

Lemma columns_ok_zstore_ne all size cfa cfa' k k' x :
  zstore cfa k x = Some cfa' → k' ≠ k →
  columns_ok all size cfa k' → columns_ok all size cfa' k'.
Proof.
  intros Hst Hne (cd & cols & ? & ? & ?). exists cd, cols.
  split_and!; [done| |done]. by rewrite (zlookup_zstore_ne _ _ _ _ _ Hst).
Qed.

Lemma init_columns_spec all size comps cfa :
  Forall component_ok all → 0 ≤ size →
  Forall (λ k, 0 ≤ k < Z.of_nat (length cfa)) comps →
  Forall (λ k, 0 ≤ k < Z.of_nat (length all)) comps →
  ∃ cfa', init_columns all size comps cfa = Some cfa' ∧
    length cfa' = length cfa ∧
    ∀ k, columns_ok all size cfa k ∨ k ∈ comps → columns_ok all size cfa' k.
Proof.
  intros Hall Hsize. revert cfa.
  induction comps as [|k comps IH]; intros cfa Hcfa Hreg; simpl.
  { exists cfa. split_and!; [done..|]. intros k [?|?%elem_of_nil]; done. }
  apply Forall_cons in Hcfa as [Hk Hcfa]. apply Forall_cons in Hreg as [Hk' Hreg].
  destruct (zlookup_is_Some all k) as [cd Hcd]; [done|].
  rewrite Hcd. simpl.
  pose proof (zlookup_Forall _ _ _ _ Hall Hcd) as Hcdok.
  rewrite tabulate_columns by done. simpl.
  rewrite zstore_is_Some by done. simpl.
  destruct (IH (<[Z.to_nat k := Some ((λ fs, malloc (fs * size))
                                        <$> field_sizes cd)]> cfa))
    as (cfa' & Heq & Hlen & Hok); [by rewrite length_insert|done|].
  exists cfa'. split_and!; [exact Heq|by rewrite Hlen, length_insert|].
  intros k' Hk'0. apply Hok.
  destruct (decide (k' = k)) as [->|Hne].
  - left. eapply columns_ok_fresh; [done..|apply Hcdok|].
    by apply zstore_is_Some.
  - destruct Hk'0 as [?|[?|?]%elem_of_cons]; [|done|by right].
    left. eapply columns_ok_zstore_ne; [|done..]. by apply zstore_is_Some.
Qed.

Lemma archetype_data_chunk_init_spec all comps size :
  Forall component_ok all → 0 ≤ size →
  Forall (λ k, 0 ≤ k < Z.of_nat (length all)) comps →
  ∃ ch, archetype_data_chunk_init all (Z.of_nat (length all)) comps size
        = Some ch ∧
    chunk_ok all size comps ch ∧ dense_arrays_length ch = 0 ∧
    id_dense_array ch = malloc size.
Proof.
  intros Hall Hsize Hreg. unfold archetype_data_chunk_init.
  destruct (init_columns_spec all size comps
              (replicate (Z.to_nat (Z.of_nat (length all))) None))
    as (cfa & -> & Hlen & Hok); [done..| |done|].
  { by rewrite length_replicate, Nat2Z.id. }
  simpl. eexists. split; [done|].
  unfold chunk_ok. simpl. split_and!; try done; try lia.
  - by apply length_malloc.
  - apply Forall_forall. intros k Hk. apply Hok. by right.
Qed.

Lemma archetype_init_spec id all comps size :
  Forall component_ok all → 0 ≤ size →
  Forall (λ k, 0 ≤ k < Z.of_nat (length all)) comps →
  ∃ ch, archetype_data_chunk_init all (Z.of_nat (length all)) comps size
        = Some ch ∧
    archetype_init id (Z.of_nat (length all)) all comps size 1
    = Some (mkArchetype comps [ch] 1 size (Z.of_nat (length comps)) id) ∧
    chunk_ok all size comps ch ∧ dense_arrays_length ch = 0 ∧
    id_dense_array ch = malloc size.
Proof.
  intros Hall Hsize Hreg.
  destruct (archetype_data_chunk_init_spec all comps size)
    as (ch & Hch & ? & ? & ?); [done..|].
  exists ch. split_and!; [done| |done..].
  unfold archetype_init, tabulate. simpl. by rewrite Hch.
Qed.

(** ** Appending to an archetype *)

Lemma chunk_push_astore ch e size :
  chunk_shape_ok size ch → dense_arrays_length ch < size →
  astore (id_dense_array ch) (dense_arrays_length ch) e
  = Some (id_dense_array (chunk_push ch e)).
Proof. intros [? ?] ?. apply astore_is_Some. lia. Qed.

Lemma archetype_scan_spec arch e fuel i :
  0 ≤ i → i + Z.of_nat fuel = Z.of_nat (length (chunks arch)) →
  Z.of_nat (length (chunks arch)) < 2 ^ 32 →
  chunk_size arch < 2 ^ 32 →
  Forall (chunk_shape_ok (chunk_size arch)) (chunks arch) →
  (∃ j ch, zlookup (chunks arch) j = Some ch ∧ i ≤ j ∧
     dense_arrays_length ch < chunk_size arch ∧
     (∀ j' ch', i ≤ j' < j → zlookup (chunks arch) j' = Some ch' →
                chunk_full arch ch') ∧
     archetype_scan arch e fuel i
     = Some (Some (set_chunks arch
                     (<[Z.to_nat j := chunk_push ch e]> (chunks arch))
                     (number_of_chunks arch),
                   dense_arrays_length ch, j)))
  ∨ (archetype_scan arch e fuel i = Some None ∧
     ∀ j' ch', i ≤ j' → zlookup (chunks arch) j' = Some ch' →
               chunk_full arch ch').
Proof.
  intros Hi Hlen Hn Hsz Hshape. revert i Hi Hlen.
  induction fuel as [|fuel IH]; intros i Hi Hlen; simpl.
  { right. split; [done|]. intros j ch' ? Hj%zlookup_lt. lia. }
  destruct (zlookup_is_Some (chunks arch) i) as [ch Hch]; [lia|].
  rewrite Hch. simpl.
  pose proof (zlookup_Forall _ _ _ _ Hshape Hch) as Hcs.
  case_decide as Hroom.
  - left. exists i, ch. split_and!; [done|lia|done|intros; lia|].
    rewrite (chunk_push_astore _ _ _ Hcs Hroom). simpl.
    rewrite zstore_is_Some by lia. simpl.
    destruct Hcs as [? ?].
    rewrite !wrap32_small by lia. done.
  - assert (∀ j ch', i ≤ j < i + 1 → zlookup (chunks arch) j = Some ch' →
                     chunk_full arch ch') as Hhere.
    { intros j ch' ? Hj. assert (j = i) as -> by lia. by simplify_eq. }
    destruct (IH (i + 1)) as [(j & ch' & ? & ? & ? & Hbefore & ->)|[-> Hno]];
      [lia|lia|..].
    + left. exists j, ch'. split_and!; [done|lia|done| |done].
      intros j' ch'' ? ?. destruct (decide (j' < i + 1));
        [eapply Hhere|eapply Hbefore]; eauto; lia.
    + right. split; [done|]. intros j' ch'' ? ?.
      destruct (decide (j' < i + 1)); [eapply Hhere|eapply Hno]; eauto; lia.
Qed.

Lemma archetype_add_entity_fit arch e nall all i ch :
  number_of_chunks arch = Z.of_nat (length (chunks arch)) →
  number_of_chunks arch < 2 ^ 32 → chunk_size arch < 2 ^ 32 →
  Forall (chunk_shape_ok (chunk_size arch)) (chunks arch) →
  zlookup (chunks arch) i = Some ch →
  dense_arrays_length ch < chunk_size arch →
  (∀ j ch', 0 ≤ j < i → zlookup (chunks arch) j = Some ch' →
            chunk_full arch ch') →
  archetype_add_entity arch e nall all
  = Some (set_chunks arch (<[Z.to_nat i := chunk_push ch e]> (chunks arch))
            (number_of_chunks arch),
          dense_arrays_length ch, i).
Proof.
  intros Hn Hnb Hsz Hshape Hch Hroom Hbefore. unfold archetype_add_entity.
  destruct (archetype_scan_spec arch e (Z.to_nat (number_of_chunks arch)) 0)
    as [(j & ch' & Hch' & ? & Hroom' & Hbefore' & ->)|[_ Hno]];
    [lia|lia|lia|done..| |].
  - simpl. pose proof (zlookup_lt _ _ _ Hch). pose proof (zlookup_lt _ _ _ Hch').
    destruct (Z.lt_trichotomy i j) as [?|[->|?]].
    + exfalso. apply (Hbefore' i ch); [lia|done..].
    + by simplify_eq.
    + exfalso. apply (Hbefore j ch'); [lia|done..].
  - exfalso. apply (Hno i ch); [|done..]. by apply zlookup_lt in Hch as [? _].
Qed.

Lemma archetype_add_entity_grow arch e all :
  number_of_chunks arch = Z.of_nat (length (chunks arch)) →
  number_of_chunks arch + 1 < 2 ^ 32 → 0 < chunk_size arch < 2 ^ 32 →
  Forall (chunk_shape_ok (chunk_size arch)) (chunks arch) →
  Forall component_ok all →
  Forall (λ k, 0 ≤ k < Z.of_nat (length all)) (components arch) →
  (∀ j ch', zlookup (chunks arch) j = Some ch' → chunk_full arch ch') →
  ∃ ch0,
    archetype_data_chunk_init all (Z.of_nat (length all)) (components arch)
      (chunk_size arch) = Some ch0 ∧
    chunk_ok all (chunk_size arch) (components arch) ch0 ∧
    dense_arrays_length ch0 = 0 ∧
    archetype_add_entity arch e (Z.of_nat (length all)) all
    = Some (set_chunks arch (chunks arch ++ [chunk_push ch0 e])
              (number_of_chunks arch + 1),
            0, number_of_chunks arch).
Proof.
  intros Hn Hnb Hsz Hshape Hall Hreg Hfull. unfold archetype_add_entity.
  destruct (archetype_scan_spec arch e (Z.to_nat (number_of_chunks arch)) 0)
    as [(j & ch' & Hch' & ? & Hroom' & _)|[-> _]]; [lia|lia|lia|lia|done| |].
  { exfalso. by apply (Hfull j ch'). }
  destruct (archetype_data_chunk_init_spec all (components arch)
              (chunk_size arch)) as (ch0 & Hch0 & Hok & Hlen0 & Hids0);
    [done|lia|done|].
  exists ch0. split_and!; [done..|]. simpl. rewrite Hch0. simpl.
  assert (0 ≤ number_of_chunks arch) by lia.
  rewrite !wrap32_small by lia.
  destruct Hok as (Hidlen & _).
  rewrite astore_is_Some by lia. simpl.
  replace (number_of_chunks arch + 1 - 1) with (number_of_chunks arch) by lia.
  assert (resize (Z.to_nat (number_of_chunks arch + 1)) ch0 (chunks arch)
          = chunks arch ++ [ch0]) as ->.
  { rewrite resize_spec, take_ge by lia.
    replace (Z.to_nat (number_of_chunks arch + 1) - length (chunks arch))%nat
      with 1%nat by lia. done. }
  rewrite zstore_is_Some by (rewrite length_app; simpl; lia). simpl.
  do 3 f_equal.
  rewrite Hn, Nat2Z.id.
  rewrite insert_app_r_alt, Nat.sub_diag by lia. simpl.
  unfold chunk_push. by rewrite Hlen0.
Qed.

(** C7. [archetype_add_entity] is first-fit: the row goes to the first
    chunk whose length is below [chunk_size], at position [length], and the
    length is incremented; when every chunk is full a fresh chunk is
    appended and the row goes to its position 0.  The chosen chunk and row
    are returned. *)
Theorem archetype_add_entity_first_fit arch e all :
  number_of_chunks arch = Z.of_nat (length (chunks arch)) →
  number_of_chunks arch + 1 < 2 ^ 32 → 0 < chunk_size arch < 2 ^ 32 →
  Forall (chunk_shape_ok (chunk_size arch)) (chunks arch) →
  Forall component_ok all →
  Forall (λ k, 0 ≤ k < Z.of_nat (length all)) (components arch) →
  (∀ i ch,
     zlookup (chunks arch) i = Some ch →
     dense_arrays_length ch < chunk_size arch →
     (∀ j ch', 0 ≤ j < i → zlookup (chunks arch) j = Some ch' →
               chunk_full arch ch') →
     archetype_add_entity arch e (Z.of_nat (length all)) all
     = Some (set_chunks arch
               (<[Z.to_nat i := chunk_push ch e]> (chunks arch))
               (number_of_chunks arch),
             dense_arrays_length ch, i)) ∧
  ((∀ j ch', zlookup (chunks arch) j = Some ch' → chunk_full arch ch') →
   ∃ ch0,
     archetype_data_chunk_init all (Z.of_nat (length all)) (components arch)
       (chunk_size arch) = Some ch0 ∧
     dense_arrays_length ch0 = 0 ∧
     archetype_add_entity arch e (Z.of_nat (length all)) all
     = Some (set_chunks arch (chunks arch ++ [chunk_push ch0 e])
               (number_of_chunks arch + 1),
             0, number_of_chunks arch)).
Proof.
  intros Hn Hnb Hsz Hshape Hall Hreg. split.
  - intros i ch Hch Hroom Hbefore.
    apply archetype_add_entity_fit; [done|lia|lia|done..].
  - intros Hfull.
    destruct (archetype_add_entity_grow arch e all)
      as (ch0 & ? & _ & ? & ?); [done..|].
    by exists ch0.
Qed.

(** ** The sparse index *)

Lemma sparse_get_Some w id a c r :
  sparse_get w id = Some (a, c, r) ↔
  sparse_array_chunk_size w ≠ 0 ∧
  ∃ sc, zlookup (sparse_array_chunks w) (id / sparse_array_chunk_size w)
        = Some sc ∧
    aload (sparse_archetypes sc) (id mod sparse_array_chunk_size w) = Some a ∧
    aload (chunk_indexes sc) (id mod sparse_array_chunk_size w) = Some c ∧
    aload (dense_id_array_indexes sc) (id mod sparse_array_chunk_size w)
    = Some r.
Proof.
  unfold sparse_get. split.
  - intros H. case_guard; simplify_option_eq. eauto 10.
  - intros (? & sc & Hsc & Ha & Hc & Hr).
    rewrite option_guard_True by done. rewrite Hsc. simpl.
    rewrite Ha. simpl. rewrite Hc. simpl. rewrite Hr. done.
Qed.

Lemma sparse_get_range w id t :
  0 < sparse_array_chunk_size w → 0 ≤ id → sparse_get w id = Some t →
  id < Z.of_nat (length (sparse_array_chunks w)) * sparse_array_chunk_size w.
Proof.
  intros Hsz Hid. destruct t as [[a c] r].
  rewrite sparse_get_Some. intros (_ & sc & Hsc%zlookup_lt & _).
  pose proof (Z.mul_div_le id _ Hsz).
  pose proof (Z.mod_pos_bound id _ Hsz).
  pose proof (Z.div_mod id (sparse_array_chunk_size w)). nia.
Qed.

(** Two ids sharing a sub-array and a slot are equal. *)
Lemma sparse_slot_inj size id id' :
  0 < size → id / size = id' / size → id mod size = id' mod size → id = id'.
Proof.
  intros Hsz Hd Hm.
  rewrite (Z.div_mod id size), (Z.div_mod id' size) by lia. by rewrite Hd, Hm.
Qed.

Lemma sparse_set_spec w id a c r :
  0 < sparse_array_chunk_size w →
  sparse_array_number_of_chunks w
  = Z.of_nat (length (sparse_array_chunks w)) →
  Forall (sparse_chunk_ok (sparse_array_chunk_size w))
    (sparse_array_chunks w) →
  0 ≤ id →
  id < (sparse_array_number_of_chunks w + 1) * sparse_array_chunk_size w →
  id + 1 < 2 ^ 32 →
  ∃ scs n,
    sparse_set w id a c r = Some (set_sparse w scs n) ∧
    n = Z.of_nat (length scs) ∧
    Forall (sparse_chunk_ok (sparse_array_chunk_size w)) scs ∧
    id / sparse_array_chunk_size w < n ∧
    (id / sparse_array_chunk_size w < sparse_array_number_of_chunks w →
     n = sparse_array_number_of_chunks w) ∧
    (sparse_array_number_of_chunks w ≤ id / sparse_array_chunk_size w →
     n = sparse_array_number_of_chunks w + 1) ∧
    sparse_get (set_sparse w scs n) id = Some (a, c, r) ∧
    ∀ id' t, id' ≠ id → sparse_get w id' = Some t →
             sparse_get (set_sparse w scs n) id' = Some t.
Proof.
  intros Hsz Hn Hok Hid Hcover Hnb.
  set (size := sparse_array_chunk_size w) in *.
  set (ci := id / size). set (li := id mod size).
  assert (0 ≤ ci ≤ sparse_array_number_of_chunks w) as Hci.
  { split; [by apply Z.div_pos|].
    apply Z.lt_succ_r, Z.div_lt_upper_bound; lia. }
  assert (ci ≤ id) as Hcid.
  { unfold ci. apply Z.div_le_upper_bound; [done|]. nia. }
  assert (0 ≤ li < size) as Hli by (by apply Z.mod_pos_bound).
  (* the vector after the optional growth *)
  set (scs1 := if decide (sparse_array_number_of_chunks w ≤ ci) then
                 sparse_array_chunks w ++ [sparse_array_chunk_init size]
               else sparse_array_chunks w).
  assert (Forall (sparse_chunk_ok size) scs1) as Hok1.
  { unfold scs1. case_decide; [|done]. apply Forall_app. split; [done|].
    constructor; [|done]. unfold sparse_chunk_ok, sparse_array_chunk_init.
    simpl. by rewrite !length_malloc by lia. }
  assert (ci < Z.of_nat (length scs1)) as Hci1.
  { unfold scs1. case_decide; [rewrite length_app; simpl|]; lia. }
  assert (∀ j, j < Z.of_nat (length (sparse_array_chunks w)) →
               zlookup scs1 j = zlookup (sparse_array_chunks w) j) as Hold.
  { intros j Hj. unfold scs1. case_decide; [|done]. unfold zlookup.
    case_decide; [|done]. apply lookup_app_l. lia. }
  destruct (zlookup_is_Some scs1 ci) as [sc Hsc]; [lia|].
  destruct (zlookup_Forall _ _ _ _ Hok1 Hsc) as (Hl1 & Hl2 & Hl3).
  set (sc' := mkSparseArrayChunk
                (<[Z.to_nat li := Some a]> (sparse_archetypes sc))
                (<[Z.to_nat li := Some c]> (chunk_indexes sc))
                (<[Z.to_nat li := Some r]> (dense_id_array_indexes sc))).
  exists (<[Z.to_nat ci := sc']> scs1), (Z.of_nat (length scs1)).
  assert (zstore scs1 ci sc' = Some (<[Z.to_nat ci := sc']> scs1)) as Hst
    by (apply zstore_is_Some; lia).
  assert (sparse_get (set_sparse w (<[Z.to_nat ci := sc']> scs1)
                        (Z.of_nat (length scs1))) id = Some (a, c, r)) as Hget.
  { apply sparse_get_Some. simpl. fold size ci li. split; [lia|].
    exists sc'. rewrite (zlookup_zstore_eq _ _ _ _ Hst).
    split_and!; [done|..]; simpl; eapply aload_astore_eq, astore_is_Some; lia. }
  split_and!.
  - unfold sparse_set. fold size ci li.
    rewrite option_guard_True by lia.
    assert ((if decide (sparse_array_number_of_chunks w ≤ ci) then
               set_sparse w
                 (resize (Z.to_nat (wrap32 (sparse_array_number_of_chunks w
                                            + 1)))
                    (sparse_array_chunk_init size) (sparse_array_chunks w))
                 (wrap32 (sparse_array_number_of_chunks w + 1))
             else w) = set_sparse w scs1 (Z.of_nat (length scs1))) as ->.
    { unfold scs1. case_decide.
      - rewrite wrap32_small by lia. f_equal.
        + rewrite resize_spec, take_ge by lia. f_equal.
          replace (Z.to_nat (sparse_array_number_of_chunks w + 1)
                   - length (sparse_array_chunks w))%nat with 1%nat by lia.
          done.
        + rewrite length_app. simpl. lia.
      - rewrite <- Hn. by destruct w. }
    simpl. rewrite Hsc. simpl.
    rewrite !astore_is_Some by lia. simpl.
    fold sc'. rewrite Hst. simpl. done.
  - by rewrite length_insert.
  - apply Forall_insert; [done|]. unfold sparse_chunk_ok, sc'. simpl.
    by rewrite !length_insert.
  - done.
  - intros ?. unfold scs1. rewrite decide_False by lia. lia.
  - intros ?. unfold scs1. rewrite decide_True by lia.
    rewrite length_app. simpl. lia.
  - done.
  - intros id' [[a' c'] r'] Hne. rewrite !sparse_get_Some. simpl.
    fold size. intros (_ & sc0 & Hsc0 & Ha' & Hc' & Hr'). split; [lia|].
    pose proof (zlookup_lt _ _ _ Hsc0) as [_ Hlt].
    rewrite <- Hold in Hsc0 by done.
    rewrite (zlookup_zstore _ _ _ _ _ Hst). case_decide as Hci'.
    + assert (id' mod size ≠ li) as Hli'.
      { intros ?. apply Hne. by apply (sparse_slot_inj size). }
      rewrite Hci' in Hsc0. simplify_eq. exists sc'. split; [done|]. simpl.
      by rewrite !aload_insert_ne by lia.
    + eauto.
Qed.

(** ** Rows *)

Lemma chunk_row_Some ch r e :
  chunk_row ch r = Some e ↔
  0 ≤ r < dense_arrays_length ch ∧ aload (id_dense_array ch) r = Some e.
Proof.
  unfold chunk_row. split.
  - intros H. case_guard; simplify_option_eq. done.
  - intros [? ?]. by rewrite option_guard_True.
Qed.

Lemma row_at_Some archs a c r e :
  row_at archs a c r = Some e ↔
  ∃ arch ch, zlookup archs a = Some arch ∧
    zlookup (chunks arch) c = Some ch ∧
    0 ≤ r < dense_arrays_length ch ∧ aload (id_dense_array ch) r = Some e.
Proof.
  unfold row_at, chunks_row. split.
  - intros H. simplify_option_eq.
    match goal with H : chunk_row _ _ = Some _ |- _ =>
      apply chunk_row_Some in H as [? ?] end. eauto 10.
  - intros (arch & ch & -> & Hch & ? & ?). simpl. rewrite Hch. simpl.
    by apply chunk_row_Some.
Qed.

Lemma chunk_row_push ch e size r :
  chunk_shape_ok size ch → dense_arrays_length ch < size →
  chunk_row (chunk_push ch e) r
  = if decide (r = dense_arrays_length ch) then Some e else chunk_row ch r.
Proof.
  intros [Hlen Hb] Hroom. unfold chunk_row, chunk_push. simpl.
  case_decide as Hr.
  - subst r. rewrite option_guard_True by lia.
    rewrite <- (Z2Nat.id (dense_arrays_length ch)) at 2 by lia.
    apply aload_insert_eq. lia.
  - destruct (decide (0 ≤ r < dense_arrays_length ch)).
    + rewrite !option_guard_True by lia. apply aload_insert_ne. lia.
    + by rewrite !option_guard_False by lia.
Qed.

Lemma chunk_row_pop ch cfa r :
  chunk_row (mkArchetypeDataChunk (id_dense_array ch) cfa
               (dense_arrays_length ch - 1)) r
  = if decide (r = dense_arrays_length ch - 1) then None else chunk_row ch r.
Proof.
  unfold chunk_row. simpl. case_decide.
  - by rewrite option_guard_False by lia.
  - destruct (decide (0 ≤ r < dense_arrays_length ch)).
    + by rewrite !option_guard_True by lia.
    + by rewrite !option_guard_False by lia.
Qed.

Lemma chunk_row_swap_pop ch cfa r0 e r :
  0 ≤ r0 < dense_arrays_length ch - 1 →
  dense_arrays_length ch ≤ Z.of_nat (length (id_dense_array ch)) →
  chunk_row (mkArchetypeDataChunk
               (<[Z.to_nat r0 := Some e]> (id_dense_array ch)) cfa
               (dense_arrays_length ch - 1)) r
  = if decide (r = r0) then Some e
    else if decide (r = dense_arrays_length ch - 1) then None
    else chunk_row ch r.
Proof.
  intros Hr0 Hlen. unfold chunk_row. simpl. case_decide as Hr.
  - subst r. rewrite option_guard_True by lia.
    rewrite <- (Z2Nat.id r0) at 2 by lia. apply aload_insert_eq. lia.
  - case_decide.
    + by rewrite option_guard_False by lia.
    + destruct (decide (0 ≤ r < dense_arrays_length ch)).
      * rewrite !option_guard_True by lia. apply aload_insert_ne. lia.
      * by rewrite !option_guard_False by lia.
Qed.

Lemma chunks_row_insert chs c ch' c' r :
  0 ≤ c < Z.of_nat (length chs) →
  chunks_row (<[Z.to_nat c := ch']> chs) c' r
  = if decide (c' = c) then chunk_row ch' r else chunks_row chs c' r.
Proof.
  intros Hc. unfold chunks_row.
  rewrite (zlookup_zstore chs c ch') by (by apply zstore_is_Some).
  by case_decide.
Qed.

Lemma chunks_row_app_empty chs ch0 c r :
  dense_arrays_length ch0 = 0 →
  chunks_row (chs ++ [ch0]) c r = chunks_row chs c r.
Proof.
  intros Hlen. unfold chunks_row, zlookup. case_decide; [|done].
  destruct (decide (Z.to_nat c < length chs)%nat).
  - by rewrite lookup_app_l.
  - rewrite lookup_app_r, (lookup_ge_None_2 chs) by lia. simpl.
    destruct (Z.to_nat c - length chs)%nat; simpl; [|done].
    unfold chunk_row. by rewrite option_guard_False by lia.
Qed.

Lemma row_at_insert archs a arch' a' c r :
  0 ≤ a < Z.of_nat (length archs) →
  row_at (<[Z.to_nat a := arch']> archs) a' c r
  = if decide (a' = a) then chunks_row (chunks arch') c r
    else row_at archs a' c r.
Proof.
  intros Ha. unfold row_at.
  rewrite (zlookup_zstore archs a arch') by (by apply zstore_is_Some).
  by case_decide.
Qed.

Lemma row_at_app_empty archs arch0 a c r :
  (∀ c r, chunks_row (chunks arch0) c r = None) →
  row_at (archs ++ [arch0]) a c r = row_at archs a c r.
Proof.
  intros Hempty. unfold row_at, zlookup. case_decide; [|done].
  destruct (decide (Z.to_nat a < length archs)%nat).
  - by rewrite lookup_app_l.
  - rewrite lookup_app_r, (lookup_ge_None_2 archs) by lia. simpl.
    destruct (Z.to_nat a - length archs)%nat; simpl; done.
Qed.

(** ** The invariant holds initially and is kept by registration *)

Lemma WF_world_create d s n : create_legal d s n → WF (world_create d s n) [].
Proof.
  intros (Hd & Hd' & Hs & Hn). split; simpl; try done.
  - rewrite length_replicate. lia.
  - apply Forall_replicate. unfold sparse_chunk_ok, sparse_array_chunk_init.
    simpl. by rewrite !length_malloc by lia.
  - exists 0. split; [|nia]. exists (seqZ 0 s). simpl.
    rewrite length_seqZ. split_and!; try done; try lia.
    + intros i Hi. unfold zlookup. case_decide; [|lia].
      apply lookup_seqZ. lia.
    + apply NoDup_seqZ.
  - intros e []%elem_of_nil.
  - intros e a c r. unfold entity_at, row_at, zlookup. simpl.
    case_decide; by rewrite ?lookup_nil.
Qed.

Lemma columns_ok_app all cd size cfa k :
  columns_ok all size cfa k → columns_ok (all ++ [cd]) size cfa k.
Proof.
  intros (cd' & cols & Hcd & ? & ?). exists cd', cols.
  split_and!; [|done..]. apply zlookup_Some in Hcd as [? Hcd].
  apply zlookup_Some. split; [done|]. by apply lookup_app_l_Some.
Qed.

Lemma archetype_ok_app all cd size arch :
  archetype_ok all size arch → archetype_ok (all ++ [cd]) size arch.
Proof.
  intros (? & ? & ? & ? & ? & Hchunks). split_and!; [done..|].
  eapply Forall_impl; [done|]. intros ch (? & ? & ? & Hcols).
  unfold chunk_ok. split_and!; try assumption; try lia.
  eapply Forall_impl; [done|]. intros k. apply columns_ok_app.
Qed.

Lemma WF_world_add_component_type w live fs :
  WF w live → fields_legal fs → number_of_components w < 255 →
  WF (world_add_component_type w fs).1 live.
Proof.
  intros [Hsz [Hn _] Hcomps Hnarch Harchs Hreg Hnsp Hsp Hstack Hlive Hrows]
    [Hlen Hfs] Hroom.
  assert (take (Z.to_nat (number_of_components w)) (all_components_data w)
          = all_components_data w) as Htake by (apply take_ge; lia).
  assert (0 ≤ number_of_components w) by lia.
  split; simpl; rewrite ?Htake; try done.
  - rewrite wrap8_small by lia. rewrite length_app. simpl. lia.
  - apply Forall_app. split; [done|]. constructor; [|done].
    unfold component_ok, component_data_init. simpl. done.
  - eapply Forall_impl; [exact Harchs|]. intros arch. apply archetype_ok_app.
  - rewrite wrap8_small by lia.
    eapply Forall_impl; [exact Hreg|]. intros arch Hreg'.
    eapply Forall_impl; [exact Hreg'|]. simpl. intros; lia.
Qed.

(** ** Adding an entity *)

Lemma chunk_ok_shape all size comps ch :
  chunk_ok all size comps ch → chunk_shape_ok size ch.
Proof. intros (? & ? & _). by split. Qed.

Lemma chunk_ok_push all size comps ch e :
  chunk_ok all size comps ch → dense_arrays_length ch < size →
  chunk_ok all size comps (chunk_push ch e).
Proof.
  intros (Hlen & Hb & Hrows & Hcols) Hroom. unfold chunk_ok, chunk_push.
  simpl. split_and!; [by rewrite length_insert|lia|lia| |done].
  intros r Hr. destruct (decide (r = dense_arrays_length ch)) as [->|].
  - rewrite <- (Z2Nat.id (dense_arrays_length ch)) at 2 by lia.
    rewrite aload_insert_eq by lia. done.
  - rewrite aload_insert_ne by lia. apply Hrows. lia.
Qed.

(** A partial injection from [0 .. n) into a duplicate-free list needs [n]
    distinct elements of it. *)
Lemma injection_count (f : Z → option Z) (n : nat) (l : list Z) :
  (∀ i, 0 ≤ i < Z.of_nat n → ∃ e, f i = Some e ∧ e ∈ l) →
  (∀ i j e, 0 ≤ i < Z.of_nat n → 0 ≤ j < Z.of_nat n →
            f i = Some e → f j = Some e → i = j) →
  (n ≤ length l)%nat.
Proof.
  revert l. induction n as [|n IH]; intros l Hin Hinj; [lia|].
  destruct (Hin (Z.of_nat n)) as (e & He & [l' Hl']%elem_of_Permutation);
    [lia|].
  rewrite Hl'. simpl. apply le_n_S, IH.
  - intros i Hi. destruct (Hin i) as (e' & He' & Hel); [lia|].
    exists e'. split; [done|]. rewrite Hl' in Hel.
    apply elem_of_cons in Hel as [->|?]; [|done].
    assert (i = Z.of_nat n) by (eapply Hinj; eauto; lia). lia.
  - intros i j e' ? ?. apply Hinj; lia.
Qed.

Lemma find_or_create_spec w sorted :
  number_of_archetypes w = Z.of_nat (length (archetypes w)) →
  number_of_archetypes w ≤ 255 →
  Forall (archetype_ok (all_components_data w) (dense_array_chunk_size w))
    (archetypes w) →
  number_of_components w = Z.of_nat (length (all_components_data w)) →
  Forall component_ok (all_components_data w) →
  Forall (λ k, 0 ≤ k < number_of_components w) sorted →
  NoDup sorted →
  0 < dense_array_chunk_size w →
  ∃ w2 a arch,
    (world_match_archetype w sorted ≫= λ m,
       match m with
       | Some a => Some (w, a)
       | None => world_add_archetype w sorted
       end) = Some (w2, a) ∧
    zlookup (archetypes w2) a = Some arch ∧ components arch = sorted ∧
    archetype_ok (all_components_data w) (dense_array_chunk_size w) arch ∧
    (∀ j arch', 0 ≤ j < a → zlookup (archetypes w2) j = Some arch' →
                components arch' ≠ sorted) ∧
    (w2 = w
     ∨ w2 = set_archetypes w (archetypes w ++ [arch])
              (wrap8 (number_of_archetypes w + 1)) ∧
       a = number_of_archetypes w ∧
       (∀ arch', arch' ∈ archetypes w → components arch' ≠ sorted) ∧
       ∃ ch0, chunks arch = [ch0] ∧ dense_arrays_length ch0 = 0).
Proof.
  intros Hn Hnb Harchs Hnc Hcomps Hreg Hnd Hsize.
  unfold world_match_archetype.
  destruct (match_archetype_from_spec (archetypes w) sorted
              (Z.to_nat (number_of_archetypes w)) 0)
    as [(a & arch & -> & ? & Harch & ? & Hbefore)|[-> Hno]]; [lia|lia| |..].
  { eapply Forall_impl; [exact Harchs|]. by intros arch (? & _). }
  - simpl. exists w, a, arch. split_and!; [done..| | |by left].
    + by eapply zlookup_Forall.
    + intros j arch' ? ?. apply (Hbefore j arch'); [lia|done].
  - simpl. unfold world_add_archetype.
    rewrite Hnc in Hreg |- *.
    destruct (archetype_init_spec (number_of_archetypes w)
                (all_components_data w) sorted (dense_array_chunk_size w))
      as (ch0 & _ & -> & Hch0 & Hlen0 & _); [done|lia|done|].
    simpl.
    set (arch := mkArchetype sorted [ch0] 1 (dense_array_chunk_size w)
                   (Z.of_nat (length sorted)) (number_of_archetypes w)).
    assert (take (Z.to_nat (number_of_archetypes w)) (archetypes w)
            = archetypes w) as -> by (apply take_ge; lia).
    exists (set_archetypes w (archetypes w ++ [arch])
              (wrap8 (number_of_archetypes w + 1))),
      (number_of_archetypes w), arch.
    split_and!; [done| |done| | |].
    + simpl. rewrite Hn, zlookup_nat.
      by rewrite lookup_app_r, Nat.sub_diag by lia.
    + unfold archetype_ok, arch. simpl.
      split_and!; try done; try lia. by constructor.
    + simpl. intros j arch' Hj Harch'. apply (Hno j arch'); [lia|].
      apply zlookup_Some in Harch' as [? Harch']. apply zlookup_Some.
      split; [done|]. rewrite lookup_app_l in Harch' by lia. done.
    + right. split_and!; [done..| |by exists ch0].
      intros arch' [j Hj]%elem_of_zlookup.
      apply (Hno j arch'); [|done]. by apply zlookup_lt in Hj as [? _].
Qed.

Lemma archetype_add_entity_spec all size arch e :
  archetype_ok all size arch → Forall component_ok all →
  Forall (λ k, 0 ≤ k < Z.of_nat (length all)) (components arch) →
  0 < size < 2 ^ 32 →
  ((∀ j ch', zlookup (chunks arch) j = Some ch' → chunk_full arch ch') →
   number_of_chunks arch + 1 < 2 ^ 32) →
  ∃ chs0 c ch,
    archetype_add_entity arch e (Z.of_nat (length all)) all
    = Some (set_chunks arch (<[Z.to_nat c := chunk_push ch e]> chs0)
              (Z.of_nat (length chs0)),
            dense_arrays_length ch, c) ∧
    zlookup chs0 c = Some ch ∧ dense_arrays_length ch < size ∧
    0 ≤ c < 2 ^ 32 ∧
    Z.of_nat (length chs0) < 2 ^ 32 ∧
    Forall (chunk_ok all size (components arch)) chs0 ∧
    ∀ c' r', chunks_row chs0 c' r' = chunks_row (chunks arch) c' r'.
Proof.
  intros (Hnc & Hnd & Hcs & Hn & Hnb & Hchunks) Hall Hreg Hsize Hcount.
  subst size.
  assert (Forall (chunk_shape_ok (chunk_size arch)) (chunks arch)) as Hshape.
  { eapply Forall_impl; [exact Hchunks|]. intros ch. apply chunk_ok_shape. }
  destruct (archetype_scan_spec arch e (Z.to_nat (number_of_chunks arch)) 0)
    as [(j & ch & Hch & ? & Hroom & Hbefore & _)|[_ Hfull]];
    [lia|lia|lia|lia|done| |].
  - exists (chunks arch), j, ch.
    rewrite (archetype_add_entity_fit arch e _ all j ch);
      [|done|lia|lia|done..|].
    + pose proof (zlookup_lt _ _ _ Hch).
      rewrite <- Hn. split_and!; try done; try lia.
    + intros j' ch' ? ?. apply (Hbefore j' ch'); [lia|done].
  - assert (∀ j ch', zlookup (chunks arch) j = Some ch' →
                      chunk_full arch ch') as Hfull'.
    { intros j ch' Hj. apply (Hfull j ch'); [|done].
      by apply zlookup_lt in Hj as [? _]. }
    clear Hfull. rename Hfull' into Hfull.
    destruct (archetype_add_entity_grow arch e all)
      as (ch0 & _ & Hok0 & Hlen0 & ->);
      [done|exact (Hcount Hfull)|lia|done..|].
    exists (chunks arch ++ [ch0]), (number_of_chunks arch), ch0.
    specialize (Hcount Hfull).
    rewrite length_app. simpl. rewrite Hn, Nat2Z.id.
    split_and!.
    + rewrite insert_app_r_alt, Nat.sub_diag by lia. simpl.
      rewrite Hlen0. by rewrite Nat2Z.inj_add.
    + rewrite zlookup_nat. by rewrite lookup_app_r, Nat.sub_diag by lia.
    + lia.
    + lia.
    + lia.
    + lia.
    + apply Forall_app. split; [done|]. by constructor.
    + intros c' r'. by apply chunks_row_app_empty.
Qed.

(** When every chunk of an archetype is full, each chunk holds a live
    entity of its own in row 0. *)
Lemma full_chunks_count w live all size a arch :
  (∀ e a c r, entity_at w e a c r →
              e ∈ live ∧ sparse_get w e = Some (a, c, r)) →
  zlookup (archetypes w) a = Some arch →
  archetype_ok all size arch → 0 < size →
  (∀ j ch', zlookup (chunks arch) j = Some ch' → chunk_full arch ch') →
  number_of_chunks arch ≤ Z.of_nat (length live).
Proof.
  intros Hrows Harch (Hnc & Hnd & Hcs & Hn & Hnb & Hchunks) Hsize Hfull.
  rewrite Hn. apply inj_le.
  apply (injection_count (λ c, chunks_row (chunks arch) c 0)).
  - intros c Hc.
    destruct (zlookup_is_Some (chunks arch) c) as [ch Hch]; [lia|].
    pose proof (Hfull _ _ Hch) as Hf. unfold chunk_full in Hf.
    destruct (zlookup_Forall _ _ _ _ Hchunks Hch) as (_ & ? & Hsome & _).
    destruct (Hsome 0) as [e He]; [lia|].
    exists e. unfold chunks_row. rewrite Hch. simpl.
    assert (chunk_row ch 0 = Some e) as Hrow
      by (apply chunk_row_Some; split; [lia|done]).
    split; [done|]. apply (Hrows e a c 0).
    unfold entity_at, row_at. rewrite Harch. simpl.
    unfold chunks_row. by rewrite Hch.
  - intros i j e _ _ Hi Hj.
    assert (∀ c, chunks_row (chunks arch) c 0 = Some e →
                 sparse_get w e = Some (a, c, 0)) as Hsp.
    { intros c Hc. apply Hrows. unfold entity_at, row_at.
      by rewrite Harch. }
    apply Hsp in Hi, Hj. congruence.
Qed.

Lemma sparse_get_frame w w' id :
  sparse_array_chunks w' = sparse_array_chunks w →
  sparse_array_chunk_size w' = sparse_array_chunk_size w →
  sparse_get w' id = sparse_get w id.
Proof. intros H1 H2. unfold sparse_get. by rewrite H1, H2. Qed.

Lemma stack_ok_frame w w' live hw :
  id_stack_ids w' = id_stack_ids w →
  id_stack_capacity w' = id_stack_capacity w →
  id_stack_top_index w' = id_stack_top_index w →
  stack_ok w live hw → stack_ok w' live hw.
Proof. intros H1 H2 H3. unfold stack_ok. by rewrite H1, H2, H3. Qed.

Lemma world_add_entity_spec w live cs :
  WF w live → signature_legal w cs → id_room w →
  ∃ w' e a c r ids cap,
    world_add_entity w cs = Some (w', e) ∧
    id_stack_pop w
    = Some (set_id_stack w ids cap (id_stack_top_index w + 1), e) ∧
    id_stack_ids w' = ids ∧ id_stack_capacity w' = cap ∧
    id_stack_top_index w' = id_stack_top_index w + 1 ∧
    e ∉ live ∧ 0 ≤ e ∧
    sparse_get w' e = Some (a, c, r) ∧ entity_at w' e a c r ∧
    first_match (archetypes w') (qsort compare_comp_ids cs) a ∧
    0 ≤ a < 256 ∧
    sparse_array_number_of_chunks w'
    = Z.of_nat (length (sparse_array_chunks w')) ∧
    e / sparse_array_chunk_size w < sparse_array_number_of_chunks w' ∧
    (e / sparse_array_chunk_size w < sparse_array_number_of_chunks w →
     sparse_array_number_of_chunks w' = sparse_array_number_of_chunks w) ∧
    (sparse_array_number_of_chunks w ≤ e / sparse_array_chunk_size w →
     sparse_array_number_of_chunks w'
     = sparse_array_number_of_chunks w + 1) ∧
    sparse_array_chunk_size w' = sparse_array_chunk_size w ∧
    dense_array_chunk_size w' = dense_array_chunk_size w ∧
    all_components_data w' = all_components_data w ∧
    number_of_components w' = number_of_components w ∧
    (∀ e' t, e' ≠ e → sparse_get w e' = Some t → sparse_get w' e' = Some t) ∧
    (archetype_room w cs →
     WF w' (e :: live) ∧
     number_of_archetypes w ≤ number_of_archetypes w'
     ≤ number_of_archetypes w + 1 ∧
     ∀ j arch0, zlookup (archetypes w) j = Some arch0 →
       ∃ arch1, zlookup (archetypes w') j = Some arch1 ∧
                components arch1 = components arch0).
Proof.
  intros [Hsz [Hnc Hncb] Hcomps [Hna Hnab] Harchs Hregd Hnsp Hsp
            (hw & Hstack & Hhw) Hlive Hrows] [Hnd Hreg] Hroom.
  destruct Hsz as (Hssz & Hdsz & Hdsz').
  (* pop an id *)
  destruct (id_stack_pop_spec w live hw Hstack Hroom)
    as (e & ids & cap & Hpop & Hfresh & He0 & Hstk & _).
  set (w1 := set_id_stack w ids cap (id_stack_top_index w + 1)) in *.
  assert (∃ hw', stack_ok w1 (e :: live) hw' ∧ e < hw' ∧ hw ≤ hw' ∧
                 hw' ≤ (sparse_array_number_of_chunks w + 1)
                       * sparse_array_chunk_size w ∧
                 (hw' = hw ∨ hw' = e + 1))
    as (hw' & Hstack' & Hehw & Hhwle & Hhw' & Hhwcase).
  { destruct Hstk as [[? ?]|(-> & ? & ?)].
    - exists hw. split_and!; [done|lia|lia|nia|by left].
    - exists (hw + 1). split_and!; [done|lia|lia|nia|by right]. }
  assert (Z.of_nat (length live) + 1 < 2 ^ 32 ∧ e + 1 < 2 ^ 32)
    as [Hlivelen He32].
  { destruct Hstack' as (vals & _ & _ & ? & Htop & ? & _). simpl in *.
    destruct Hstack as (_ & _ & _ & _ & Htop0 & _). lia. }
  (* find or create the archetype *)
  set (sorted := qsort compare_comp_ids cs).
  destruct (find_or_create_spec w1 sorted)
    as (w2 & a & arch & Hfind & Harch & Hcs & Harchok & Hbefore & Hw2);
    [done|done|done|done|done|by apply qsort_Forall| |done|].
  { unfold sorted. by rewrite qsort_perm. }
  simpl in Harchok.
  assert (Forall (archetype_ok (all_components_data w)
                    (dense_array_chunk_size w)) (archetypes w2)
          ∧ all_components_data w2 = all_components_data w
          ∧ number_of_components w2 = number_of_components w
          ∧ (∀ a c r, row_at (archetypes w2) a c r
                      = row_at (archetypes w) a c r)
          ∧ (∀ j arch0, zlookup (archetypes w) j = Some arch0 →
                        zlookup (archetypes w2) j = Some arch0)
          ∧ Z.of_nat (length (archetypes w))
            ≤ Z.of_nat (length (archetypes w2))
            ≤ Z.of_nat (length (archetypes w)) + 1
          ∧ sparse_array_chunks w2 = sparse_array_chunks w
          ∧ sparse_array_chunk_size w2 = sparse_array_chunk_size w
          ∧ sparse_array_number_of_chunks w2
            = sparse_array_number_of_chunks w
          ∧ dense_array_chunk_size w2 = dense_array_chunk_size w
          ∧ id_stack_ids w2 = ids ∧ id_stack_capacity w2 = cap
          ∧ id_stack_top_index w2 = id_stack_top_index w + 1
          ∧ (archetype_room w cs →
             number_of_archetypes w2 = Z.of_nat (length (archetypes w2))
             ∧ number_of_archetypes w2 ≤ 255)
          ∧ ((∀ j ch', zlookup (chunks arch) j = Some ch' →
                       chunk_full arch ch') →
             zlookup (archetypes w) a = Some arch))
    as (Harchs2 & Hall2 & Hnc2 & Hrow2 & Hold2 & Hlen2 & Hscs2 & Hssz2 & Hnsp2
        & Hdsz2 & Hids2 & Hcap2 & Htop2 & Hroom2 & Hfull2).
  { unfold w1 in *.
    destruct Hw2 as [->|(-> & -> & Hnew & ch0 & Hch0 & Hlen0)]; simpl in *.
    - split_and!; try done; lia.
    - split_and!; try done.
      + apply Forall_app. split; [done|]. by constructor.
      + intros a' c' r'. apply row_at_app_empty. intros c'' r''.
        rewrite Hch0. unfold chunks_row, zlookup. case_decide; [|done].
        destruct (Z.to_nat c''); simpl; [|done].
        unfold chunk_row. by rewrite option_guard_False by lia.
      + intros j arch0 Hj. apply zlookup_Some in Hj as [? Hj].
        apply zlookup_Some. split; [done|]. by apply lookup_app_l_Some.
      + rewrite length_app. simpl. lia.
      + rewrite length_app. simpl. lia.
      + intros [Hlt|(arch' & Hin & Heq)%Exists_exists].
        * rewrite wrap8_small by lia. rewrite length_app. simpl. lia.
        * exfalso. by apply (Hnew arch').
      + intros Hfull. exfalso. apply (Hfull 0 ch0).
        * rewrite Hch0. done.
        * unfold chunk_full. destruct Harchok as (_ & _ & -> & _). lia. }
  assert (Forall (λ k, 0 ≤ k < Z.of_nat (length (all_components_data w)))
            (components arch)) as Hregarch.
  { rewrite Hcs, <- Hnc. by apply qsort_Forall. }
  (* append the row *)
  destruct (archetype_add_entity_spec (all_components_data w)
              (dense_array_chunk_size w) arch e)
    as (chs0 & c & ch & Hadd & Hch & Hchroom & Hc32 & Hchs0len & Hchs0ok
        & Hchs0row); [done|done|done|lia| |].
  { intros Hfull. pose proof (Hfull2 Hfull) as Harch0.
    pose proof (full_chunks_count w live _ _ a arch Hrows Harch0 Harchok
                  Hdsz Hfull). lia. }
  set (arch' := set_chunks arch (<[Z.to_nat c := chunk_push ch e]> chs0)
                  (Z.of_nat (length chs0))) in *.
  pose proof (zlookup_lt _ _ _ Harch) as Ha.
  pose proof (zlookup_lt _ _ _ Hch) as Hc.
  pose proof (chunk_ok_shape _ _ _ _ (zlookup_Forall _ _ _ _ Hchs0ok Hch))
    as Hshape.
  set (archs3 := <[Z.to_nat a := arch']> (archetypes w2)).
  set (w3 := set_archetypes w2 archs3 (number_of_archetypes w2)).
  (* write the sparse index *)
  destruct (sparse_set_spec w3 e a c (dense_arrays_length ch))
    as (scs & n & Hset & Hn & Hscsok & Hcover & Hnsame & Hngrow & Hget
        & Hother); simpl; rewrite ?Hssz2, ?Hnsp2, ?Hscs2; try done; try lia.
  simpl in Hset, Hn, Hscsok, Hcover, Hnsame, Hngrow, Hget, Hother.
  rewrite ?Hssz2, ?Hnsp2, ?Hscs2 in *.
  set (w' := set_sparse w3 scs n) in *.
  assert (world_add_entity w cs = Some (w', e)) as Hrun.
  { unfold world_add_entity. rewrite Hpop. simpl. fold w1 sorted.
    destruct (world_match_archetype w1 sorted) as [m|]; [|done].
    simpl in Hfind |- *. rewrite Hfind. simpl. rewrite Harch. simpl.
    rewrite Hnc2, Hall2, Hnc, Hadd. simpl.
    rewrite zstore_is_Some by done. simpl. fold archs3 w3.
    rewrite Hset. done. }
  (* rows of the new world *)
  assert (∀ a' c' r', row_at (archetypes w') a' c' r'
            = if decide (a' = a ∧ c' = c ∧ r' = dense_arrays_length ch)
              then Some e else row_at (archetypes w) a' c' r') as Hrow'.
  { intros a' c' r'. simpl. unfold archs3.
    rewrite row_at_insert by done. rewrite <- Hrow2.
    destruct (decide (a' = a)) as [->|]; [|by rewrite decide_False by tauto].
    unfold arch'. simpl. rewrite chunks_row_insert by done.
    unfold row_at. rewrite Harch. simpl. rewrite <- Hchs0row.
    destruct (decide (c' = c)) as [->|]; [|by rewrite decide_False by tauto].
    rewrite (chunk_row_push _ _ _ _ Hshape Hchroom).
    unfold chunks_row. rewrite Hch. simpl.
    destruct (decide (r' = dense_arrays_length ch));
      [by rewrite decide_True|by rewrite decide_False by tauto]. }
  assert (row_at (archetypes w) a c (dense_arrays_length ch) = None) as Hfree.
  { rewrite <- Hrow2. unfold row_at. rewrite Harch. simpl.
    rewrite <- Hchs0row. unfold chunks_row. rewrite Hch. simpl.
    unfold chunk_row. by rewrite option_guard_False by lia. }
  exists w', e, a, c, (dense_arrays_length ch), ids, cap.
  split_and!; try done.
  - unfold entity_at. rewrite Hrow'. by rewrite decide_True.
  - unfold first_match. simpl. unfold archs3. split.
    + exists arch'. split; [|done].
      by eapply zlookup_zstore_eq, zstore_is_Some.
    + intros j arch0 Hj Harch0. apply (Hbefore j arch0); [done|].
      rewrite <- Harch0. symmetry.
      eapply zlookup_zstore_ne; [by apply zstore_is_Some|lia].
  - lia.
  - lia.
  - intros e' t Hne Ht. apply Hother; [done|].
    rewrite <- Ht. by apply sparse_get_frame.
  - intros Hroom'. destruct (Hroom2 Hroom') as [Hna2 Hnab2].
    split_and!; [|simpl; lia|simpl; lia|].
    + split; simpl; try done.
      * unfold sizes_ok. simpl. by rewrite Hssz2, Hdsz2.
      * by rewrite Hnc2, Hall2.
      * by rewrite Hall2.
      * unfold archs3. by rewrite length_insert.
      * rewrite Hall2, Hdsz2. unfold archs3. apply Forall_insert; [done|].
        destruct Harchok as (? & ? & ? & ? & ? & ?).
        unfold archetype_ok, arch'. simpl. split_and!; try done.
        { by rewrite length_insert. }
        apply Forall_insert; [done|]. apply chunk_ok_push; [|done].
        by eapply zlookup_Forall.
      * rewrite Hnc2. unfold archs3. apply Forall_insert.
        -- unfold w1 in *.
           destruct Hw2 as [->|(-> & _)]; simpl; [done|].
           apply Forall_app. split; [done|]. constructor; [|done].
           rewrite Hcs. by apply qsort_Forall.
        -- unfold arch'. simpl. rewrite Hcs. by apply qsort_Forall.
      * by rewrite Hssz2.
      * exists hw'. split.
        -- eapply stack_ok_frame; [..|exact Hstack']; simpl; done.
        -- rewrite Hssz2. destruct Hhwcase as [Hcase|Hcase]; rewrite Hcase.
           ++ assert (sparse_array_number_of_chunks w ≤ n); [|nia].
              destruct (decide (e `div` sparse_array_chunk_size w
                                < sparse_array_number_of_chunks w)).
              ** rewrite Hnsame; lia.
              ** rewrite Hngrow; lia.
           ++ pose proof (Z.mul_succ_div_gt e (sparse_array_chunk_size w)).
              nia.
      * intros e' [->|Hin]%elem_of_cons.
        -- exists a, c, (dense_arrays_length ch). split; [done|].
           unfold entity_at. rewrite Hrow'. by rewrite decide_True.
        -- destruct (Hlive e' Hin) as (a' & c' & r' & Hsp' & Hat').
           exists a', c', r'. split.
           ++ apply Hother; [by intros ->|].
              rewrite <- Hsp'. by apply sparse_get_frame.
           ++ unfold entity_at in *. rewrite Hrow'.
              rewrite decide_False; [done|].
              intros (-> & -> & ->). congruence.
      * intros e' a' c' r'. unfold entity_at. rewrite Hrow'.
        case_decide as Hpos.
        -- destruct Hpos as (-> & -> & ->). intros [= <-].
           split; [by left|done].
        -- intros Hat. destruct (Hrows _ _ _ _ Hat) as [Hin Hsp'].
           split; [by right|]. apply Hother; [by intros ->|].
           rewrite <- Hsp'. by apply sparse_get_frame.
    + intros j arch0 Hj. simpl. unfold archs3.
      destruct (decide (j = a)) as [->|Hja].
      * exists arch'. split.
        -- by eapply zlookup_zstore_eq, zstore_is_Some.
        -- apply Hold2 in Hj. by simplify_eq.
      * exists arch0. split; [|done].
        rewrite <- (Hold2 _ _ Hj).
        eapply zlookup_zstore_ne; [by apply zstore_is_Some|done].
Qed.

(** ** Copying a row *)

Lemma row_offset_bounds size r fs :
  0 ≤ r < size → 0 ≤ fs < 256 → size * 255 < 2 ^ 32 →
  0 ≤ r * fs ∧ r * fs + fs ≤ fs * size ∧ r * fs < 2 ^ 32.
Proof. intros. nia. Qed.

Lemma memcpy_copy_row col dst src fs size :
  Z.of_nat (length col) = fs * size → 0 ≤ fs < 256 →
  0 ≤ dst < size → 0 ≤ src < size → dst ≠ src → size * 255 < 2 ^ 32 →
  memcpy col (wrap32 (dst * fs)) (wrap32 (src * fs)) fs
  = Some (copy_row col dst src fs).
Proof.
  intros Hlen Hfs Hdst Hsrc Hne Hsize.
  pose proof (row_offset_bounds size dst fs Hdst Hfs Hsize).
  pose proof (row_offset_bounds size src fs Hsrc Hfs Hsize).
  rewrite !wrap32_small by lia. unfold memcpy.
  rewrite decide_True; [done|]. split_and!; try lia.
  destruct (decide (fs = 0)); [by left|right]. nia.
Qed.

Lemma length_copy_row col dst src fs size :
  Z.of_nat (length col) = fs * size → 0 ≤ fs < 256 →
  0 ≤ dst < size → 0 ≤ src < size → size * 255 < 2 ^ 32 →
  length (copy_row col dst src fs) = length col.
Proof.
  intros Hlen Hfs Hdst Hsrc Hsize.
  pose proof (row_offset_bounds size dst fs Hdst Hfs Hsize).
  pose proof (row_offset_bounds size src fs Hsrc Hfs Hsize).
  unfold copy_row, row_bytes.
  rewrite !length_app, !length_take, !length_drop. lia.
Qed.

Lemma copy_fields_spec fsizes size dst src fuel f cols :
  0 ≤ f → f + Z.of_nat fuel = Z.of_nat (length fsizes) →
  Forall2 (λ fs (col : array byte), Z.of_nat (length col) = fs * size)
    fsizes cols →
  Forall (λ s, 0 ≤ s < 256) fsizes →
  0 ≤ dst < size → 0 ≤ src < size → dst ≠ src → size * 255 < 2 ^ 32 →
  ∃ cols',
    copy_fields fsizes dst src fuel f cols = Some cols' ∧
    Forall2 (λ fs (col : array byte), Z.of_nat (length col) = fs * size)
      fsizes cols' ∧
    ∀ j fs col, zlookup fsizes j = Some fs → zlookup cols j = Some col →
      zlookup cols' j
      = Some (if decide (f ≤ j) then copy_row col dst src fs else col).
Proof.
  intros Hf Hfuel Hshape Hfs Hdst Hsrc Hne Hsize.
  revert f cols Hf Hfuel Hshape.
  induction fuel as [|fuel IH]; intros f cols Hf Hfuel Hshape; simpl.
  { exists cols. split_and!; [done..|]. intros j fs col Hj%zlookup_lt Hcol.
    by rewrite decide_False by lia. }
  pose proof (Forall2_length _ _ _ Hshape) as Hlen.
  destruct (zlookup_is_Some fsizes f) as [fs Hfsf]; [lia|].
  destruct (zlookup_is_Some cols f) as [col Hcol]; [lia|].
  rewrite Hfsf, Hcol. simpl.
  assert (Z.of_nat (length col) = fs * size) as Hcollen.
  { apply zlookup_Some in Hfsf as [_ Hfsf], Hcol as [_ Hcol].
    by apply (Forall2_lookup_lr _ _ _ _ _ _ Hshape Hfsf Hcol). }
  pose proof (zlookup_Forall _ _ _ _ Hfs Hfsf) as Hfsb. simpl in Hfsb.
  rewrite (memcpy_copy_row col dst src fs size) by done. simpl.
  rewrite zstore_is_Some by lia. simpl.
  destruct (IH (f + 1) (<[Z.to_nat f := copy_row col dst src fs]> cols))
    as (cols' & -> & Hshape' & Hcols'); [lia|lia| |].
  { apply zlookup_Some in Hfsf as [_ Hfsf].
    rewrite <- (list_insert_id fsizes (Z.to_nat f) fs) by done.
    apply Forall2_insert; [done|].
    by rewrite (length_copy_row _ _ _ _ size). }
  exists cols'. split_and!; [done..|]. intros j fs' col' Hj Hcolj.
  destruct (decide (j = f)) as [->|Hjf].
  - simplify_eq. rewrite decide_True by lia.
    rewrite (Hcols' f fs (copy_row col dst src fs)); [|done|].
    + by rewrite decide_False by lia.
    + by eapply zlookup_zstore_eq, zstore_is_Some; lia.
  - rewrite (Hcols' j fs' col'); [|done|].
    + destruct (decide (f ≤ j)).
      * by rewrite decide_True by lia.
      * by rewrite decide_False by lia.
    + rewrite <- Hcolj.
      eapply zlookup_zstore_ne; [apply zstore_is_Some; lia|done].
Qed.

Lemma copy_components_spec all size comps dst src fuel c cfa :
  0 ≤ c → c + Z.of_nat fuel = Z.of_nat (length comps) →
  NoDup comps → Forall component_ok all →
  Forall (columns_ok all size cfa) comps →
  0 ≤ dst < size → 0 ≤ src < size → dst ≠ src → size * 255 < 2 ^ 32 →
  ∃ cfa',
    copy_components all comps dst src fuel c cfa = Some cfa' ∧
    (∀ k, columns_ok all size cfa k → columns_ok all size cfa' k) ∧
    (∀ k, k ∉ drop (Z.to_nat c) comps → zlookup cfa' k = zlookup cfa k) ∧
    (∀ k cd cols, k ∈ drop (Z.to_nat c) comps →
       zlookup all k = Some cd → zlookup cfa k = Some (Some cols) →
       ∃ cols', zlookup cfa' k = Some (Some cols') ∧
         ∀ j fs col, zlookup (field_sizes cd) j = Some fs →
           zlookup cols j = Some col →
           zlookup cols' j = Some (copy_row col dst src fs)).
Proof.
  intros Hc Hfuel Hnd Hall Hcols Hdst Hsrc Hne Hsize.
  revert c cfa Hc Hfuel Hcols.
  induction fuel as [|fuel IH]; intros c cfa Hc Hfuel Hcols; simpl.
  { exists cfa. split_and!; [done..|].
    intros k cd cols Hk. rewrite drop_ge in Hk by lia.
    by apply elem_of_nil in Hk. }
  destruct (zlookup_is_Some comps c) as [k0 Hk0]; [lia|].
  rewrite Hk0. simpl.
  destruct (zlookup_Forall _ _ _ _ Hcols Hk0) as (cd0 & cols0 & Hcd0 & Hcols0
                                                   & Hshape0).
  rewrite Hcd0, Hcols0. simpl.
  destruct (zlookup_Forall _ _ _ _ Hall Hcd0) as (Hnf & _ & Hfsb).
  destruct (copy_fields_spec (field_sizes cd0) size dst src
              (Z.to_nat (number_of_fields cd0)) 0 cols0)
    as (cols0' & -> & Hshape0' & Hcopied); [lia|lia|done..|].
  simpl. pose proof (zlookup_lt _ _ _ Hcols0) as Hk0lt.
  rewrite zstore_is_Some by done. simpl.
  set (cfa1 := <[Z.to_nat k0 := Some cols0']> cfa).
  assert (zstore cfa k0 (Some cols0') = Some cfa1) as Hst
    by (by apply zstore_is_Some).
  assert (columns_ok all size cfa1 k0) as Hok0.
  { exists cd0, cols0'. split_and!; [done| |done].
    by eapply zlookup_zstore_eq. }
  assert (∀ k, columns_ok all size cfa k → columns_ok all size cfa1 k)
    as Hpres.
  { intros k Hk. destruct (decide (k = k0)) as [->|]; [done|].
    by eapply columns_ok_zstore_ne. }
  assert (drop (Z.to_nat c) comps = k0 :: drop (Z.to_nat (c + 1)) comps)
    as Hdrop.
  { apply zlookup_Some in Hk0 as [_ Hk0].
    rewrite (drop_S _ _ _ Hk0). do 2 f_equal. lia. }
  assert (k0 ∉ drop (Z.to_nat (c + 1)) comps) as Hk0notin.
  { rewrite <- (take_drop (Z.to_nat c) comps), Hdrop in Hnd.
    apply NoDup_app in Hnd as (_ & _ & Hnd). by apply NoDup_cons in Hnd as [? _]. }
  destruct (IH (c + 1) cfa1) as (cfa' & -> & Hpres' & Hout & Hin);
    [lia|lia| |].
  { eapply Forall_impl; [exact Hcols|]. exact Hpres. }
  exists cfa'. split_and!; [done|by auto| |].
  - intros k Hk. rewrite Hdrop in Hk. apply not_elem_of_cons in Hk as [? ?].
    rewrite Hout by done. by eapply zlookup_zstore_ne.
  - intros k cd cols Hk Hcd Hcolsk. rewrite Hdrop in Hk.
    destruct (decide (k = k0)) as [->|Hkk0].
    + simplify_eq. exists cols0'. split.
      * rewrite Hout by done. by eapply zlookup_zstore_eq.
      * intros j fs col Hfs Hcol.
        rewrite (Hcopied j fs col Hfs Hcol).
        apply zlookup_lt in Hfs. by rewrite decide_True by lia.
    + apply elem_of_cons in Hk as [?|Hk]; [done|].
      apply (Hin k cd cols Hk Hcd).
      rewrite <- Hcolsk. by eapply zlookup_zstore_ne.
Qed.

(** ** Removing an entity *)

Lemma NoDup_filter_ne (l : list Z) e :
  NoDup l → e ∈ l → l ≡ₚ e :: filter (λ x, x ≠ e) l.
Proof.
  intros Hnd He. apply NoDup_Permutation; [done| |].
  - constructor; [|by apply NoDup_filter].
    rewrite list_elem_of_filter. tauto.
  - intros x. rewrite elem_of_cons, list_elem_of_filter.
    destruct (decide (x = e)) as [->|]; naive_solver.
Qed.

(** Pushing a live id back keeps the stack invariant for the remaining
    live ids. *)
Lemma id_stack_push_spec w live hw e :
  stack_ok w live hw → e ∈ live →
  1 ≤ id_stack_top_index w ∧
  wrap32 (id_stack_top_index w - 1) = id_stack_top_index w - 1 ∧
  ∃ ids,
    astore (id_stack_ids w) (id_stack_top_index w - 1) e = Some ids ∧
    ∀ w', id_stack_ids w' = ids →
          id_stack_capacity w' = id_stack_capacity w →
          id_stack_top_index w' = id_stack_top_index w - 1 →
          stack_ok w' (filter (λ x, x ≠ e) live) hw.
Proof.
  intros (vals & Hids & Hcap & Hcapb & Htop & Hhw & Hlive & Hlow & Hseed & Hnd)
    He.
  assert (NoDup live) as Hndl by (by apply NoDup_app in Hnd as (? & _)).
  pose proof (NoDup_filter_ne live e Hndl He) as Hperm.
  pose proof (Permutation_length Hperm) as Hlen. simpl in Hlen.
  split; [lia|]. split; [apply wrap32_small; lia|].
  eexists. split.
  { apply astore_is_Some. rewrite Hids, length_fmap. lia. }
  intros w' Hids' Hcap' Htop'.
  exists (<[Z.to_nat (id_stack_top_index w - 1) := e]> vals).
  rewrite Hids', Hcap', Htop', length_insert.
  assert (Z.to_nat (id_stack_top_index w - 1)
          = length (filter (λ x, x ≠ e) live)) as Hidx by lia.
  split_and!; try done; try lia.
  - by rewrite Hids, list_fmap_insert.
  - rewrite Hperm in Hlive. by apply Forall_cons in Hlive as [_ ?].
  - intros i v Hi. unfold zlookup. case_decide; [|done].
    destruct (decide (i = id_stack_top_index w - 1)) as [->|].
    + rewrite list_lookup_insert_eq by lia. intros [= <-].
      rewrite Forall_forall in Hlive. by apply Hlive.
    + rewrite list_lookup_insert_ne by lia. intros Hv.
      apply (Hlow i); [lia|]. unfold zlookup. by rewrite decide_True.
  - intros i Hi. rewrite <- (Hseed i Hi). unfold zlookup.
    case_decide; [|done]. apply list_lookup_insert_ne. lia.
  - rewrite Hidx.
    rewrite (drop_S _ e) by (rewrite <- Hidx; apply list_lookup_insert_eq; lia).
    rewrite <- Hidx, drop_insert_lt by lia.
    rewrite <- Permutation_middle.
    replace (S (Z.to_nat (id_stack_top_index w - 1))) with (length live)
      by lia.
    by rewrite app_comm_cons, <- Hperm.
Qed.

(** Rewriting the row of one sparse entry. *)
Lemma sparse_row_update w id a c r r' :
  sparse_get w id = Some (a, c, r) → 0 < sparse_array_chunk_size w →
  ∃ sc s3 scs,
    zlookup (sparse_array_chunks w) (id / sparse_array_chunk_size w)
    = Some sc ∧
    astore (dense_id_array_indexes sc) (id mod sparse_array_chunk_size w) r'
    = Some s3 ∧
    zstore (sparse_array_chunks w) (id / sparse_array_chunk_size w)
      (mkSparseArrayChunk (sparse_archetypes sc) (chunk_indexes sc) s3)
    = Some scs ∧
    length scs = length (sparse_array_chunks w) ∧
    (∀ size, Forall (sparse_chunk_ok size) (sparse_array_chunks w) →
             Forall (sparse_chunk_ok size) scs) ∧
    ∀ w', sparse_array_chunks w' = scs →
          sparse_array_chunk_size w' = sparse_array_chunk_size w →
          sparse_get w' id = Some (a, c, r') ∧
          ∀ id', id' ≠ id → sparse_get w' id' = sparse_get w id'.
Proof.
  intros Hget Hsz. apply sparse_get_Some in Hget
    as (_ & sc & Hsc & Ha & Hc & Hr).
  set (size := sparse_array_chunk_size w) in *.
  pose proof (aload_lt _ _ _ Hr) as Hli.
  pose proof (zlookup_lt _ _ _ Hsc) as Hci.
  set (s3 := <[Z.to_nat (id mod size) := Some r']>
               (dense_id_array_indexes sc)).
  set (sc' := mkSparseArrayChunk (sparse_archetypes sc) (chunk_indexes sc) s3).
  exists sc, s3, (<[Z.to_nat (id / size) := sc']> (sparse_array_chunks w)).
  assert (zstore (sparse_array_chunks w) (id / size) sc'
          = Some (<[Z.to_nat (id / size) := sc']> (sparse_array_chunks w)))
    as Hst by (by apply zstore_is_Some).
  split_and!; [done|by apply astore_is_Some|done|by rewrite length_insert| |].
  - intros size' Hok. apply Forall_insert; [done|].
    destruct (zlookup_Forall _ _ _ _ Hok Hsc) as (? & ? & ?).
    unfold sparse_chunk_ok, sc', s3. simpl. by rewrite length_insert.
  - intros w' Hscs Hsz'. split.
    + apply sparse_get_Some. rewrite Hscs, Hsz'. fold size. split; [lia|].
      exists sc'. rewrite (zlookup_zstore_eq _ _ _ _ Hst).
      split_and!; [done..|]. simpl. unfold s3.
      rewrite <- (Z2Nat.id (id mod size)) at 2 by lia.
      apply aload_insert_eq. lia.
    + intros id' Hne. unfold sparse_get. rewrite Hscs, Hsz'. fold size.
      destruct (decide (size ≠ 0)); [|by rewrite !option_guard_False].
      rewrite !option_guard_True by done.
      rewrite (zlookup_zstore _ _ _ _ _ Hst). case_decide as Hci'; [|done].
      rewrite Hci', Hsc. simpl.
      assert (id' mod size ≠ id mod size) as Hli'.
      { intros ?. apply Hne. by apply (sparse_slot_inj size). }
      unfold s3. by rewrite aload_insert_ne by lia.
Qed.

(** Replacing one chunk by a well-formed one keeps the structural part of
    the invariant. *)
Lemma WF_update w live w' live' a c arch ch' hw :
  WF w live →
  zlookup (archetypes w) a = Some arch →
  0 ≤ c < Z.of_nat (length (chunks arch)) →
  chunk_ok (all_components_data w) (dense_array_chunk_size w)
    (components arch) ch' →
  archetypes w'
  = <[Z.to_nat a := set_chunks arch (<[Z.to_nat c := ch']> (chunks arch))
                      (number_of_chunks arch)]> (archetypes w) →
  all_components_data w' = all_components_data w →
  number_of_components w' = number_of_components w →
  number_of_archetypes w' = number_of_archetypes w →
  sparse_array_chunk_size w' = sparse_array_chunk_size w →
  dense_array_chunk_size w' = dense_array_chunk_size w →
  sparse_array_number_of_chunks w' = sparse_array_number_of_chunks w →
  length (sparse_array_chunks w') = length (sparse_array_chunks w) →
  Forall (sparse_chunk_ok (sparse_array_chunk_size w))
    (sparse_array_chunks w') →
  stack_ok w' live' hw →
  hw ≤ sparse_array_number_of_chunks w * sparse_array_chunk_size w →
  (∀ e, e ∈ live' → sparse_dense_consistent w' e) →
  (∀ e a c r, entity_at w' e a c r →
              e ∈ live' ∧ sparse_get w' e = Some (a, c, r)) →
  WF w' live'.
Proof.
  intros [Hsz [Hnc Hncb] Hcomps [Hna Hnab] Harchs Hregd Hnsp Hsp _ _ _]
    Harch Hc Hch' Harchs' Hall' Hnc' Hna' Hssz' Hdsz' Hnsp' Hsplen Hspok
    Hstack Hhw Hlive Hrows.
  pose proof (zlookup_lt _ _ _ Harch) as Ha.
  split; try done.
  - unfold sizes_ok. by rewrite Hssz', Hdsz'.
  - by rewrite Hnc', Hall'.
  - by rewrite Hall'.
  - by rewrite Hna', Harchs', length_insert.
  - rewrite Hall', Hdsz', Harchs'. apply Forall_insert; [done|].
    destruct (zlookup_Forall _ _ _ _ Harchs Harch) as (? & ? & ? & ? & ? & ?).
    unfold archetype_ok. simpl. split_and!; try done.
    + by rewrite length_insert.
    + by apply Forall_insert.
  - rewrite Hnc', Harchs'. apply Forall_insert; [done|]. simpl.
    by eapply zlookup_Forall in Hregd.
  - by rewrite Hnsp', Hsplen.
  - by rewrite Hssz'.
  - exists hw. by rewrite Hnsp', Hssz'.
Qed.

Lemma row_at_update_chunk archs a arch c ch' a' c' r' :
  zlookup archs a = Some arch → 0 ≤ c < Z.of_nat (length (chunks arch)) →
  row_at (<[Z.to_nat a := set_chunks arch (<[Z.to_nat c := ch']> (chunks arch))
                            (number_of_chunks arch)]> archs) a' c' r'
  = if decide (a' = a ∧ c' = c) then chunk_row ch' r'
    else row_at archs a' c' r'.
Proof.
  intros Harch Hc. pose proof (zlookup_lt _ _ _ Harch).
  rewrite row_at_insert by done.
  destruct (decide (a' = a)) as [->|]; [|by rewrite decide_False by tauto].
  simpl. rewrite chunks_row_insert by done. unfold row_at. rewrite Harch.
  simpl. destruct (decide (c' = c));
    [by rewrite decide_True|by rewrite decide_False by tauto].
Qed.

Lemma world_remove_entity_spec w live e :
  WF w live → e ∈ live →
  ∃ w' a c r arch ch ch',
    world_remove_entity w e = Some w' ∧
    sparse_get w e = Some (a, c, r) ∧
    zlookup (archetypes w) a = Some arch ∧
    zlookup (chunks arch) c = Some ch ∧
    0 ≤ r < dense_arrays_length ch ∧
    1 ≤ id_stack_top_index w ∧
    astore (id_stack_ids w) (id_stack_top_index w - 1) e
    = Some (id_stack_ids w') ∧
    id_stack_capacity w' = id_stack_capacity w ∧
    id_stack_top_index w' = id_stack_top_index w - 1 ∧
    all_components_data w' = all_components_data w ∧
    number_of_components w' = number_of_components w ∧
    number_of_archetypes w' = number_of_archetypes w ∧
    sparse_array_chunk_size w' = sparse_array_chunk_size w ∧
    dense_array_chunk_size w' = dense_array_chunk_size w ∧
    sparse_array_number_of_chunks w' = sparse_array_number_of_chunks w ∧
    archetypes w'
    = <[Z.to_nat a := set_chunks arch (<[Z.to_nat c := ch']> (chunks arch))
                        (number_of_chunks arch)]> (archetypes w) ∧
    dense_arrays_length ch' = dense_arrays_length ch - 1 ∧
    (r = dense_arrays_length ch - 1 →
     id_dense_array ch' = id_dense_array ch ∧
     component_field_arrays ch' = component_field_arrays ch ∧
     sparse_array_chunks w' = sparse_array_chunks w) ∧
    (r ≠ dense_arrays_length ch - 1 →
     ∃ last_e,
       aload (id_dense_array ch) (dense_arrays_length ch - 1) = Some last_e ∧
       last_e ≠ e ∧ last_e ∈ live ∧
       id_dense_array ch' = <[Z.to_nat r := Some last_e]> (id_dense_array ch) ∧
       columns_swapped (all_components_data w) (components arch)
         (component_field_arrays ch) (component_field_arrays ch')
         r (dense_arrays_length ch - 1) ∧
       sparse_get w last_e = Some (a, c, dense_arrays_length ch - 1) ∧
       sparse_get w' last_e = Some (a, c, r) ∧
       ∀ e', e' ≠ last_e → sparse_get w' e' = sparse_get w e') ∧
    WF w' (filter (λ x, x ≠ e) live).
Proof.
  intros HWF He. pose proof HWF as HWF0.
  destruct HWF as [Hsz [Hnc Hncb] Hcomps [Hna Hnab] Harchs Hregd Hnsp Hsp
                     (hw & Hstack & Hhw) Hlive Hrows].
  destruct Hsz as (Hssz & Hdsz & Hdsz').
  destruct (Hlive e He) as (a & c & r & Hsp_e & Hat).
  pose proof Hat as Hat0.
  apply row_at_Some in Hat as (arch & ch & Harch & Hch & Hr & Hid).
  destruct (id_stack_push_spec w live hw e Hstack He)
    as (Htop1 & Hwrap & ids & Hids & Hstack').
  destruct (zlookup_Forall _ _ _ _ Harchs Harch)
    as (Hanc & Hand & Hacs & Han & Hanb & Hachunks).
  destruct (zlookup_Forall _ _ _ _ Hachunks Hch)
    as (Hidlen & Hlenb & Hsome & Hcols).
  pose proof (zlookup_lt _ _ _ Harch) as Ha.
  pose proof (zlookup_lt _ _ _ Hch) as Hc.
  set (len := dense_arrays_length ch) in *.
  assert (wrap32 (len - 1) = len - 1) as Hwlen by (apply wrap32_small; lia).
  assert (e / sparse_array_chunk_size w < sparse_array_number_of_chunks w)
    as Hrange.
  { apply sparse_get_Some in Hsp_e as (_ & sc & Hsc%zlookup_lt & _). lia. }
  (* the common prefix of the run *)
  assert (world_remove_entity w e =
    let w1 := set_id_stack w ids (id_stack_capacity w)
                (id_stack_top_index w - 1) in
    if decide (r = len - 1) then
      chs ← zstore (chunks arch) c
              (mkArchetypeDataChunk (id_dense_array ch)
                 (component_field_arrays ch) (len - 1));
      archs ← zstore (archetypes w) a
                (set_chunks arch chs (number_of_chunks arch));
      Some (set_archetypes w1 archs (number_of_archetypes w))
    else
      last_entity_id ← aload (id_dense_array ch) (len - 1);
      dense ← astore (id_dense_array ch) r last_entity_id;
      cfa ← copy_components (all_components_data w) (components arch)
              r (len - 1) (Z.to_nat (arch_number_of_components arch)) 0
              (component_field_arrays ch);
      sc ← zlookup (sparse_array_chunks w)
             (last_entity_id / sparse_array_chunk_size w);
      s3 ← astore (dense_id_array_indexes sc)
             (last_entity_id mod sparse_array_chunk_size w) r;
      scs ← zstore (sparse_array_chunks w)
              (last_entity_id / sparse_array_chunk_size w)
              (mkSparseArrayChunk (sparse_archetypes sc)
                 (chunk_indexes sc) s3);
      chs ← zstore (chunks arch) c
              (mkArchetypeDataChunk dense cfa (len - 1));
      archs ← zstore (archetypes w) a
                (set_chunks arch chs (number_of_chunks arch));
      Some (set_sparse
              (set_archetypes w1 archs (number_of_archetypes w))
              scs (sparse_array_number_of_chunks w))) as Hprefix.
  { unfold world_remove_entity. rewrite Hwrap, Hids. simpl.
    rewrite !option_guard_True by lia.
    rewrite (sparse_get_frame w (set_id_stack w ids _ _)) by done.
    rewrite Hsp_e. simpl. rewrite Harch. simpl. rewrite Hch. simpl.
    fold len. rewrite Hwlen. reflexivity. }
  simpl in Hprefix.
  set (w1 := set_id_stack w ids (id_stack_capacity w)
               (id_stack_top_index w - 1)) in *.
  destruct (decide (r = len - 1)) as [Hlast|Hnotlast].
  - (* the last live row *)
    set (ch' := mkArchetypeDataChunk (id_dense_array ch)
                  (component_field_arrays ch) (len - 1)).
    set (archs' := <[Z.to_nat a := set_chunks arch
                                     (<[Z.to_nat c := ch']> (chunks arch))
                                     (number_of_chunks arch)]> (archetypes w)).
    set (w' := set_archetypes w1 archs' (number_of_archetypes w)).
    assert (∀ a' c' r', row_at archs' a' c' r'
              = if decide (a' = a ∧ c' = c ∧ r' = r) then None
                else row_at (archetypes w) a' c' r') as Hrow'.
    { intros a' c' r'. unfold archs'.
      rewrite (row_at_update_chunk _ _ _ _ _ _ _ _ Harch Hc).
      destruct (decide (a' = a ∧ c' = c)) as [[-> ->]|];
        [|by rewrite decide_False by tauto].
      unfold ch'. fold len. rewrite (chunk_row_pop ch). fold len.
      unfold row_at. rewrite Harch. simpl. unfold chunks_row.
      rewrite Hch. simpl.
      destruct (decide (r' = len - 1));
        [by rewrite decide_True by (split_and!; congruence)
        |by rewrite decide_False by (intros (_ & _ & ->); done)]. }
    exists w', a, c, r, arch, ch, ch'.
    split_and!; try done; try (unfold len in *; lia).
    + rewrite Hprefix.
      rewrite zstore_is_Some by done. simpl.
      by rewrite zstore_is_Some by done.
    + apply (WF_update w live w' _ a c arch ch' hw); try done.
      * unfold chunk_ok, ch'. simpl. fold len.
        split_and!; try done; try lia. intros r' ?. apply Hsome. lia.
      * by apply Hstack'.
      * intros e' [He'ne He'in]%list_elem_of_filter.
        destruct (Hlive e' He'in) as (a' & c' & r' & Hsp' & Hat').
        exists a', c', r'. split; [done|].
        unfold entity_at in *. simpl. rewrite Hrow'.
        rewrite decide_False; [done|]. intros (-> & -> & ->). congruence.
      * intros e' a' c' r'. unfold entity_at. simpl. rewrite Hrow'.
        case_decide as Hpos; [done|]. intros Hat'.
        destruct (Hrows _ _ _ _ Hat') as [Hin Hsp'].
        split; [|done]. apply list_elem_of_filter. split; [|done].
        intros ->. apply Hpos. rewrite Hsp_e in Hsp'. by simplify_eq.
  - (* swap with the last live row *)
    destruct (Hsome (len - 1)) as [last_e Hlast_e]; [lia|].
    assert (row_at (archetypes w) a c (len - 1) = Some last_e) as Hat_last.
    { apply row_at_Some. exists arch, ch. split_and!; try done; lia. }
    destruct (Hrows _ _ _ _ Hat_last) as [Hlast_in Hsp_last].
    assert (last_e ≠ e) as Hlast_ne.
    { intros ->. rewrite Hsp_e in Hsp_last. simplify_eq. }
    destruct (copy_components_spec (all_components_data w)
                (dense_array_chunk_size w) (components arch) r (len - 1)
                (Z.to_nat (arch_number_of_components arch)) 0
                (component_field_arrays ch))
      as (cfa' & Hcopy & Hcok & Hcout & Hcin); try done; try lia.
    destruct (sparse_row_update w last_e a c (len - 1) r Hsp_last)
      as (sc & s3 & scs & Hsc & Hs3 & Hscs & Hscslen & Hscsok & Hscsget);
      [lia|].
    set (ch' := mkArchetypeDataChunk
                  (<[Z.to_nat r := Some last_e]> (id_dense_array ch)) cfa'
                  (len - 1)).
    set (archs' := <[Z.to_nat a := set_chunks arch
                                     (<[Z.to_nat c := ch']> (chunks arch))
                                     (number_of_chunks arch)]> (archetypes w)).
    set (w' := set_sparse (set_archetypes w1 archs' (number_of_archetypes w))
                 scs (sparse_array_number_of_chunks w)).
    destruct (Hscsget w') as [Hget_last Hget_other]; [done..|].
    assert (∀ a' c' r', row_at archs' a' c' r'
              = if decide (a' = a ∧ c' = c ∧ r' = r) then Some last_e
                else if decide (a' = a ∧ c' = c ∧ r' = len - 1) then None
                else row_at (archetypes w) a' c' r') as Hrow'.
    { intros a' c' r'. unfold archs'.
      rewrite (row_at_update_chunk _ _ _ _ _ _ _ _ Harch Hc).
      destruct (decide (a' = a ∧ c' = c)) as [[-> ->]|];
        [|by rewrite !decide_False by tauto].
      unfold ch'. fold len.
      rewrite (chunk_row_swap_pop ch) by (fold len; lia). fold len.
      unfold row_at. rewrite Harch. simpl. unfold chunks_row.
      rewrite Hch. simpl.
      repeat case_decide; try done; exfalso; naive_solver. }
    exists w', a, c, r, arch, ch, ch'.
    split_and!; try done; try (unfold len in *; lia).
    + rewrite Hprefix.
      rewrite Hlast_e. simpl. rewrite astore_is_Some by lia. simpl.
      rewrite Hcopy. simpl. rewrite Hsc. simpl. rewrite Hs3. simpl.
      rewrite Hscs. simpl.
      rewrite zstore_is_Some by done. simpl.
      by rewrite zstore_is_Some by done.
    + intros _. exists last_e. by split_and!.
    + apply (WF_update w live w' _ a c arch ch' hw); try done.
      * unfold chunk_ok, ch'. simpl. fold len.
        split_and!; try done; try lia.
        -- by rewrite length_insert.
        -- intros r' ?. destruct (decide (r' = r)) as [->|].
           ++ rewrite <- (Z2Nat.id r) at 2 by lia.
              rewrite aload_insert_eq by lia. done.
           ++ rewrite aload_insert_ne by lia. apply Hsome. lia.
        -- eapply Forall_impl; [exact Hcols|]. exact Hcok.
      * by apply Hscsok.
      * by apply Hstack'.
      * intros e' [He'ne He'in]%list_elem_of_filter.
        destruct (decide (e' = last_e)) as [->|He'l].
        -- exists a, c, r. split; [done|].
           unfold entity_at. simpl. rewrite Hrow'. by rewrite decide_True.
        -- destruct (Hlive e' He'in) as (a' & c' & r' & Hsp' & Hat').
           exists a', c', r'. split; [by rewrite Hget_other|].
           unfold entity_at in *. simpl. rewrite Hrow'.
           rewrite decide_False by (intros (-> & -> & ->); congruence).
           rewrite decide_False by (intros (-> & -> & ->); congruence).
           done.
      * intros e' a' c' r'. unfold entity_at. simpl. rewrite Hrow'.
        case_decide as Hpos.
        { destruct Hpos as (-> & -> & ->). intros [= <-]. split; [|done].
          apply list_elem_of_filter. done. }
        case_decide as Hpos'; [done|]. intros Hat'.
        destruct (Hrows _ _ _ _ Hat') as [Hin Hsp'].
        assert (e' ≠ e).
        { intros ->. apply Hpos. rewrite Hsp_e in Hsp'. by simplify_eq. }
        assert (e' ≠ last_e).
        { intros ->. apply Hpos'. rewrite Hsp_last in Hsp'. by simplify_eq. }
        split; [by apply list_elem_of_filter|]. by rewrite Hget_other.
Qed.

(** ** Field addresses *)

Lemma archetype_has_component_spec arch k fuel ac :
  0 ≤ ac → ac + Z.of_nat fuel = Z.of_nat (length (components arch)) →
  archetype_has_component arch k fuel ac
  = Some (bool_decide (k ∈ drop (Z.to_nat ac) (components arch))).
Proof.
  revert ac. induction fuel as [|fuel IH]; intros ac Hac Hlen; simpl.
  { rewrite drop_ge by lia. rewrite bool_decide_eq_false_2; [done|].
    apply not_elem_of_nil. }
  destruct (zlookup_is_Some (components arch) ac) as [x Hx]; [lia|].
  rewrite Hx. simpl. apply zlookup_Some in Hx as [_ Hx].
  rewrite (drop_S _ _ _ Hx). case_decide as Hxk.
  - subst x. rewrite bool_decide_eq_true_2; [done|]. left.
  - rewrite IH by lia. f_equal.
    replace (Z.to_nat (ac + 1)) with (S (Z.to_nat ac)) by lia.
    apply bool_decide_ext. rewrite elem_of_cons. naive_solver.
Qed.


(** ** The caller's writes keep the invariant *)

Lemma columns_ok_insert all size cfa k cols f col col' :
  zlookup cfa k = Some (Some cols) → zlookup cols f = Some col →
  length col' = length col →
  ∀ k', columns_ok all size cfa k' →
        columns_ok all size
          (<[Z.to_nat k := Some (<[Z.to_nat f := col']> cols)]> cfa) k'.
Proof.
  intros Hcols Hcol Hlen k' (cd & cols0 & Hcd & Hcols0 & Hshape).
  pose proof (zlookup_lt _ _ _ Hcols) as Hk.
  destruct (decide (k' = k)) as [->|Hne].
  - simplify_eq. exists cd, (<[Z.to_nat f := col']> cols).
    split_and!; [done| |].
    + by eapply zlookup_zstore_eq, zstore_is_Some.
    + apply zlookup_Some in Hcol as [_ Hcol].
      destruct (Forall2_lookup_r _ _ _ _ _ Hshape Hcol) as (fs & Hfs & Heq).
      rewrite <- (list_insert_id (field_sizes cd) (Z.to_nat f) fs) by done.
      apply Forall2_insert; [done|]. by rewrite Hlen.
  - exists cd, cols0. split_and!; [done| |done].
    rewrite <- Hcols0.
    eapply zlookup_zstore_ne; [by apply zstore_is_Some|done].
Qed.

Lemma store_bytes_WF w live p bs w' :
  WF w live → store_bytes w p bs = Some w' → WF w' live.
Proof.
  intros HWF Hst. pose proof HWF as HWF0.
  destruct HWF as [Hsz [Hnc Hncb] Hcomps [Hna Hnab] Harchs Hregd Hnsp Hsp
                     (hw & Hstack & Hhw) Hlive Hrows].
  unfold store_bytes in Hst.
  destruct (zlookup (archetypes w) (fp_archetype p)) as [arch|] eqn:Harch;
    [|done]. simpl in Hst.
  destruct (zlookup (chunks arch) (fp_chunk p)) as [ch|] eqn:Hch; [|done].
  simpl in Hst.
  destruct (zlookup (component_field_arrays ch) (fp_component p))
    as [[cols|]|] eqn:Hcols; [|done..]. simpl in Hst.
  destruct (zlookup cols (fp_field p)) as [col|] eqn:Hcol; [|done].
  simpl in Hst. case_guard as Hb; [|done]. simpl in Hst.
  pose proof (zlookup_lt _ _ _ Harch) as Ha.
  pose proof (zlookup_lt _ _ _ Hch) as Hc.
  pose proof (zlookup_lt _ _ _ Hcols) as Hk.
  pose proof (zlookup_lt _ _ _ Hcol) as Hf.
  do 4 (rewrite zstore_is_Some in Hst by done; simpl in Hst).
  injection Hst as <-.
  set (col' := take (Z.to_nat (fp_offset p)) col ++ (Some <$> bs)
               ++ drop (Z.to_nat (fp_offset p) + length bs)%nat col).
  assert (length col' = length col) as Hlen.
  { unfold col'. rewrite !length_app, length_take, length_fmap, length_drop.
    lia. }
  set (ch' := mkArchetypeDataChunk (id_dense_array ch)
                (<[Z.to_nat (fp_component p)
                   := Some (<[Z.to_nat (fp_field p) := col']> cols)]>
                   (component_field_arrays ch))
                (dense_arrays_length ch)).
  assert (∀ a' c' r',
    row_at (<[Z.to_nat (fp_archetype p)
              := set_chunks arch (<[Z.to_nat (fp_chunk p) := ch']> (chunks arch))
                   (number_of_chunks arch)]> (archetypes w)) a' c' r'
    = row_at (archetypes w) a' c' r') as Hrow'.
  { intros a' c' r'.
    rewrite (row_at_update_chunk _ _ _ _ _ _ _ _ Harch Hc).
    case_decide as Hpos; [|done]. destruct Hpos as [-> ->].
    unfold row_at. rewrite Harch. simpl. unfold chunks_row. by rewrite Hch. }
  apply (WF_update w live _ live (fp_archetype p) (fp_chunk p) arch ch' hw);
    try done.
  - destruct (zlookup_Forall _ _ _ _ Harchs Harch) as (_ & _ & _ & _ & _ & Hcs).
    destruct (zlookup_Forall _ _ _ _ Hcs Hch) as (? & ? & ? & Hcok).
    unfold chunk_ok, ch'. simpl. split_and!; try done; try lia.
    eapply Forall_impl; [exact Hcok|]. by apply columns_ok_insert with col.
  - intros e He. destruct (Hlive e He) as (a' & c' & r' & Hsp' & Hat').
    exists a', c', r'. split; [done|]. unfold entity_at in *. simpl.
    by rewrite Hrow'.
  - intros e a' c' r'. unfold entity_at. simpl. rewrite Hrow'. apply Hrows.
Qed.

Lemma write_field_WF w live e k f bs w' :
  WF w live → write_field w e k f bs = Some w' → WF w' live.
Proof.
  intros HWF Hw. unfold write_field in Hw.
  destruct (world_get_component_field w e k f) as [[w0 [p|]]|]; [|done..].
  simpl in Hw.
  destruct (zlookup (all_components_data w) k) as [cd|]; [|done].
  simpl in Hw. destruct (zlookup (field_sizes cd) f) as [fs|]; [|done].
  simpl in Hw. case_guard; [|done]. simpl in Hw.
  by eapply store_bytes_WF.
Qed.

(** ** Every reachable world is well formed *)

Lemma reachable_WF w live : reachable w live → WF w live.
Proof.
  induction 1 as [d s n Hlegal|w live fs _ IH Hfs Hroom
                  |w live cs w' e _ IH Hsig Hroom Harch Hadd
                  |w live e w' _ IH He Hrem
                  |w live e k f bs w' _ IH He Hwr].
  - by apply WF_world_create.
  - by apply WF_world_add_component_type.
  - destruct (world_add_entity_spec w live cs IH Hsig Hroom)
      as (w'' & e' & a & c & r & ids & cap & Hadd' & Hrest).
    rewrite Hadd in Hadd'. injection Hadd' as <- <-.
    by apply Hrest.
  - destruct (world_remove_entity_spec w live e IH He)
      as (w'' & a & c & r & arch & ch & ch' & Hrem' & Hrest).
    rewrite Hrem in Hrem'. injection Hrem' as <-.
    by apply Hrest.
  - by eapply write_field_WF.
Qed.

(** ** Runs within the limits stay reachable *)

Lemma exec_reachable w live o w' live' :
  reachable w live → exec true (w, live) o = Some (w', live') →
  reachable w' live'.
Proof.
  intros Hreach. unfold exec. simpl.
  destruct (bool_decide (op_legal w live o)) eqn:Hlegal; [|done].
  destruct (bool_decide (op_within_limits w o)) eqn:Hlimits; [|done].
  apply bool_decide_eq_true in Hlegal, Hlimits. simpl.
  destruct o as [fs|cs|e|e k f bs]; simpl in *.
  - intros [= <- <-]. by constructor.
  - destruct (world_add_entity w cs) as [[w1 e]|] eqn:Hadd; [|done].
    intros [= <- <-]. destruct Hlimits. by eapply reach_add_entity.
  - destruct (world_remove_entity w e) as [w1|] eqn:Hrem; [|done].
    intros [= <- <-]. by eapply reach_remove_entity.
  - destruct (write_field w e k f bs) as [w1|] eqn:Hwr; [|done].
    intros [= <- <-]. by eapply reach_write_field.
Qed.

Lemma run_cons limits o ops st :
  run limits (o :: ops) st = exec limits st o ≫= run limits ops.
Proof.
  unfold run. simpl. destruct (exec limits st o) as [st'|]; [done|].
  simpl. induction ops as [|o' ops IH]; simpl; [done|exact IH].
Qed.

Lemma run_reachable ops w live w' live' :
  reachable w live → run true ops (w, live) = Some (w', live') →
  reachable w' live'.
Proof.
  revert w live.
  induction ops as [|o ops IH]; intros w live Hreach.
  { by intros [= <- <-]. }
  rewrite run_cons.
  destruct (exec true (w, live) o) as [[w1 live1]|] eqn:Hexec; [|done].
  simpl. apply IH. by eapply exec_reachable.
Qed.

(** ** The example run *)

Lemma elem_of_by_compute (x : Z) (l : list Z) :
  bool_decide (x ∈ l) = true → x ∈ l.
Proof. apply bool_decide_eq_true. Qed.

Lemma decide_by_compute (P : Prop) `{Decision P} : bool_decide P = true → P.
Proof. apply bool_decide_eq_true. Qed.

Lemma example_run :
  run true example_ops (world_create 4 4 1, [])
  = Some (example_world, example_live).
Proof. vm_compute. reflexivity. Qed.

Lemma example_reachable : reachable example_world example_live.
Proof.
  apply (run_reachable example_ops (world_create 4 4 1) []).
  - apply reach_create. unfold create_legal. lia.
  - exact example_run.
Qed.

(** * The properties of the specification *)

(** ** C1: sparse/dense consistency *)

(** C1, as stated, fails: the archetype counter is 8 bits wide.  After 257
    entities with pairwise distinct signatures the counter has wrapped,
    the archetype array was reallocated to one element and archetype 0
    overwritten: entity 0 is live, its triple is still (0, 0, 0), and that
    row now holds entity 256. *)
Lemma sparse_dense_consistency_fails_after_wrap :
  ∃ w live,
    run false (many_signatures_ops 257) (world_create 8 8 1, [])
    = Some (w, live) ∧
    0 ∈ live ∧ sparse_get w 0 = Some (0, 0, 0) ∧
    row_at (archetypes w) 0 0 0 = Some 256 ∧
    ¬ sparse_dense_consistent w 0.
Proof.
  eexists _, _. split; [vm_compute; reflexivity|].
  split; [apply elem_of_by_compute; vm_compute; reflexivity|].
  split; [vm_compute; reflexivity|]. split; [vm_compute; reflexivity|].
  intros (a & c & r & Hsp & Hat).
  vm_compute in Hsp. injection Hsp as <- <- <-.
  vm_compute in Hat. discriminate Hat.
Qed.

(** C1 (amended).  In every world reachable by legal operations during
    which no counter wraps (at most 255 component types and 255
    archetypes, id-stack capacity below 2^32), every live entity sits in
    the row its sparse triple names, and that row is live. *)
Theorem sparse_dense_consistency w live e :
  reachable w live → e ∈ live →
  ∃ a c r arch ch,
    sparse_get w e = Some (a, c, r) ∧
    zlookup (archetypes w) a = Some arch ∧
    zlookup (chunks arch) c = Some ch ∧
    aload (id_dense_array ch) r = Some e ∧
    0 ≤ r < dense_arrays_length ch.
Proof.
  intros Hreach He. apply reachable_WF in Hreach.
  destruct (wf_live _ _ Hreach e He) as (a & c & r & Hsp & Hat).
  apply row_at_Some in Hat as (arch & ch & ? & ? & ? & ?).
  by exists a, c, r, arch, ch.
Qed.

Lemma sparse_dense_consistency_witness :
  reachable example_world example_live ∧ 5 ∈ example_live ∧
  ∃ a c r arch ch,
    sparse_get example_world 5 = Some (a, c, r) ∧
    zlookup (archetypes example_world) a = Some arch ∧
    zlookup (chunks arch) c = Some ch ∧
    aload (id_dense_array ch) r = Some 5 ∧
    0 ≤ r < dense_arrays_length ch.
Proof.
  assert (5 ∈ example_live) as Hin
    by (apply elem_of_by_compute; vm_compute; reflexivity).
  split; [exact example_reachable|]. split; [exact Hin|].
  exact (sparse_dense_consistency example_world example_live 5
           example_reachable Hin).
Defined.

(** ** C2: removal is an intra-chunk swap-pop *)



(** ** C4: field addresses *)



(** ** C9: growing the sparse vector by one sub-array is enough *)

(** C9.  From every reachable world, [world_add_entity] returns an id
    whose sub-array index lies inside the sparse vector afterwards, with
    its triple stored there; the vector grows by exactly one sub-array
    when the index was outside (it is then the first index outside), and
    not at all otherwise. *)
Theorem sparse_growth_sufficient w live cs :
  reachable w live → signature_legal w cs → id_room w →
  ∃ w' e a c r,
    world_add_entity w cs = Some (w', e) ∧
    e / sparse_array_chunk_size w' < sparse_array_number_of_chunks w' ∧
    sparse_array_number_of_chunks w'
    = Z.of_nat (length (sparse_array_chunks w')) ∧
    sparse_get w' e = Some (a, c, r) ∧
    (e / sparse_array_chunk_size w < sparse_array_number_of_chunks w →
     sparse_array_number_of_chunks w' = sparse_array_number_of_chunks w) ∧
    (sparse_array_number_of_chunks w ≤ e / sparse_array_chunk_size w →
     e / sparse_array_chunk_size w = sparse_array_number_of_chunks w ∧
     sparse_array_number_of_chunks w' = sparse_array_number_of_chunks w + 1).
Proof.
  intros Hreach Hsig Hroom. apply reachable_WF in Hreach.
  destruct (world_add_entity_spec w live cs Hreach Hsig Hroom)
    as (w' & e & a & c & r & ids & cap & Hrun & _ & _ & _ & _ & _ & _ & Hsp & _
        & _ & _ & Hn & Hcover & Hsame & Hgrow & Hssz & _).
  exists w', e, a, c, r. rewrite Hssz. split_and!; try done.
  intros Hout. specialize (Hgrow Hout). lia.
Qed.

Lemma sparse_growth_sufficient_witness :
  reachable example_world example_live ∧
  signature_legal example_world [1; 0] ∧ id_room example_world ∧
  ∃ w' e a c r,
    world_add_entity example_world [1; 0] = Some (w', e) ∧
    e / sparse_array_chunk_size w' < sparse_array_number_of_chunks w' ∧
    sparse_get w' e = Some (a, c, r).
Proof.
  assert (signature_legal example_world [1; 0]) as Hsig
    by (apply (decide_by_compute (signature_legal example_world [1; 0]));
        vm_compute; reflexivity).
  assert (id_room example_world) as Hroom by (left; vm_compute; reflexivity).
  split; [exact example_reachable|]. split; [exact Hsig|].
  split; [exact Hroom|].
  destruct (sparse_growth_sufficient example_world example_live [1; 0]
              example_reachable Hsig Hroom)
    as (w' & e & a & c & r & ? & ? & _ & ? & _).
  by exists w', e, a, c, r.
Defined.

(** ** C7: first-fit append, at a concrete archetype *)

Lemma archetype_add_entity_first_fit_witness :
  number_of_chunks example_archetype
  = Z.of_nat (length (chunks example_archetype)) ∧
  number_of_chunks example_archetype + 1 < 2 ^ 32 ∧
  0 < chunk_size example_archetype < 2 ^ 32 ∧
  Forall (chunk_shape_ok (chunk_size example_archetype))
    (chunks example_archetype) ∧
  Forall component_ok (all_components_data example_world) ∧
  Forall (λ k, 0 ≤ k
               < Z.of_nat (length (all_components_data example_world)))
    (components example_archetype) ∧
  ∃ arch', archetype_add_entity example_archetype 9 2
             (all_components_data example_world) = Some (arch', 3, 0).
Proof.
  assert (number_of_chunks example_archetype
          = Z.of_nat (length (chunks example_archetype))) as H1
    by (vm_compute; reflexivity).
  assert (number_of_chunks example_archetype + 1 < 2 ^ 32) as H2
    by (vm_compute; reflexivity).
  assert (0 < chunk_size example_archetype < 2 ^ 32) as H3
    by (split; vm_compute; reflexivity).
  assert (Forall (chunk_shape_ok (chunk_size example_archetype))
            (chunks example_archetype)) as H4
    by (apply (decide_by_compute (Forall _ _)); vm_compute; reflexivity).
  assert (Forall component_ok (all_components_data example_world)) as H5
    by (apply (decide_by_compute (Forall _ _)); vm_compute; reflexivity).
  assert (Forall (λ k, 0 ≤ k
            < Z.of_nat (length (all_components_data example_world)))
            (components example_archetype)) as H6
    by (apply (decide_by_compute (Forall _ _)); vm_compute; reflexivity).
  split; [exact H1|]. split; [exact H2|]. split; [exact H3|].
  split; [exact H4|]. split; [exact H5|]. split; [exact H6|].
  destruct (archetype_add_entity_first_fit example_archetype 9
              (all_components_data example_world) H1 H2 H3 H4 H5 H6)
    as [Hfit _].
  eexists.
  refine (Hfit 0 (default (mkArchetypeDataChunk [] [] 0)
                    (chunks example_archetype !! 0%nat)) _ _ _).
  - vm_compute. reflexivity.
  - vm_compute. reflexivity.
  - intros j ch' Hj. lia.
Defined.

(** ** C10: 8-bit component and archetype ids *)

Lemma register_all_snoc w fss fs :
  register_all w (fss ++ [fs])
  = ((world_add_component_type (register_all w fss).1 fs).1,
     (register_all w fss).2 ++ [number_of_components (register_all w fss).1]).
Proof. unfold register_all. by rewrite foldl_snoc. Qed.

Lemma register_all_ids w fss :
  0 ≤ number_of_components w < 256 →
  (register_all w fss).2
  = (λ i, (number_of_components w + i) mod 256)
      <$> seqZ 0 (Z.of_nat (length fss)) ∧
  number_of_components (register_all w fss).1
  = (number_of_components w + Z.of_nat (length fss)) mod 256.
Proof.
  intros Hn. induction fss as [|fs fss [IH1 IH2]] using rev_ind.
  { simpl. rewrite Z.add_0_r, Z.mod_small by done. done. }
  rewrite register_all_snoc, length_app. simpl.
  rewrite IH1, IH2. split.
  - replace (length fss + 1)%nat with (S (length fss)) by lia.
    rewrite seqZ_S, fmap_app. simpl. by rewrite Z.add_0_l.
  - unfold wrap8. rewrite Zplus_mod_idemp_l. f_equal. lia.
Qed.

(** C10.  Component ids and archetype ids are 8-bit counters.  The
    registrations return 0, 1, 2, ... modulo 256, so the 257th returns 0
    again; [world_add_archetype] returns the counter and increments it
    modulo 256; and the archetype id [world_add_entity] stores in the
    sparse index is always below 256. *)
Theorem ids_are_8_bit_counters :
  (∀ d s n fss,
     (register_all (world_create d s n) fss).2
     = (λ i, i mod 256) <$> seqZ 0 (Z.of_nat (length fss))) ∧
  (∀ d s n fs,
     last (register_all (world_create d s n) (replicate 257 fs)).2
     = Some 0) ∧
  (∀ w cs w' a,
     world_add_archetype w cs = Some (w', a) →
     a = number_of_archetypes w ∧
     number_of_archetypes w' = (number_of_archetypes w + 1) mod 256) ∧
  (∀ w live cs w' e,
     reachable w live → signature_legal w cs → id_room w →
     world_add_entity w cs = Some (w', e) →
     ∃ a c r, sparse_get w' e = Some (a, c, r) ∧ 0 ≤ a < 256).
Proof.
  split_and!.
  - intros d s n fss.
    destruct (register_all_ids (world_create d s n) fss) as [-> _];
      [simpl; lia|].
    simpl. done.
  - intros d s n fs.
    destruct (register_all_ids (world_create d s n) (replicate 257 fs))
      as [-> _]; [simpl; lia|].
    rewrite length_replicate. vm_compute. reflexivity.
  - intros w cs w' a. unfold world_add_archetype. intros H.
    simplify_option_eq. done.
  - intros w live cs w' e Hreach Hsig Hroom Hadd.
    apply reachable_WF in Hreach.
    destruct (world_add_entity_spec w live cs Hreach Hsig Hroom)
      as (w'' & e' & a & c & r & ids & cap & Hrun & _ & _ & _ & _ & _ & _ & Hsp
          & _ & _ & Ha & _).
    rewrite Hadd in Hrun. injection Hrun as <- <-. by exists a, c, r.
Qed.

Lemma ids_are_8_bit_counters_witness :
  reachable example_world example_live ∧
  signature_legal example_world [1] ∧ id_room example_world ∧
  ∃ w' e a c r, world_add_entity example_world [1] = Some (w', e) ∧
                sparse_get w' e = Some (a, c, r) ∧ 0 ≤ a < 256.
Proof.
  assert (signature_legal example_world [1]) as Hsig
    by (apply (decide_by_compute (signature_legal example_world [1]));
        vm_compute; reflexivity).
  assert (id_room example_world) as Hroom by (left; vm_compute; reflexivity).
  split; [exact example_reachable|]. split; [exact Hsig|].
  split; [exact Hroom|].
  destruct (world_add_entity example_world [1]) as [[w' e]|] eqn:Hadd;
    [|vm_compute in Hadd; discriminate Hadd].
  destruct (proj2 (proj2 (proj2 ids_are_8_bit_counters))
              example_world example_live [1] w' e
              example_reachable Hsig Hroom Hadd) as (a & c & r & ? & ?).
  by exists w', e, a, c, r.
Defined.

(** ** C5: order-agnostic signatures *)

(** C5, as stated, fails when the 8-bit archetype counter wraps between
    the two calls: with 255 archetypes present, a new signature creates
    archetype 255 and the counter becomes 0; the permuted signature then
    finds no archetype at all and creates another one at index 0. *)
Lemma permuted_signatures_split_at_wrap :
  NoDup [0; 1; 2; 3; 4; 5; 6; 7] ∧
  [7; 6; 5; 4; 3; 2; 1; 0] ≡ₚ [0; 1; 2; 3; 4; 5; 6; 7] ∧
  ∃ w live w1 e1 w2 e2,
    run false (many_signatures_ops 255) (world_create 8 8 1, [])
    = Some (w, live) ∧
    signature_legal w [0; 1; 2; 3; 4; 5; 6; 7] ∧
    world_add_entity w [0; 1; 2; 3; 4; 5; 6; 7] = Some (w1, e1) ∧
    world_add_entity w1 [7; 6; 5; 4; 3; 2; 1; 0] = Some (w2, e2) ∧
    sparse_get w2 e1 = Some (255, 0, 0) ∧
    sparse_get w2 e2 = Some (0, 0, 0).
Proof.
  split; [apply (decide_by_compute (NoDup _)); vm_compute; reflexivity|].
  split; [symmetry; apply (Permutation_rev [0; 1; 2; 3; 4; 5; 6; 7])|].
  eexists _, _, _, _, _, _.
  split; [vm_compute; reflexivity|].
  split; [apply (decide_by_compute (signature_legal _ _));
          vm_compute; reflexivity|].
  split; [vm_compute; reflexivity|]. split; [vm_compute; reflexivity|].
  split; vm_compute; reflexivity.
Qed.

Lemma first_match_unique archs archs' comps a a' :
  first_match archs comps a → first_match archs' comps a' →
  (∀ j arch0, zlookup archs j = Some arch0 →
     ∃ arch1, zlookup archs' j = Some arch1 ∧
              components arch1 = components arch0) →
  a = a'.
Proof.
  intros [(arch & Harch & Hcs) Hbefore] [(arch' & Harch' & Hcs') Hbefore']
    Hkeep.
  pose proof (zlookup_lt _ _ _ Harch) as Ha.
  pose proof (zlookup_lt _ _ _ Harch') as Ha'.
  destruct (Hkeep _ _ Harch) as (arch1 & Harch1 & Hcs1).
  destruct (Z.lt_trichotomy a a') as [Hlt|[->|Hgt]]; [|done|].
  - exfalso. apply (Hbefore' a arch1); [lia|done|congruence].
  - exfalso. destruct (zlookup_is_Some archs a') as [arch0 Harch0]; [lia|].
    destruct (Hkeep _ _ Harch0) as (arch2 & Harch2 & Hcs2).
    apply (Hbefore a' arch0); [lia|done|]. simplify_eq. congruence.
Qed.

(** C5 (amended).  For a signature without duplicates and any
    permutation of it, two consecutive [world_add_entity] calls place both
    entities in the same archetype, whose component list is the signature
    sorted ascending, provided no counter wraps: the signature is already
    known or fewer than 255 archetypes exist. *)
Theorem permuted_signatures_share_archetype w live cs cs' :
  reachable w live → signature_legal w cs → cs' ≡ₚ cs →
  id_room w → archetype_room w cs →
  ∃ w1 e1,
    world_add_entity w cs = Some (w1, e1) ∧
    (id_room w1 →
     ∃ w2 e2 a c1 r1 c2 r2 arch,
       world_add_entity w1 cs' = Some (w2, e2) ∧ e1 ≠ e2 ∧
       sparse_get w2 e1 = Some (a, c1, r1) ∧
       sparse_get w2 e2 = Some (a, c2, r2) ∧
       zlookup (archetypes w2) a = Some arch ∧
       components arch = qsort compare_comp_ids cs ∧
       Sorted Z.le (components arch) ∧ components arch ≡ₚ cs).
Proof.
  intros Hreach Hsig Hperm Hroom Harchroom. apply reachable_WF in Hreach.
  destruct (world_add_entity_spec w live cs Hreach Hsig Hroom)
    as (w1 & e1 & a1 & c1 & r1 & ids1 & cap1 & Hrun1 & _ & _ & _ & _ & _ & _
        & Hsp1 & _ & Hfirst1 & _ & _ & _ & _ & _ & _ & _ & _ & Hnc1 & _ & Hroom1).
  destruct (Hroom1 Harchroom) as (HWF1 & _ & _).
  exists w1, e1. split; [done|]. intros Hidroom1.
  assert (signature_legal w1 cs') as Hsig'.
  { destruct Hsig as [Hnd Hreg]. split; rewrite ?Hnc1; by rewrite Hperm. }
  assert (qsort compare_comp_ids cs' = qsort compare_comp_ids cs) as Hsorted
    by (by apply qsort_permutation_eq).
  assert (archetype_room w1 cs') as Harchroom1.
  { right. rewrite Hsorted. apply Exists_exists.
    destruct Hfirst1 as [(arch & Harch & Hcs) _].
    exists arch. split; [by eapply zlookup_elem_of|done]. }
  destruct (world_add_entity_spec w1 (e1 :: live) cs' HWF1 Hsig' Hidroom1)
    as (w2 & e2 & a2 & c2 & r2 & ids2 & cap2 & Hrun2 & _ & _ & _ & _ & Hfresh2
        & _ & Hsp2 & _ & Hfirst2 & _ & _ & _ & _ & _ & _ & _ & _ & _ & Hother2
        & Hroom2).
  destruct (Hroom2 Harchroom1) as (_ & _ & Hkeep).
  rewrite Hsorted in Hfirst2.
  assert (a1 = a2) as <- by (by eapply first_match_unique).
  assert (e1 ≠ e2) as Hne by (intros ->; apply Hfresh2; left).
  destruct Hfirst2 as [(arch & Harch & Hcs) _].
  exists w2, e2, a1, c1, r1, c2, r2, arch. split_and!; try done.
  - by apply Hother2.
  - rewrite Hcs. apply qsort_sorted.
  - rewrite Hcs. apply qsort_perm.
Qed.

Lemma permuted_signatures_share_archetype_witness :
  reachable example_world example_live ∧
  signature_legal example_world [1; 0] ∧ [0; 1] ≡ₚ [1; 0] ∧
  id_room example_world ∧ archetype_room example_world [1; 0] ∧
  ∃ w1 e1, world_add_entity example_world [1; 0] = Some (w1, e1).
Proof.
  assert (signature_legal example_world [1; 0]) as Hsig
    by (apply (decide_by_compute (signature_legal example_world [1; 0]));
        vm_compute; reflexivity).
  assert ([0; 1] ≡ₚ [1; 0]) as Hperm by apply Permutation_swap.
  assert (id_room example_world) as Hroom by (left; vm_compute; reflexivity).
  assert (archetype_room example_world [1; 0]) as Harchroom
    by (left; vm_compute; reflexivity).
  split; [exact example_reachable|]. split; [exact Hsig|].
  split; [exact Hperm|]. split; [exact Hroom|]. split; [exact Harchroom|].
  destruct (permuted_signatures_share_archetype example_world example_live
              [1; 0] [0; 1] example_reachable Hsig Hperm Hroom Harchroom)
    as (w1 & e1 & Hrun & _).
  by exists w1, e1.
Defined.

(** ** C6: the id allocator is a LIFO stack *)







(** ** C8: removal leaves the fields of the survivors alone *)







(** ** C3: what the iterator covers, and in which order *)

Lemma have_components_loop_spec arch R :
  arch_number_of_components arch = Z.of_nat (length (components arch)) →
  have_components_loop arch R = Some (bool_decide (carries arch R)).
Proof.
  intros Hn. induction R as [|k R IH]; cbn [have_components_loop].
  { reflexivity. }
  rewrite archetype_has_component_spec by lia. cbn [mbind option_bind drop].
  rewrite Z2Nat.inj_0. cbn [drop].
  destruct (decide (k ∈ components arch)) as [Hk|Hk].
  - rewrite bool_decide_eq_true_2 by done. rewrite IH. f_equal.
    apply bool_decide_ext. unfold carries. rewrite Forall_cons. tauto.
  - rewrite bool_decide_eq_false_2 by done. f_equal. symmetry.
    apply bool_decide_eq_false_2. unfold carries. rewrite Forall_cons. tauto.
Qed.

(** The length pre-check changes nothing for a request without
    duplicates. *)
Lemma does_archetype_have_components_spec arch R :
  arch_number_of_components arch = Z.of_nat (length (components arch)) →
  does_archetype_have_components arch R
  = Some (bool_decide ((length R ≤ length (components arch))%nat
                       ∧ carries arch R)).
Proof.
  intros Hn. unfold does_archetype_have_components. case_decide as Hlen.
  - f_equal. symmetry. apply bool_decide_eq_false_2. lia.
  - rewrite have_components_loop_spec by done. f_equal.
    apply bool_decide_ext. split; [|tauto]. intros ?. split; [lia|done].
Qed.

Lemma does_archetype_have_components_NoDup arch R :
  arch_number_of_components arch = Z.of_nat (length (components arch)) →
  NoDup R →
  does_archetype_have_components arch R
  = Some (bool_decide (carries arch R)).
Proof.
  intros Hn Hnd. rewrite does_archetype_have_components_spec by done.
  f_equal. apply bool_decide_ext. split; [tauto|]. intros Hc.
  split; [|done]. apply submseteq_length, NoDup_submseteq; [done|].
  by apply Forall_forall.
Qed.

Lemma iterator_ptrs_spec all size comps ch a c R :
  chunk_ok all size comps ch → Forall (λ k, k ∈ comps) R →
  mapM (λ k, cols ← zlookup (component_field_arrays ch) k;
             Some (match cols with
                   | Some _ => ColumnsOf a c k
                   | None => NullColumns
                   end)) R
  = Some ((λ k, ColumnsOf a c k) <$> R).
Proof.
  intros (_ & _ & _ & Hcols) Hc. apply mapM_Some_2, Forall2_fmap_r.
  apply Forall_Forall2_diag. eapply Forall_impl; [exact Hc|].
  intros k Hk. simpl. rewrite Forall_forall in Hcols.
  destruct (Hcols k Hk) as (cd & cols & _ & -> & _). done.
Qed.

Lemma iterator_chunks_spec all size arch a R fuel c :
  Forall (chunk_ok all size (components arch)) (chunks arch) →
  carries arch R →
  0 ≤ c → c + Z.of_nat fuel = Z.of_nat (length (chunks arch)) →
  ∃ recs, iterator_chunks arch a R fuel c = Some recs ∧
    Forall2 (λ c' rec, ∃ ch, zlookup (chunks arch) c' = Some ch ∧
               rec = ((λ k, ColumnsOf a c' k) <$> R, dense_arrays_length ch))
      (seqZ c (Z.of_nat fuel)) recs.
Proof.
  intros Hchunks Hcar. revert c.
  induction fuel as [|fuel IH]; intros c Hc Hlen.
  { exists []. split; [done|]. constructor. }
  cbn [iterator_chunks].
  destruct (zlookup_is_Some (chunks arch) c) as [ch Hch]; [lia|].
  rewrite Hch. cbn [mbind option_bind].
  rewrite (iterator_ptrs_spec all size (components arch) ch a c R);
    [|by eapply zlookup_Forall|done].
  cbn [mbind option_bind].
  destruct (IH (c + 1)) as (recs & -> & Hrecs); [lia|lia|].
  cbn [mbind option_bind]. eexists. split; [done|].
  rewrite seqZ_cons by lia.
  replace (Z.pred (Z.of_nat (S fuel))) with (Z.of_nat fuel) by lia.
  constructor; [by exists ch|]. exact Hrecs.
Qed.

Lemma iterator_fill_spec w R fuel a :
  Forall (archetype_ok (all_components_data w) (dense_array_chunk_size w))
    (archetypes w) →
  NoDup R → 0 ≤ a →
  a + Z.of_nat fuel = Z.of_nat (length (archetypes w)) →
  ∃ recs, iterator_fill (archetypes w) R fuel a = Some recs ∧
    Forall2 (λ ac rec, record_of w R ac = Some rec)
      (included_from (drop (Z.to_nat a) (archetypes w)) R a) recs.
Proof.
  intros Harchs Hnd. revert a.
  induction fuel as [|fuel IH]; intros a Ha Hlen.
  { exists []. split; [done|]. rewrite drop_ge by lia. constructor. }
  cbn [iterator_fill].
  destruct (zlookup_is_Some (archetypes w) a) as [arch Harch]; [lia|].
  rewrite Harch. cbn [mbind option_bind].
  destruct (zlookup_Forall _ _ _ _ Harchs Harch)
    as (Hanc & _ & _ & Han & _ & Hchunks).
  rewrite does_archetype_have_components_NoDup by done.
  cbn [mbind option_bind].
  apply zlookup_Some in Harch as Harch'. destruct Harch' as [_ Harch'].
  rewrite (drop_S _ _ _ Harch'). cbn [included_from].
  replace (S (Z.to_nat a)) with (Z.to_nat (a + 1)) by lia.
  destruct (IH (a + 1)) as (rest & -> & Hrest); [lia|lia|].
  destruct (decide (carries arch R)) as [Hcar|Hcar].
  - rewrite bool_decide_eq_true_2 by done.
    destruct (iterator_chunks_spec _ _ arch a R
                (Z.to_nat (number_of_chunks arch)) 0 Hchunks Hcar)
      as (here & -> & Hhere); [lia|lia|].
    cbn [mbind option_bind]. eexists. split; [done|].
    apply Forall2_app; [|exact Hrest].
    apply Forall2_fmap_l. rewrite Z2Nat.id, Han in Hhere by lia.
    eapply Forall2_impl; [exact Hhere|].
    intros c rec (ch & Hch & ->). unfold record_of. simpl.
    rewrite Harch. simpl. rewrite Hch. done.
  - rewrite bool_decide_eq_false_2 by done.
    cbn [mbind option_bind]. eexists. split; [done|]. exact Hrest.
Qed.

Lemma iterator_count_spec w R fuel a acc :
  Forall (archetype_ok (all_components_data w) (dense_array_chunk_size w))
    (archetypes w) →
  NoDup R → 0 ≤ a →
  a + Z.of_nat fuel = Z.of_nat (length (archetypes w)) →
  0 ≤ acc →
  acc + Z.of_nat (length (included_from (drop (Z.to_nat a) (archetypes w))
                            R a)) < 2 ^ 32 →
  iterator_count (archetypes w) R fuel a acc
  = Some (acc + Z.of_nat (length (included_from
                                    (drop (Z.to_nat a) (archetypes w)) R a))).
Proof.
  intros Harchs Hnd. revert a acc.
  induction fuel as [|fuel IH]; intros a acc Ha Hlen Hacc Hbound.
  { rewrite drop_ge by lia. simpl. f_equal. lia. }
  cbn [iterator_count].
  destruct (zlookup_is_Some (archetypes w) a) as [arch Harch]; [lia|].
  rewrite Harch. cbn [mbind option_bind].
  destruct (zlookup_Forall _ _ _ _ Harchs Harch)
    as (Hanc & _ & _ & Han & _ & Hchunks).
  rewrite does_archetype_have_components_NoDup by done.
  cbn [mbind option_bind].
  apply zlookup_Some in Harch as Harch'. destruct Harch' as [_ Harch'].
  rewrite (drop_S _ _ _ Harch') in Hbound |- *. cbn [included_from] in *.
  replace (S (Z.to_nat a)) with (Z.to_nat (a + 1)) in * by lia.
  rewrite length_app in Hbound |- *.
  destruct (decide (carries arch R)) as [Hcar|Hcar].
  - rewrite bool_decide_eq_true_2 by done.
    rewrite length_fmap, length_seqZ in Hbound |- *.
    rewrite wrap32_small by lia. rewrite IH by lia. f_equal. lia.
  - rewrite bool_decide_eq_false_2 by done. simpl in Hbound |- *.
    rewrite IH by lia. done.
Qed.

Lemma elem_of_included_from archs R a0 a c :
  (a, c) ∈ included_from archs R a0 ↔
  ∃ arch, a0 ≤ a ∧ archs !! Z.to_nat (a - a0) = Some arch ∧
    carries arch R ∧ 0 ≤ c < Z.of_nat (length (chunks arch)).
Proof.
  revert a0. induction archs as [|arch archs IH]; intros a0; simpl.
  { split; [by intros ?%elem_of_nil|]. by intros (? & ? & ? & ?). }
  rewrite elem_of_app, IH. split.
  - intros [H|(arch' & ? & Hl & ? & ?)].
    + destruct (decide (carries arch R)); [|by apply elem_of_nil in H].
      apply list_elem_of_fmap in H as (c' & [= -> ->] & Hc%elem_of_seqZ).
      exists arch. rewrite Z.sub_diag. simpl. split_and!; try done; lia.
    + exists arch'. split_and!; try done; try lia.
      replace (Z.to_nat (a - a0)) with (S (Z.to_nat (a - (a0 + 1)))) by lia.
      done.
  - intros (arch' & Ha & Hl & Hcar & Hc).
    destruct (decide (a = a0)) as [->|Hne].
    + left. rewrite Z.sub_diag in Hl. simpl in Hl. injection Hl as <-.
      rewrite decide_True by done. apply list_elem_of_fmap. exists c.
      split; [done|]. apply elem_of_seqZ. lia.
    + right. exists arch'. split_and!; try done; try lia.
      replace (Z.to_nat (a - a0)) with (S (Z.to_nat (a - (a0 + 1)))) in Hl
        by lia.
      done.
Qed.

Lemma elem_of_included_chunks w R a c :
  (a, c) ∈ included_chunks w R ↔
  ∃ arch, zlookup (archetypes w) a = Some arch ∧ carries arch R ∧
    0 ≤ c < Z.of_nat (length (chunks arch)).
Proof.
  unfold included_chunks. rewrite elem_of_included_from.
  setoid_rewrite zlookup_Some. rewrite Z.sub_0_r. naive_solver.
Qed.



Lemma included_from_NoDup archs R a0 : NoDup (included_from archs R a0).
Proof.
  revert a0. induction archs as [|arch archs IH]; intros a0; simpl.
  { constructor. }
  apply NoDup_app. split_and!; [| |apply IH].
  - destruct (decide (carries arch R)); [|constructor].
    apply NoDup_fmap_2; [|apply NoDup_seqZ]. by intros x y [= ->].
  - intros [a c] H1 H2.
    apply elem_of_included_from in H2 as (? & ? & _).
    destruct (decide (carries arch R)); [|by apply elem_of_nil in H1].
    apply list_elem_of_fmap in H1 as (c' & [= -> ->] & _). lia.
Qed.

Lemma NoDup_omap_inj {A B} (f : A → option B) (l : list A) :
  (∀ x1 x2 y, x1 ∈ l → x2 ∈ l → f x1 = Some y → f x2 = Some y → x1 = x2) →
  NoDup l → NoDup (omap f l).
Proof.
  intros Hinj Hnd. induction Hnd as [|x l Hx Hnd IH]; simpl.
  { constructor. }
  assert (NoDup (omap f l)) as IH'.
  { apply IH. intros x1 x2 y ? ?. apply Hinj; by right. }
  destruct (f x) as [y|] eqn:Hfx; [|done].
  constructor; [|done].
  intros (x' & Hx' & Hfx')%list_elem_of_omap.
  assert (x' = x) as -> by (eapply Hinj; [by right|by left|done|done]).
  done.
Qed.

(** The iterator: one record per chunk of the archetypes that carry the
    request, in order. *)
Lemma world_get_component_iterator_spec w live R :
  WF w live → NoDup R →
  Z.of_nat (length (included_chunks w R)) < 2 ^ 32 →
  ∃ it, world_get_component_iterator w R = Some it ∧
    it_number_of_chunks it = Z.of_nat (length (included_chunks w R)) ∧
    length (it_component_field_arrays it) = length (chunk_lengths it) ∧
    Forall2 (λ ac rec, record_of w R ac = Some rec)
      (included_chunks w R)
      (zip (it_component_field_arrays it) (chunk_lengths it)).
Proof.
  intros HWF Hnd Hbound. unfold world_get_component_iterator.
  destruct (wf_narch _ _ HWF) as [Hna _].
  pose proof (wf_archs _ _ HWF) as Harchs.
  assert (included_from (drop (Z.to_nat 0) (archetypes w)) R 0
          = included_chunks w R) as Heq by done.
  rewrite (iterator_count_spec w R _ 0 0 Harchs Hnd); try lia;
    [|by rewrite Heq, Z.add_0_l].
  rewrite Heq, Z.add_0_l. cbn [mbind option_bind].
  case_decide as Hzero.
  { exists (mkComponentIterator [] [] 0). simpl.
    destruct (included_chunks w R); [|simpl in *; lia].
    by split_and!. }
  destruct (iterator_fill_spec w R (Z.to_nat (number_of_archetypes w)) 0
              Harchs Hnd) as (recs & -> & Hrecs); [lia|lia|].
  rewrite Heq in Hrecs. cbn [mbind option_bind].
  pose proof (Forall2_length _ _ _ Hrecs) as Hlen.
  rewrite option_guard_True by lia. cbn [mbind option_bind].
  eexists. split; [done|]. simpl. split_and!; try done.
  - by rewrite !length_fmap.
  - by rewrite zip_fst_snd.
Qed.

Lemma WF_NoDup_live w live : WF w live → NoDup live.
Proof.
  intros HWF. destruct (wf_stack _ _ HWF)
    as (hw & (vals & _ & _ & _ & _ & _ & _ & _ & _ & Hnd) & _).
  by apply NoDup_app in Hnd as (? & _).
Qed.





(** * Further properties of the code *)

(** ** What the steps of [world_add_entity] leave alone *)

Lemma id_stack_pop_frame w w1 e :
  id_stack_pop w = Some (w1, e) →
  archetypes w1 = archetypes w ∧
  all_components_data w1 = all_components_data w ∧
  sparse_array_chunks w1 = sparse_array_chunks w ∧
  sparse_array_chunk_size w1 = sparse_array_chunk_size w ∧
  sparse_array_number_of_chunks w1 = sparse_array_number_of_chunks w ∧
  dense_array_chunk_size w1 = dense_array_chunk_size w ∧
  number_of_archetypes w1 = number_of_archetypes w ∧
  number_of_components w1 = number_of_components w.
Proof.
  unfold id_stack_pop. intros H.
  destruct (decide (id_stack_capacity w ≤ id_stack_top_index w));
    simpl in H;
    match type of H with
    | (?m ≫= _) = _ => destruct m; [|done]
    end; simpl in H; injection H as <- _; done.
Qed.

Lemma sparse_set_frame w id a c r w' :
  sparse_set w id a c r = Some w' →
  archetypes w' = archetypes w ∧
  all_components_data w' = all_components_data w ∧
  id_stack_ids w' = id_stack_ids w ∧
  id_stack_capacity w' = id_stack_capacity w ∧
  id_stack_top_index w' = id_stack_top_index w ∧
  sparse_array_chunk_size w' = sparse_array_chunk_size w ∧
  dense_array_chunk_size w' = dense_array_chunk_size w ∧
  number_of_archetypes w' = number_of_archetypes w ∧
  number_of_components w' = number_of_components w.
Proof.
  unfold sparse_set. intros H. case_guard; [|done]. simpl in H.
  repeat match type of H with
         | (?m ≫= _) = _ => destruct m; [|done]; simpl in H
         end.
  injection H as <-.
  destruct (decide (sparse_array_number_of_chunks w
                    ≤ id / sparse_array_chunk_size w)); done.
Qed.

(** The scan of [archetype_add_entity], when it finds room, rewrites one
    chunk: its id array and its length; the column tables stay. *)
Lemma archetype_scan_inv arch e fuel i arch' r c :
  archetype_scan arch e fuel i = Some (Some (arch', r, c)) →
  ∃ j ch ids,
    zlookup (chunks arch) j = Some ch ∧
    arch' = set_chunks arch
              (<[Z.to_nat j :=
                   mkArchetypeDataChunk ids (component_field_arrays ch)
                     (wrap32 (dense_arrays_length ch + 1))]> (chunks arch))
              (number_of_chunks arch).
Proof.
  revert i. induction fuel as [|fuel IH]; intros i H; simpl in H; [done|].
  destruct (zlookup (chunks arch) i) as [ch|] eqn:Hch; [|done]. simpl in H.
  case_decide; [|by eapply IH].
  destruct (astore (id_dense_array ch) (dense_arrays_length ch) e)
    as [ids|]; [|done]. simpl in H.
  destruct (zstore (chunks arch) i _) as [chs|] eqn:Hst; [|done].
  simpl in H. injection H as <- <- <-.
  apply zstore_Some in Hst as [_ ->]. by exists i, ch, ids.
Qed.

(** [archetype_add_entity] either rewrites one chunk in place, or appends
    one chunk that [archetype_data_chunk_init] built. *)
Lemma archetype_add_entity_inv arch e nall all arch' r c :
  archetype_add_entity arch e nall all = Some (arch', r, c) →
  number_of_chunks arch = Z.of_nat (length (chunks arch)) →
  number_of_chunks arch < 2 ^ 32 →
  (∃ j ch ids,
     zlookup (chunks arch) j = Some ch ∧
     arch' = set_chunks arch
               (<[Z.to_nat j :=
                    mkArchetypeDataChunk ids (component_field_arrays ch)
                      (wrap32 (dense_arrays_length ch + 1))]> (chunks arch))
               (number_of_chunks arch))
  ∨ (∃ ch0 ids,
       archetype_data_chunk_init all nall (components arch) (chunk_size arch)
       = Some ch0 ∧
       arch' = set_chunks arch
                 (chunks arch
                  ++ [mkArchetypeDataChunk ids (component_field_arrays ch0)
                        (wrap32 (dense_arrays_length ch0 + 1))])
                 (number_of_chunks arch + 1)).
Proof.
  unfold archetype_add_entity. intros H Hn Hnb.
  destruct (archetype_scan arch e _ 0) as [[[[a1 r1] c1]|]|] eqn:Hscan;
    simpl in H; [|..|done].
  - injection H as <- <- <-. left. by eapply archetype_scan_inv.
  - right.
    destruct (archetype_data_chunk_init all nall (components arch)
                (chunk_size arch)) as [ch0|]; [|done]. simpl in H.
    destruct (astore (id_dense_array ch0) 0 e) as [ids|]; [|done].
    simpl in H.
    destruct (zstore _ _ _) as [chs|] eqn:Hst; [|done]. simpl in H.
    injection H as <- <- <-. exists ch0, ids. split; [done|].
    apply zstore_Some in Hst as [Hb ->].
    rewrite length_resize in Hb.
    assert (wrap32 (number_of_chunks arch + 1) = number_of_chunks arch + 1)
      as Hw.
    { unfold wrap32 in *.
      destruct (decide (number_of_chunks arch + 1 < 2 ^ 32));
        [apply Z.mod_small; lia|].
      replace (number_of_chunks arch + 1) with (2 ^ 32) in Hb by lia.
      rewrite Z_mod_same_full in Hb. lia. }
    rewrite Hw. f_equal.
    rewrite resize_ge by lia.
    replace (Z.to_nat (number_of_chunks arch + 1) - length (chunks arch))%nat
      with 1%nat by lia.
    simpl. rewrite insert_app_r_alt by lia.
    replace (Z.to_nat (number_of_chunks arch + 1 - 1) - length (chunks arch))%nat
      with 0%nat by lia.
    done.
Qed.

(** [world_add_archetype] appends one archetype with a single chunk that
    [archetype_data_chunk_init] built. *)
Lemma world_add_archetype_inv w comps w' a :
  world_add_archetype w comps = Some (w', a) →
  number_of_archetypes w = Z.of_nat (length (archetypes w)) →
  ∃ ch0,
    archetype_data_chunk_init (all_components_data w)
      (number_of_components w) comps (dense_array_chunk_size w) = Some ch0 ∧
    a = number_of_archetypes w ∧
    w' = set_archetypes w
           (archetypes w
            ++ [mkArchetype comps [ch0] 1 (dense_array_chunk_size w)
                  (Z.of_nat (length comps)) (number_of_archetypes w)])
           (wrap8 (number_of_archetypes w + 1)).
Proof.
  unfold world_add_archetype, archetype_init, tabulate. intros H Hn.
  change (seqZ 0 1) with [0] in H. simpl in H.
  destruct (archetype_data_chunk_init _ _ _ _) as [ch0|]; [|done].
  simpl in H. injection H as <- <-. exists ch0. split_and!; try done.
  by rewrite take_ge by lia.
Qed.

(** How [world_add_entity] changes the archetype array: at most one
    archetype is appended (when no archetype has the sorted signature),
    and one archetype gets the new row, in an existing chunk or in one
    appended chunk. *)
Lemma world_add_entity_archetypes w live cs w' e :
  WF w live → world_add_entity w cs = Some (w', e) →
  ∃ archs2 a arch arch',
    (archs2 = archetypes w
     ∨ ∃ ch0,
         archetype_data_chunk_init (all_components_data w)
           (number_of_components w) (qsort compare_comp_ids cs)
           (dense_array_chunk_size w) = Some ch0 ∧
         arch = mkArchetype (qsort compare_comp_ids cs) [ch0] 1
                  (dense_array_chunk_size w)
                  (Z.of_nat (length (qsort compare_comp_ids cs)))
                  (number_of_archetypes w) ∧
         archs2 = archetypes w ++ [arch] ∧
         a = number_of_archetypes w ∧
         ∀ arch0, arch0 ∈ archetypes w →
                  components arch0 ≠ qsort compare_comp_ids cs) ∧
    zlookup archs2 a = Some arch ∧
    components arch = qsort compare_comp_ids cs ∧
    chunk_size arch = dense_array_chunk_size w ∧
    ((∃ j ch ids,
        zlookup (chunks arch) j = Some ch ∧
        arch' = set_chunks arch
                  (<[Z.to_nat j :=
                       mkArchetypeDataChunk ids (component_field_arrays ch)
                         (wrap32 (dense_arrays_length ch + 1))]>
                     (chunks arch))
                  (number_of_chunks arch))
     ∨ (∃ ch0 ids,
          archetype_data_chunk_init (all_components_data w)
            (number_of_components w) (components arch) (chunk_size arch)
          = Some ch0 ∧
          arch' = set_chunks arch
                    (chunks arch
                     ++ [mkArchetypeDataChunk ids
                           (component_field_arrays ch0)
                           (wrap32 (dense_arrays_length ch0 + 1))])
                    (number_of_chunks arch + 1))) ∧
    archetypes w' = <[Z.to_nat a := arch']> archs2 ∧
    all_components_data w' = all_components_data w ∧
    number_of_components w' = number_of_components w ∧
    dense_array_chunk_size w' = dense_array_chunk_size w.
Proof.
  intros HWF Hadd. unfold world_add_entity in Hadd.
  destruct (id_stack_pop w) as [[w1 id]|] eqn:Hpop; [|done].
  simpl in Hadd.
  destruct (id_stack_pop_frame _ _ _ Hpop)
    as (Harchs1 & Hall1 & _ & _ & _ & Hdsz1 & Hna1 & Hnc1).
  set (sorted := qsort compare_comp_ids cs) in *.
  destruct (wf_narch _ _ HWF) as [Hna _].
  pose proof (wf_archs _ _ HWF) as Hok.
  destruct (world_match_archetype w1 sorted) as [m|] eqn:Hm; [|done].
  simpl in Hadd.
  unfold world_match_archetype in Hm. rewrite Harchs1, Hna1 in Hm.
  destruct (match_archetype_from_spec (archetypes w) sorted
              (Z.to_nat (number_of_archetypes w)) 0)
    as [(i & arch0 & Hrun & _ & Harch0 & Hcomps0 & _)|[Hrun Hno]];
    [lia|lia| | |].
  { eapply Forall_impl; [exact Hok|]. by intros arch (? & _). }
  - (* an archetype with the signature exists *)
    rewrite Hrun in Hm. injection Hm as <-. simpl in Hadd.
    rewrite Harchs1, Harch0 in Hadd. simpl in Hadd.
    destruct (archetype_add_entity arch0 id _ _)
      as [[[arch' r] c]|] eqn:Hae; [|done]. simpl in Hadd.
    destruct (zstore (archetypes w) i arch') as [archs|] eqn:Hst; [|done].
    simpl in Hadd.
    destruct (sparse_set _ _ _ _ _) as [w4|] eqn:Hss; [|done].
    simpl in Hadd. injection Hadd as <- <-.
    destruct (sparse_set_frame _ _ _ _ _ _ Hss)
      as (Harchs4 & Hall4 & _ & _ & _ & _ & Hdsz4 & _ & Hnc4).
    simpl in *. apply zstore_Some in Hst as [_ ->].
    destruct (zlookup_Forall _ _ _ _ Hok Harch0)
      as (_ & _ & Hcs & Hn & Hnb & _).
    rewrite Hnc1, Hall1 in Hae.
    exists (archetypes w), i, arch0, arch'.
    split_and!; try done; try congruence; [by left|].
    by eapply archetype_add_entity_inv.
  - (* a new archetype *)
    rewrite Hrun in Hm. injection Hm as <-. simpl in Hadd.
    destruct (world_add_archetype w1 sorted) as [[w2 a]|] eqn:Hwa; [|done].
    simpl in Hadd.
    destruct (world_add_archetype_inv _ _ _ _ Hwa) as (ch0 & Hinit & -> & ->);
      [congruence|].
    simpl in Hadd. rewrite Harchs1, Hall1, Hnc1, Hdsz1, Hna1 in *.
    set (arch := mkArchetype sorted [ch0] 1 (dense_array_chunk_size w)
                   (Z.of_nat (length sorted)) (number_of_archetypes w)) in *.
    assert (zlookup (archetypes w ++ [arch]) (number_of_archetypes w)
            = Some arch) as Harch.
    { rewrite Hna, zlookup_nat.
      by rewrite lookup_app_r, Nat.sub_diag by lia. }
    rewrite Harch in Hadd. simpl in Hadd.
    destruct (archetype_add_entity arch id _ _)
      as [[[arch' r] c]|] eqn:Hae; [|done]. simpl in Hadd.
    destruct (zstore _ _ arch') as [archs|] eqn:Hst; [|done].
    simpl in Hadd.
    destruct (sparse_set _ _ _ _ _) as [w4|] eqn:Hss; [|done].
    simpl in Hadd. injection Hadd as <- <-.
    destruct (sparse_set_frame _ _ _ _ _ _ Hss)
      as (Harchs4 & Hall4 & _ & _ & _ & _ & Hdsz4 & _ & Hnc4).
    simpl in *. apply zstore_Some in Hst as [_ ->].
    exists (archetypes w ++ [arch]), (number_of_archetypes w), arch, arch'.
    split_and!; try done; try congruence.
    + right. exists ch0. split_and!; try done.
      intros arch1 [j Hj]%elem_of_zlookup.
      apply (Hno j arch1); [|done]. by apply zlookup_lt in Hj as [? _].
    + eapply archetype_add_entity_inv; [exact Hae|done|done].
Qed.

(** ** The shape of the archetype array is invariant *)

Lemma qsort_strictly_ascending cs :
  NoDup cs → StronglySorted Z.lt (qsort compare_comp_ids cs).
Proof.
  intros Hnd.
  assert (NoDup (qsort compare_comp_ids cs)) as Hnd'
    by (by rewrite qsort_perm).
  pose proof (qsort_sorted cs) as Hs.
  apply Sorted_StronglySorted in Hs; [|intros x y z; lia].
  induction Hs as [|x l Hs IH Hx]; [constructor|].
  apply NoDup_cons in Hnd' as [Hnotin Hnd']. constructor; [by apply IH|].
  rewrite Forall_forall in Hx |- *. intros y Hy.
  specialize (Hx y Hy). assert (x ≠ y) by (by intros ->). lia.
Qed.

Lemma init_columns_inv all size comps cfa cfa' :
  init_columns all size comps cfa = Some cfa' →
  length cfa' = length cfa ∧
  ∀ k, k ∉ comps → zlookup cfa' k = zlookup cfa k.
Proof.
  revert cfa. induction comps as [|c comps IH]; intros cfa H; simpl in H.
  { by injection H as <-. }
  destruct (zlookup all c) as [cd|]; [|done]. simpl in H.
  destruct (tabulate _ _) as [cols|]; [|done]. simpl in H.
  destruct (zstore cfa c (Some cols)) as [cfa1|] eqn:Hst; [|done].
  simpl in H. destruct (IH _ H) as [Hlen Hother].
  split; [by rewrite Hlen, (zstore_length _ _ _ _ Hst)|].
  intros k Hk. apply not_elem_of_cons in Hk as [Hkc Hk].
  rewrite Hother by done. by eapply zlookup_zstore_ne.
Qed.

Lemma archetype_data_chunk_init_table all nall comps size ch :
  archetype_data_chunk_init all nall comps size = Some ch → 0 ≤ nall →
  table_ok nall comps ch ∧ dense_arrays_length ch = 0.
Proof.
  unfold archetype_data_chunk_init. intros H Hn.
  destruct (init_columns _ _ _ _) as [cfa|] eqn:Hinit; [|done].
  simpl in H. injection H as <-. simpl.
  destruct (init_columns_inv _ _ _ _ _ Hinit) as [Hlen Hother].
  rewrite length_replicate in Hlen.
  split; [|done]. unfold table_ok. simpl. rewrite Hlen. split; [lia|].
  intros k Hk Hkb. rewrite Hother by done. apply zlookup_Some.
  split; [lia|]. apply lookup_replicate_2. lia.
Qed.

Lemma table_ok_mono ncomp ncomp' comps ch :
  ncomp ≤ ncomp' → table_ok ncomp comps ch → table_ok ncomp' comps ch.
Proof. intros ? [? ?]. split; [lia|done]. Qed.

Lemma table_ok_same ncomp comps ch ch' :
  component_field_arrays ch' = component_field_arrays ch →
  table_ok ncomp comps ch → table_ok ncomp comps ch'.
Proof. unfold table_ok. by intros ->. Qed.

(** A table changed only at entries of carried components stays well
    shaped. *)
Lemma table_ok_update ncomp comps ch ch' :
  Forall (λ k, 0 ≤ k < ncomp) comps →
  (∀ k, k ∉ comps →
        zlookup (component_field_arrays ch') k
        = zlookup (component_field_arrays ch) k) →
  table_ok ncomp comps ch → table_ok ncomp comps ch'.
Proof.
  intros Hreg Hsame [Hlen Hnull]. rewrite Forall_forall in Hreg.
  assert (∀ k, k ∉ comps →
               0 ≤ k < Z.of_nat (length (component_field_arrays ch')) →
               0 ≤ k < Z.of_nat (length (component_field_arrays ch))) as Hb.
  { intros k Hk Hkb.
    destruct (zlookup_is_Some (component_field_arrays ch') k Hkb) as [o Ho].
    rewrite Hsame in Ho by done. by apply zlookup_lt in Ho. }
  split.
  - destruct (decide (Z.of_nat (length (component_field_arrays ch')) ≤ ncomp))
      as [|Hgt]; [done|]. exfalso.
    set (k := Z.of_nat (length (component_field_arrays ch')) - 1).
    destruct (decide (k ∈ comps)) as [Hin|Hout].
    + specialize (Hreg k Hin). lia.
    + specialize (Hb k Hout ltac:(lia)). lia.
  - intros k Hk Hkb. rewrite Hsame by done. apply Hnull; [done|].
    by apply Hb.
Qed.

(** Replacing an archetype by one with the same signature and id. *)
Lemma Shape_update ncomp archs a arch arch' :
  Shape ncomp archs → zlookup archs a = Some arch →
  components arch' = components arch →
  archetype_id arch' = archetype_id arch →
  1 ≤ number_of_chunks arch' →
  Forall (table_ok ncomp (components arch)) (chunks arch') →
  Shape ncomp (<[Z.to_nat a := arch']> archs).
Proof.
  intros [Hu Hs Hi Hc Ht] Harch Hcomps Hid Hn Htab.
  pose proof (zlookup_lt _ _ _ Harch) as Ha.
  apply zlookup_Some in Harch as Harch'. destruct Harch' as [_ Harch'].
  split.
  - rewrite list_fmap_insert, Hcomps.
    rewrite list_insert_id; [done|]. by rewrite list_lookup_fmap, Harch'.
  - apply Forall_insert; [done|]. rewrite Hcomps.
    by eapply (zlookup_Forall _ _ _ _ Hs).
  - intros j arch0.
    rewrite (zlookup_zstore _ _ _ _ j (zstore_is_Some _ a arch' Ha)).
    case_decide as Hj; [|by apply Hi].
    intros [= <-]. subst j. rewrite Hid. by apply Hi.
  - by apply Forall_insert.
  - apply Forall_insert; [done|]. by rewrite Hcomps.
Qed.

(** Appending an archetype with a new, strictly ascending signature. *)
Lemma Shape_append ncomp archs arch :
  Shape ncomp archs →
  (∀ arch0, arch0 ∈ archs → components arch0 ≠ components arch) →
  StronglySorted Z.lt (components arch) →
  archetype_id arch = Z.of_nat (length archs) →
  1 ≤ number_of_chunks arch →
  Forall (table_ok ncomp (components arch)) (chunks arch) →
  Shape ncomp (archs ++ [arch]).
Proof.
  intros [Hu Hs Hi Hc Ht] Hnew Hsorted Hid Hn Htab. split.
  - rewrite fmap_app. simpl. apply NoDup_app. split_and!; [done| |].
    + intros cs (arch0 & -> & Hin)%list_elem_of_fmap Hcs.
      apply list_elem_of_singleton in Hcs. by apply (Hnew arch0).
    + apply NoDup_singleton.
  - apply Forall_app. split; [done|]. by constructor.
  - intros j arch0 Hj. apply zlookup_Some in Hj as [Hj0 Hj].
    apply lookup_app_Some in Hj as [Hj|[Hge Hj]].
    + apply Hi. by apply zlookup_Some.
    + apply list_lookup_singleton_Some in Hj as [? <-]. lia.
  - apply Forall_app. split; [done|]. by constructor.
  - apply Forall_app. split; [done|]. by constructor.
Qed.

Lemma Shape_more_components ncomp ncomp' archs :
  ncomp ≤ ncomp' → Shape ncomp archs → Shape ncomp' archs.
Proof.
  intros Hle [Hu Hs Hi Hc Ht]. split; try done.
  eapply Forall_impl; [exact Ht|]. intros arch Harch.
  eapply Forall_impl; [exact Harch|]. intros ch. by apply table_ok_mono.
Qed.

(** A store through a field pointer rewrites one column of one chunk. *)
Lemma store_bytes_inv w p bs w' :
  store_bytes w p bs = Some w' →
  ∃ arch ch cols col,
    zlookup (archetypes w) (fp_archetype p) = Some arch ∧
    zlookup (chunks arch) (fp_chunk p) = Some ch ∧
    zlookup (component_field_arrays ch) (fp_component p) = Some (Some cols) ∧
    zlookup cols (fp_field p) = Some col ∧
    0 ≤ fp_offset p ∧
    fp_offset p + Z.of_nat (length bs) ≤ Z.of_nat (length col) ∧
    w' = set_archetypes w
           (<[Z.to_nat (fp_archetype p) :=
                set_chunks arch
                  (<[Z.to_nat (fp_chunk p) :=
                       mkArchetypeDataChunk (id_dense_array ch)
                         (<[Z.to_nat (fp_component p) :=
                              Some (<[Z.to_nat (fp_field p) :=
                                        take (Z.to_nat (fp_offset p)) col
                                        ++ (Some <$> bs)
                                        ++ drop (Z.to_nat (fp_offset p)
                                                 + length bs)%nat col]>
                                      cols)]>
                            (component_field_arrays ch))
                         (dense_arrays_length ch)]> (chunks arch))
                  (number_of_chunks arch)]> (archetypes w))
           (number_of_archetypes w).
Proof.
  intros Hst. unfold store_bytes in Hst.
  destruct (zlookup (archetypes w) (fp_archetype p)) as [arch|] eqn:Harch;
    [|done]. simpl in Hst.
  destruct (zlookup (chunks arch) (fp_chunk p)) as [ch|] eqn:Hch; [|done].
  simpl in Hst.
  destruct (zlookup (component_field_arrays ch) (fp_component p))
    as [[cols|]|] eqn:Hcols; [|done..]. simpl in Hst.
  destruct (zlookup cols (fp_field p)) as [col|] eqn:Hcol; [|done].
  simpl in Hst. case_guard as Hb; [|done]. simpl in Hst.
  pose proof (zlookup_lt _ _ _ Harch) as Ha.
  pose proof (zlookup_lt _ _ _ Hch) as Hc.
  pose proof (zlookup_lt _ _ _ Hcols) as Hk.
  pose proof (zlookup_lt _ _ _ Hcol) as Hf.
  do 4 (rewrite zstore_is_Some in Hst by done; simpl in Hst).
  injection Hst as <-. exists arch, ch, cols, col.
  split_and!; try done; lia.
Qed.

Lemma write_field_inv w e k f bs w' :
  write_field w e k f bs = Some w' →
  ∃ p cd fs,
    world_get_component_field w e k f = Some (w, Some p) ∧
    zlookup (all_components_data w) k = Some cd ∧
    zlookup (field_sizes cd) f = Some fs ∧
    Z.of_nat (length bs) = fs ∧
    store_bytes w p bs = Some w'.
Proof.
  intros Hw. unfold write_field in Hw.
  destruct (world_get_component_field w e k f) as [[w0 [p|]]|] eqn:Hget;
    [|done..].
  simpl in Hw.
  destruct (zlookup (all_components_data w) k) as [cd|] eqn:Hcd; [|done].
  simpl in Hw.
  destruct (zlookup (field_sizes cd) f) as [fs|] eqn:Hfs; [|done].
  simpl in Hw. case_guard; [|done]. simpl in Hw.
  assert (w0 = w) as ->.
  { unfold world_get_component_field in Hget.
    repeat (case_guard || case_decide || case_match
            || simplify_option_eq); done. }
  by exists p, cd, fs.
Qed.

(** Every reachable world has the shape. *)
Lemma reachable_Shape w live :
  reachable w live → Shape (number_of_components w) (archetypes w).
Proof.
  induction 1 as [d s n Hlegal|w live fs Hreach IH Hfs Hroom
                  |w live cs w' e Hreach IH Hsig Hroom Harch Hadd
                  |w live e w' Hreach IH He Hrem
                  |w live e k f bs w' Hreach IH He Hw].
  - simpl. split; try by constructor.
    intros a arch Ha%zlookup_lt. simpl in Ha. lia.
  - simpl. apply reachable_WF in Hreach.
    destruct (wf_ncomp _ _ Hreach) as [Hnc _].
    eapply Shape_more_components; [|exact IH].
    rewrite wrap8_small by lia. lia.
  - pose proof (reachable_WF _ _ Hreach) as HWF.
    destruct (wf_ncomp _ _ HWF) as [Hnc _].
    destruct (wf_narch _ _ HWF) as [Hna _].
    destruct Hsig as [Hnd Hreg].
    destruct (world_add_entity_archetypes w live cs w' e HWF Hadd)
      as (archs2 & a & arch & arch' & Hcase & Hlk & Hcomps & Hsize & Hput
          & -> & _ & -> & _).
    assert (Shape (number_of_components w) archs2) as Hshape2.
    { destruct Hcase as [->|(ch0 & Hinit & Harch0 & -> & -> & Hnew)];
        [done|].
      destruct (archetype_data_chunk_init_table _ _ _ _ _ Hinit)
        as [Htab _]; [lia|].
      apply Shape_append; try done; rewrite Harch0; simpl; try done.
      - by apply qsort_strictly_ascending.
      - by constructor. }
    pose proof (zlookup_Forall _ _ _ _ (shape_chunks _ _ Hshape2) Hlk) as Hn.
    pose proof (zlookup_Forall _ _ _ _ (shape_tables _ _ Hshape2) Hlk)
      as Htabs.
    simpl in Hn, Htabs.
    apply (Shape_update _ _ _ arch); try done.
    + by destruct Hput as [(? & ? & ? & _ & ->)|(? & ? & _ & ->)].
    + by destruct Hput as [(? & ? & ? & _ & ->)|(? & ? & _ & ->)].
    + destruct Hput as [(? & ? & ? & _ & ->)|(? & ? & _ & ->)]; simpl; lia.
    + destruct Hput as [(j & ch & ids & Hch & ->)|(ch0 & ids & Hinit & ->)];
        simpl.
      * apply Forall_insert; [done|].
        apply table_ok_same with ch; [done|].
        by eapply zlookup_Forall.
      * apply Forall_app. split; [done|]. constructor; [|done].
        destruct (archetype_data_chunk_init_table _ _ _ _ _ Hinit)
          as [Htab _]; [lia|].
        by apply table_ok_same with ch0.
  - pose proof (reachable_WF _ _ Hreach) as HWF.
    destruct (world_remove_entity_spec w live e HWF He)
      as (w0 & a & c & r & arch & ch & ch' & Hrun & _ & Harch & Hch & _ & _
          & _ & _ & _ & _ & Hnc & _ & _ & _ & _ & Harchs' & _ & Hlast
          & Hswap & _).
    rewrite Hrem in Hrun. injection Hrun as <-.
    rewrite Harchs', Hnc.
    pose proof (zlookup_Forall _ _ _ _ (shape_chunks _ _ IH) Harch) as Hn.
    pose proof (zlookup_Forall _ _ _ _ (shape_tables _ _ IH) Harch) as Htabs.
    pose proof (zlookup_Forall _ _ _ _ (wf_registered _ _ HWF) Harch)
      as Hreg.
    simpl in *.
    apply (Shape_update _ _ _ arch); try done. simpl.
    apply Forall_insert; [done|].
    pose proof (zlookup_Forall _ _ _ _ Htabs Hch) as Htab.
    destruct (decide (r = dense_arrays_length ch - 1)) as [Hrl|Hrl].
    + destruct (Hlast Hrl) as (_ & Hcfa & _). by apply table_ok_same with ch.
    + destruct (Hswap Hrl) as (last_e & _ & _ & _ & _ & [Hsame _] & _).
      by apply table_ok_update with ch.
  - pose proof (reachable_WF _ _ Hreach) as HWF.
    destruct (write_field_inv _ _ _ _ _ _ Hw)
      as (p & cd & fs & _ & _ & _ & _ & Hst).
    destruct (store_bytes_inv _ _ _ _ Hst)
      as (arch & ch & cols & col & Harch & Hch & Hcols & Hcol & _ & _ & ->).
    simpl.
    pose proof (zlookup_Forall _ _ _ _ (shape_chunks _ _ IH) Harch) as Hn.
    pose proof (zlookup_Forall _ _ _ _ (shape_tables _ _ IH) Harch) as Htabs.
    pose proof (zlookup_Forall _ _ _ _ (wf_registered _ _ HWF) Harch)
      as Hreg.
    simpl in *.
    apply (Shape_update _ _ _ arch); try done. simpl.
    apply Forall_insert; [done|].
    pose proof (zlookup_Forall _ _ _ _ Htabs Hch) as Htab.
    apply table_ok_update with ch; [done| |done]. simpl.
    intros j Hj. pose proof (zlookup_lt _ _ _ Hcols) as Hk.
    eapply zlookup_zstore_ne; [by apply zstore_is_Some|].
    intros ->. destruct Htab as [_ Hnull].
    rewrite Hnull in Hcols by done. done.
Qed.

(** ** Lookups by location *)

(** The result of [world_get_component_field] is a function of the triple
    the sparse index holds for the id, whether the id is live or not. *)
Lemma world_get_component_field_at w live e a c r arch ch k f :
  WF w live → sparse_get w e = Some (a, c, r) →
  zlookup (archetypes w) a = Some arch →
  zlookup (chunks arch) c = Some ch →
  0 ≤ r < dense_array_chunk_size w → 0 ≤ f →
  world_get_component_field w e k f
  = Some (w,
          if decide (k ∈ components arch) then
            fs ← zlookup (all_components_data w) k
                 ≫= (λ cd, zlookup (field_sizes cd) f);
            Some (mkFieldPtr a c k f (r * fs))
          else None).
Proof.
  intros [Hsz [Hnc Hncb] Hcomps [Hna Hnab] Harchs Hregd Hnsp Hsp
            _ Hlive Hrows] Hsp_e Harch Hch Hr Hf.
  destruct Hsz as (Hssz & Hdsz & Hdsz').
  destruct (zlookup_Forall _ _ _ _ Harchs Harch)
    as (Hanc & Hand & Hacs & Han & Hanb & Hachunks).
  destruct (zlookup_Forall _ _ _ _ Hachunks Hch)
    as (Hidlen & Hlenb & Hsome & Hcols).
  assert (e / sparse_array_chunk_size w < sparse_array_number_of_chunks w)
    as Hrange.
  { apply sparse_get_Some in Hsp_e as (_ & sc & Hsc%zlookup_lt & _). lia. }
  unfold world_get_component_field.
  rewrite option_guard_True by lia. rewrite decide_False by lia.
  rewrite Hsp_e. simpl. rewrite Harch. simpl.
  rewrite archetype_has_component_spec by lia. simpl.
  destruct (decide (k ∈ components arch)) as [Hk|Hk].
  2: { by rewrite bool_decide_eq_false_2. }
  rewrite bool_decide_eq_true_2 by done.
  rewrite Forall_forall in Hcols.
  destruct (Hcols k Hk) as (cd & cols & Hcd & Hcolsk & Hshape).
  destruct (zlookup_Forall _ _ _ _ Hcomps Hcd) as (Hnf & _ & Hfsb).
  rewrite Hcd. simpl.
  destruct (decide (number_of_fields cd ≤ f)) as [Hge|Hlt].
  { by rewrite zlookup_None by lia. }
  destruct (zlookup_is_Some (field_sizes cd) f) as [fs Hfs]; [lia|].
  pose proof (zlookup_Forall _ _ _ _ Hfsb Hfs) as Hfsr. simpl in Hfsr.
  rewrite Hch. simpl. rewrite Hfs. simpl. rewrite Hcolsk. simpl.
  destruct (zlookup_is_Some cols f) as [col ->].
  { rewrite <- (Forall2_length _ _ _ Hshape). lia. }
  simpl. rewrite wrap32_small; [done|].
  pose proof (row_offset_bounds (dense_array_chunk_size w) r fs). lia.
Qed.


(** X1.  The id stack partitions the ids below its capacity: in every
    reachable world the top index is the number of live entities, and the
    live ids together with the ids in the free cells [ids[top .. capacity)]
    are exactly [0, 1, ..., capacity - 1], each once.  So live ids are
    pairwise distinct and below the capacity, and no free cell holds a
    live id. *)
Theorem id_stack_partitions_ids w live :
  reachable w live →
  id_stack_top_index w = Z.of_nat (length live) ∧
  ∃ free : list Z,
    free_ids w = Some <$> free ∧
    live ++ free ≡ₚ seqZ 0 (id_stack_capacity w).
Proof.
  intros Hreach. apply reachable_WF in Hreach.
  destruct (wf_stack _ _ Hreach)
    as (hw & (vals & Hids & Hcap & Hcapb & Htop & Hhw & Hlive & Hlow & Hseed
              & Hnd) & _).
  split; [done|]. exists (drop (length live) vals). split.
  { unfold free_ids. rewrite Hids, Htop, Nat2Z.id. by rewrite fmap_drop. }
  apply submseteq_length_Permutation.
  - apply NoDup_submseteq; [done|]. intros x Hx. apply elem_of_seqZ.
    apply elem_of_app in Hx as [Hx|Hx].
    + rewrite Forall_forall in Hlive. specialize (Hlive x Hx). lia.
    + apply list_elem_of_lookup_1 in Hx as [i Hi].
      rewrite lookup_drop in Hi.
      assert (zlookup vals (Z.of_nat (length live + i)) = Some x) as Hz
        by (by rewrite zlookup_nat).
      pose proof (zlookup_lt _ _ _ Hz) as Hlt.
      destruct (decide (Z.of_nat (length live + i) < hw)) as [Hi'|Hi'].
      * pose proof (Hlow (Z.of_nat (length live + i)) x ltac:(lia) Hz). lia.
      * rewrite Hseed in Hz by lia. injection Hz as <-. lia.
  - rewrite length_seqZ, length_app, length_drop. lia.
Qed.

Lemma id_stack_partitions_ids_witness :
  reachable example_world example_live ∧
  id_stack_top_index example_world = Z.of_nat (length example_live) ∧
  ∃ free : list Z,
    free_ids example_world = Some <$> free ∧
    example_live ++ free ≡ₚ seqZ 0 (id_stack_capacity example_world).
Proof.
  split; [exact example_reachable|].
  exact (id_stack_partitions_ids example_world example_live
           example_reachable).
Defined.



(** ** Lookups through a dead id *)

Lemma world_remove_entity_dead_id w live e w' :
  WF w live → e ∈ live → world_remove_entity w e = Some w' →
  ∃ a c r arch ch arch' ch',
    sparse_get w e = Some (a, c, r) ∧ sparse_get w' e = Some (a, c, r) ∧
    zlookup (archetypes w) a = Some arch ∧
    zlookup (chunks arch) c = Some ch ∧
    zlookup (archetypes w') a = Some arch' ∧
    components arch' = components arch ∧
    zlookup (chunks arch') c = Some ch' ∧
    0 ≤ r < dense_array_chunk_size w ∧
    all_components_data w' = all_components_data w ∧
    dense_array_chunk_size w' = dense_array_chunk_size w ∧
    WF w' (filter (λ x, x ≠ e) live).
Proof.
  intros HWF He Hrem.
  destruct (world_remove_entity_spec w live e HWF He)
    as (w0 & a & c & r & arch & ch & ch' & Hrun & Hsp & Harch & Hch & Hr
        & _ & _ & _ & _ & Hall & _ & _ & Hssz & Hdsz & _ & Harchs' & Hlen'
        & Hlast & Hswap & HWF').
  rewrite Hrem in Hrun. injection Hrun as <-.
  pose proof (zlookup_lt _ _ _ Harch) as Ha.
  pose proof (zlookup_lt _ _ _ Hch) as Hc.
  assert (dense_arrays_length ch ≤ dense_array_chunk_size w) as Hlen.
  { pose proof (zlookup_Forall _ _ _ _ (wf_archs _ _ HWF) Harch)
      as (_ & _ & _ & _ & _ & Hchunks).
    pose proof (zlookup_Forall _ _ _ _ Hchunks Hch) as (_ & ? & _). lia. }
  exists a, c, r, arch, ch,
    (set_chunks arch (<[Z.to_nat c := ch']> (chunks arch))
       (number_of_chunks arch)), ch'.
  assert (sparse_get w' e = Some (a, c, r)) as Hsp'.
  { destruct (decide (r = dense_arrays_length ch - 1)) as [Hrl|Hrl].
    - destruct (Hlast Hrl) as (_ & _ & Hsame).
      rewrite <- Hsp. by apply sparse_get_frame.
    - destruct (Hswap Hrl) as (last_e & _ & Hne & _ & _ & _ & _ & _ & Hother).
      rewrite <- Hsp. apply Hother. by intros ->. }
  split_and!; try done; try lia.
  - rewrite Harchs'. by eapply zlookup_zstore_eq, zstore_is_Some.
  - simpl. by eapply zlookup_zstore_eq, zstore_is_Some.
Qed.

(** X3.  [world_remove_entity] does not invalidate the removed id: its
    sparse triple is left as it was, so [world_get_component_field] with
    the dead id returns the same result (NULL or the very same address) as
    before the removal.  When the removal moved another entity into the
    freed row, the dead id and the moved entity read the same bytes. *)
Theorem removed_id_keeps_its_location w live e w' k f :
  reachable w live → e ∈ live → world_remove_entity w e = Some w' → 0 ≤ f →
  sparse_get w' e = sparse_get w e ∧
  snd <$> world_get_component_field w' e k f
  = snd <$> world_get_component_field w e k f ∧
  ∀ e', e' ∈ live → e' ≠ e → sparse_get w' e' = sparse_get w' e →
        read_field w' e k f = read_field w' e' k f.
Proof.
  intros Hreach He Hrem Hf. apply reachable_WF in Hreach.
  destruct (world_remove_entity_dead_id w live e w' Hreach He Hrem)
    as (a & c & r & arch & ch & arch' & ch' & Hsp & Hsp' & Harch & Hch
        & Harch' & Hcomps & Hch' & Hr & Hall & Hdsz & HWF').
  assert (∀ e', sparse_get w' e' = Some (a, c, r) →
            world_get_component_field w' e' k f
            = Some (w',
                    if decide (k ∈ components arch) then
                      fs ← zlookup (all_components_data w) k
                           ≫= (λ cd, zlookup (field_sizes cd) f);
                      Some (mkFieldPtr a c k f (r * fs))
                    else None)) as Hget'.
  { intros e' He'.
    rewrite (world_get_component_field_at w' _ e' a c r arch' ch' k f HWF');
      try done; [|lia].
    by rewrite Hcomps, Hall. }
  split_and!.
  - by rewrite Hsp, Hsp'.
  - rewrite (Hget' e Hsp').
    by rewrite (world_get_component_field_at w live e a c r arch ch k f).
  - intros e' _ _ Heq. rewrite Hsp' in Heq. unfold read_field.
    by rewrite (Hget' e Hsp'), (Hget' e' Heq).
Qed.

Lemma removed_id_keeps_its_location_witness :
  reachable example_world example_live ∧ 0 ∈ example_live ∧
  ∃ w', world_remove_entity example_world 0 = Some w' ∧
    sparse_get w' 0 = sparse_get example_world 0 ∧
    snd <$> world_get_component_field w' 0 1 0
    = snd <$> world_get_component_field example_world 0 1 0 ∧
    (3 ∈ example_live → 3 ≠ 0 → sparse_get w' 3 = sparse_get w' 0 →
     read_field w' 0 1 0 = read_field w' 3 1 0).
Proof.
  assert (0 ∈ example_live) as He by (apply elem_of_by_compute; reflexivity).
  split; [exact example_reachable|]. split; [exact He|].
  destruct (world_remove_entity example_world 0) as [w'|] eqn:Hrem;
    [|vm_compute in Hrem; discriminate Hrem].
  exists w'. split; [reflexivity|].
  destruct (removed_id_keeps_its_location example_world example_live 0 w'
              1 0 example_reachable He Hrem ltac:(lia))
    as (Hsp & Hget & Halias).
  split; [exact Hsp|]. split; [exact Hget|]. exact (Halias 3).
Defined.

(** ** Removing an id twice *)

(** What [world_remove_entity] does to the id stack, whenever it
    returns. *)
Lemma world_remove_entity_stack w e w' :
  world_remove_entity w e = Some w' →
  astore (id_stack_ids w) (wrap32 (id_stack_top_index w - 1)) e
  = Some (id_stack_ids w') ∧
  id_stack_capacity w' = id_stack_capacity w ∧
  id_stack_top_index w' = wrap32 (id_stack_top_index w - 1).
Proof.
  unfold world_remove_entity. intros H.
  destruct (astore (id_stack_ids w) _ e) as [ids|]; [|done]. simpl in H.
  repeat (case_guard; simpl in H); try done.
  destruct (sparse_get _ e) as [[[a c] r]|]; [|done]. simpl in H.
  destruct (zlookup _ a) as [arch|]; [|done]. simpl in H.
  destruct (zlookup (chunks arch) c) as [ch|]; [|done]. simpl in H.
  case_decide.
  - repeat match type of H with
           | (?m ≫= _) = _ => destruct m; [|done]; simpl in H
           end.
    by injection H as <-.
  - repeat match type of H with
           | (?m ≫= _) = _ => destruct m; [|done]; simpl in H
           end.
    by injection H as <-.
Qed.

(** X4.  A second [world_remove_entity] on the same id is not detected:
    whenever it returns, the id lies twice on the free stack and the top
    index is two below the former number of live entities, so the next two
    allocations both return that id. *)
Theorem double_remove_duplicates_id w live e w1 w2 :
  reachable w live → e ∈ live →
  world_remove_entity w e = Some w1 →
  world_remove_entity w1 e = Some w2 →
  id_stack_top_index w2 = Z.of_nat (length live) - 2 ∧
  free_ids w2 = Some e :: Some e :: free_ids w ∧
  ∃ w3 w4, id_stack_pop w2 = Some (w3, e) ∧ id_stack_pop w3 = Some (w4, e).
Proof.
  intros Hreach He Hrem1 Hrem2. apply reachable_WF in Hreach.
  destruct (wf_stack _ _ Hreach)
    as (hw & (vals & Hids & Hcap & Hcapb & Htop & Hhw & _) & _).
  destruct (world_remove_entity_stack _ _ _ Hrem1) as (Hst1 & Hcap1 & Htop1).
  destruct (world_remove_entity_stack _ _ _ Hrem2) as (Hst2 & Hcap2 & Htop2).
  assert (Z.of_nat (length (id_stack_ids w)) = id_stack_capacity w) as Hlen
    by (by rewrite Hids, length_fmap).
  apply astore_Some in Hst1 as [Hb1 Hids1].
  assert (1 ≤ id_stack_top_index w) as Hge1.
  { destruct (decide (1 ≤ id_stack_top_index w)) as [|Hlt]; [done|].
    exfalso. replace (id_stack_top_index w) with 0 in Hb1 by lia.
    change (wrap32 (0 - 1)) with (2 ^ 32 - 1) in Hb1. lia. }
  rewrite wrap32_small in Htop1, Hids1 by lia.
  apply astore_Some in Hst2 as [Hb2 Hids2].
  rewrite Hids1, length_insert in Hb2. rewrite Htop1 in Hb2, Htop2, Hids2.
  assert (2 ≤ id_stack_top_index w) as Hge2.
  { destruct (decide (2 ≤ id_stack_top_index w)) as [|Hlt]; [done|].
    exfalso. replace (id_stack_top_index w) with 1 in Hb2 by lia.
    change (wrap32 (1 - 1 - 1)) with (2 ^ 32 - 1) in Hb2. lia. }
  rewrite wrap32_small in Htop2, Hids2 by lia.
  assert (free_ids w2 = Some e :: Some e :: free_ids w) as Hfree.
  { unfold free_ids. rewrite Htop2, Hids2, Hids1.
    rewrite (drop_S _ (Some e) (Z.to_nat (id_stack_top_index w - 1 - 1))).
    2: { apply list_lookup_insert_eq. rewrite length_insert. lia. }
    rewrite drop_insert_lt by lia.
    rewrite (drop_S _ (Some e) (S (Z.to_nat (id_stack_top_index w - 1 - 1)))).
    2: { replace (S (Z.to_nat (id_stack_top_index w - 1 - 1)))
           with (Z.to_nat (id_stack_top_index w - 1)) by lia.
         apply list_lookup_insert_eq. lia. }
    rewrite drop_insert_lt by lia. do 3 f_equal. lia. }
  split_and!; [lia|done|].
  (* the two pops *)
  assert (∀ w0 rest,
            free_ids w0 = Some e :: rest →
            0 ≤ id_stack_top_index w0 →
            id_stack_top_index w0 + 1 < 2 ^ 32 →
            Z.of_nat (length (id_stack_ids w0)) ≤ id_stack_capacity w0 →
            ∃ w0', id_stack_pop w0 = Some (w0', e) ∧
                   free_ids w0' = rest ∧
                   id_stack_top_index w0' = id_stack_top_index w0 + 1 ∧
                   id_stack_ids w0' = id_stack_ids w0 ∧
                   id_stack_capacity w0' = id_stack_capacity w0) as Hpop.
  { intros w0 rest Hfree0 Htop0 Htopb Hlen0.
    assert (id_stack_ids w0 !! Z.to_nat (id_stack_top_index w0)
            = Some (Some e)) as Hlk.
    { unfold free_ids in Hfree0.
      rewrite <- (Nat.add_0_r (Z.to_nat _)), <- lookup_drop.
      by rewrite Hfree0. }
    pose proof (lookup_lt_Some _ _ _ Hlk) as Hlt.
    unfold id_stack_pop. rewrite decide_False by lia.
    unfold aload, zlookup. rewrite decide_True by lia. rewrite Hlk. simpl.
    eexists. split; [done|]. simpl. rewrite wrap32_small by lia.
    split_and!; try done.
    unfold free_ids in *. simpl.
    rewrite (drop_S _ _ _ Hlk) in Hfree0. injection Hfree0 as <-.
    f_equal. lia. }
  destruct (Hpop w2 (Some e :: free_ids w) Hfree)
    as (w3 & Hpop3 & Hfree3 & Htop3 & Hids3 & Hcap3);
    [lia|lia| |].
  { rewrite Hids2, Hids1, !length_insert. lia. }
  destruct (Hpop w3 (free_ids w) Hfree3) as (w4 & Hpop4 & _);
    [lia|lia| |].
  { rewrite Hids3, Hcap3, Hids2, Hids1, !length_insert. lia. }
  by exists w3, w4.
Qed.

Lemma double_remove_duplicates_id_witness :
  reachable example_world example_live ∧ 0 ∈ example_live ∧
  ∃ w1 w2,
    world_remove_entity example_world 0 = Some w1 ∧
    world_remove_entity w1 0 = Some w2 ∧
    id_stack_top_index w2 = Z.of_nat (length example_live) - 2 ∧
    free_ids w2 = Some 0 :: Some 0 :: free_ids example_world.
Proof.
  assert (0 ∈ example_live) as He by (apply elem_of_by_compute; reflexivity).
  split; [exact example_reachable|]. split; [exact He|].
  destruct (world_remove_entity example_world 0) as [w1|] eqn:Hrem1;
    [|vm_compute in Hrem1; discriminate Hrem1].
  destruct (world_remove_entity w1 0) as [w2|] eqn:Hrem2.
  2: { vm_compute in Hrem1. injection Hrem1 as <-. vm_compute in Hrem2.
       discriminate Hrem2. }
  exists w1, w2. split; [reflexivity|]. split; [exact Hrem2|].
  destruct (double_remove_duplicates_id example_world example_live 0 w1 w2
              example_reachable He Hrem1 Hrem2) as (Htop & Hfree & _).
  split; [exact Htop|exact Hfree].
Defined.

(** ** Removing from a world without entities *)

(** X5.  [world_remove_entity] does not check that an entity exists: in
    a world without live entities the top index is 0, the pre-decrement
    wraps it to [2^32 - 1], and the store of the id goes past the end of
    the id stack, whatever the id. *)
Theorem world_remove_entity_without_entities w e :
  reachable w [] → world_remove_entity w e = None.
Proof.
  intros Hreach. apply reachable_WF in Hreach.
  destruct (wf_stack _ _ Hreach)
    as (hw & (vals & Hids & Hcap & Hcapb & Htop & _) & _).
  change (Z.of_nat (length [])) with 0 in Htop.
  unfold world_remove_entity. rewrite Htop.
  destruct (astore (id_stack_ids w) (wrap32 (0 - 1)) e) as [ids|] eqn:Hst;
    [|done].
  apply astore_Some in Hst as [Hlt _]. rewrite Hids, length_fmap in Hlt.
  change (wrap32 (0 - 1)) with (2 ^ 32 - 1) in Hlt. lia.
Qed.

Lemma world_remove_entity_without_entities_witness :
  reachable (world_create 4 4 1) [] ∧
  world_remove_entity (world_create 4 4 1) 0 = None.
Proof.
  assert (reachable (world_create 4 4 1) []) as Hreach
    by (apply reach_create; unfold create_legal; lia).
  split; [exact Hreach|].
  exact (world_remove_entity_without_entities (world_create 4 4 1) 0 Hreach).
Defined.

(** ** Fresh worlds and degenerate sizes *)

(** X6.  On a freshly created world [world_get_component_field] returns
    NULL only for ids beyond the pre-allocated sparse range.  For an id
    inside the range (no entity exists yet) it reads the sparse cells
    [malloc] left uninitialised. *)
Theorem fresh_world_lookup d s n e k f :
  0 < s → 0 ≤ n → 0 ≤ e →
  world_get_component_field (world_create d s n) e k f
  = if decide (e < s * n) then None
    else Some (world_create d s n, None).
Proof.
  intros Hs Hn He. unfold world_get_component_field. simpl.
  rewrite option_guard_True by lia. simpl.
  assert (e / s < n ↔ e < s * n) as Hdiv.
  { split; [|intros; apply Z.div_lt_upper_bound; lia].
    intros. pose proof (Z.mul_succ_div_gt e s Hs). nia. }
  destruct (decide (e < s * n)) as [Hin|Hout].
  - rewrite decide_False by lia.
    unfold sparse_get. simpl. rewrite option_guard_True by lia. simpl.
    assert (zlookup (replicate (Z.to_nat n) (sparse_array_chunk_init s))
              (e / s) = Some (sparse_array_chunk_init s)) as ->.
    { apply zlookup_Some. split; [apply Z.div_pos; lia|].
      apply lookup_replicate_2.
      assert (0 ≤ e / s) by (apply Z.div_pos; lia). lia. }
    simpl.
    assert (aload (malloc s : array Z) (e mod s) = None) as ->; [|done].
    unfold aload, malloc, zlookup.
    pose proof (Z.mod_pos_bound e s Hs).
    rewrite decide_True by lia.
    rewrite lookup_replicate_2 by lia. done.
  - by rewrite decide_True by lia.
Qed.

Lemma fresh_world_lookup_witness :
  0 < 4 ∧ 0 ≤ 1 ∧ 0 ≤ 2 ∧
  world_get_component_field (world_create 4 4 1) 2 0 0
  = if decide (2 < 4 * 1) then None else Some (world_create 4 4 1, None).
Proof.
  split; [lia|]. split; [lia|]. split; [lia|].
  apply (fresh_world_lookup 4 4 1 2 0 0); lia.
Defined.

(** With a chunk size of zero the id array of a new chunk is empty. *)
Lemma archetype_add_entity_no_room arch e nall all :
  chunk_size arch = 0 →
  Forall (λ ch, 0 ≤ dense_arrays_length ch) (chunks arch) →
  archetype_add_entity arch e nall all = None.
Proof.
  intros Hsize Hlens. unfold archetype_add_entity.
  assert (∀ fuel i, archetype_scan arch e fuel i = Some None
                    ∨ archetype_scan arch e fuel i = None) as Hscan.
  { induction fuel as [|fuel IH]; intros i; simpl; [by left|].
    destruct (zlookup (chunks arch) i) as [ch|] eqn:Hch; [|by right].
    simpl. pose proof (zlookup_Forall _ _ _ _ Hlens Hch) as Hlen.
    simpl in Hlen. rewrite decide_False by lia. apply IH. }
  destruct (Hscan (Z.to_nat (number_of_chunks arch)) 0) as [->| ->];
    [|done].
  simpl. unfold archetype_data_chunk_init. rewrite Hsize.
  destruct (init_columns _ _ _ _); [|done]. done.
Qed.

(** X7.  Degenerate chunk sizes.  A world created with a sparse chunk
    size of zero has an id stack of capacity zero, which doubling does not
    grow, and a world created with a dense chunk size of zero gets chunks
    whose id array is empty.  Whatever component types are registered, no
    call of [world_add_entity] returns an entity: the read of the id, or
    the store of the id into row 0 of a fresh chunk, is out of bounds. *)
Theorem zero_chunk_size_world_is_unusable d s n fss cs :
  world_add_entity (register_all (world_create d 0 n) fss).1 cs = None ∧
  world_add_entity (register_all (world_create 0 s n) fss).1 cs = None.
Proof.
  assert (∀ w,
    let w' := (register_all w fss).1 in
    archetypes w' = archetypes w ∧
    id_stack_ids w' = id_stack_ids w ∧
    id_stack_capacity w' = id_stack_capacity w ∧
    id_stack_top_index w' = id_stack_top_index w ∧
    dense_array_chunk_size w' = dense_array_chunk_size w ∧
    number_of_archetypes w' = number_of_archetypes w) as Hreg.
  { induction fss as [|fs fss IH] using rev_ind; intros w; [done|].
    rewrite register_all_snoc. simpl. apply IH. }
  split.
  - destruct (Hreg (world_create d 0 n)) as (_ & Hids & Hcap & Htop & _).
    simpl in *. unfold world_add_entity, id_stack_pop.
    rewrite Hcap, Htop. rewrite decide_True by lia. simpl. done.
  - destruct (Hreg (world_create 0 s n)) as (Harchs & _ & _ & _ & Hdsz & Hna).
    simpl in *. unfold world_add_entity.
    destruct (id_stack_pop _) as [[w1 id]|] eqn:Hpop; [|done]. simpl.
    destruct (id_stack_pop_frame _ _ _ Hpop)
      as (Harchs1 & _ & _ & _ & _ & Hdsz1 & Hna1 & _).
    unfold world_match_archetype. rewrite Hna1, Hna. simpl.
    destruct (world_add_archetype w1 _) as [[w2 a]|] eqn:Hwa; [|done].
    simpl.
    destruct (world_add_archetype_inv _ _ _ _ Hwa) as (ch0 & Hinit & -> & ->).
    { by rewrite Hna1, Hna, Harchs1, Harchs. }
    simpl. rewrite Harchs1, Harchs, Hna1, Hna. simpl.
    rewrite archetype_add_entity_no_room; [done|simpl; congruence|].
    simpl. constructor; [|done].
    unfold archetype_data_chunk_init in Hinit.
    destruct (init_columns _ _ _ _); [|done]. simpl in Hinit.
    injection Hinit as <-. done.
Qed.

(** ** Writes through field pointers *)



(** ** Adding an entity leaves the others alone *)




(** ** Adding an entity and removing it again *)




(** ** Invariants of the archetype array *)

(** X11.  Archetype uniqueness: in every reachable world two different
    archetype ids never have the same component list. *)
Theorem archetype_signatures_are_unique w live a a' arch arch' :
  reachable w live →
  zlookup (archetypes w) a = Some arch →
  zlookup (archetypes w) a' = Some arch' →
  a ≠ a' → components arch ≠ components arch'.
Proof.
  intros Hreach Ha Ha' Hne Heq. apply reachable_Shape in Hreach.
  pose proof (shape_unique _ _ Hreach) as Hnd.
  apply zlookup_Some in Ha as [? Ha]. apply zlookup_Some in Ha' as [? Ha'].
  assert (Z.to_nat a = Z.to_nat a'); [|lia].
  apply (NoDup_lookup _ _ _ (components arch) Hnd).
  - by rewrite list_lookup_fmap, Ha.
  - by rewrite list_lookup_fmap, Ha', Heq.
Qed.

Lemma archetype_signatures_are_unique_witness :
  reachable example_world example_live ∧
  ∃ arch arch',
    zlookup (archetypes example_world) 0 = Some arch ∧
    zlookup (archetypes example_world) 1 = Some arch' ∧
    0 ≠ 1 ∧ components arch ≠ components arch'.
Proof.
  split; [exact example_reachable|].
  destruct (zlookup (archetypes example_world) 0) as [arch|] eqn:Ha;
    [|vm_compute in Ha; discriminate Ha].
  destruct (zlookup (archetypes example_world) 1) as [arch'|] eqn:Ha';
    [|vm_compute in Ha'; discriminate Ha'].
  assert (0 ≠ 1) as Hne by lia.
  exists arch, arch'. split; [reflexivity|]. split; [reflexivity|].
  split; [exact Hne|].
  exact (archetype_signatures_are_unique example_world example_live 0 1
           arch arch' example_reachable Ha Ha' Hne).
Defined.

(** X12.  Canonical signatures: in every reachable world the component
    list of every archetype is strictly ascending and holds registered
    ids only, the stored component count is its length, the stored
    archetype id is the archetype's index, the chunk size is the world's
    dense chunk size, and the archetype has at least one chunk. *)
Theorem archetype_signatures_are_canonical w live a arch :
  reachable w live → zlookup (archetypes w) a = Some arch →
  StronglySorted Z.lt (components arch) ∧
  Forall (λ k, 0 ≤ k < number_of_components w) (components arch) ∧
  arch_number_of_components arch = Z.of_nat (length (components arch)) ∧
  archetype_id arch = a ∧
  chunk_size arch = dense_array_chunk_size w ∧
  number_of_chunks arch = Z.of_nat (length (chunks arch)) ∧
  1 ≤ number_of_chunks arch.
Proof.
  intros Hreach Ha. pose proof (reachable_WF _ _ Hreach) as HWF.
  apply reachable_Shape in Hreach.
  destruct (zlookup_Forall _ _ _ _ (wf_archs _ _ HWF) Ha)
    as (Hnc & _ & Hcs & Hn & _ & _).
  split_and!; try done.
  - by eapply (zlookup_Forall _ _ _ _ (shape_sorted _ _ Hreach)).
  - by eapply (zlookup_Forall _ _ _ _ (wf_registered _ _ HWF)).
  - by eapply shape_ids.
  - by eapply (zlookup_Forall _ _ _ _ (shape_chunks _ _ Hreach)).
Qed.

Lemma archetype_signatures_are_canonical_witness :
  reachable example_world example_live ∧
  zlookup (archetypes example_world) 0 = Some example_archetype ∧
  StronglySorted Z.lt (components example_archetype) ∧
  archetype_id example_archetype = 0.
Proof.
  assert (zlookup (archetypes example_world) 0 = Some example_archetype)
    as Ha by (vm_compute; reflexivity).
  split; [exact example_reachable|]. split; [exact Ha|].
  destruct (archetype_signatures_are_canonical example_world example_live 0
              example_archetype example_reachable Ha)
    as (Hs & _ & _ & Hid & _).
  split; [exact Hs|exact Hid].
Defined.

(** X13.  Column existence: in every reachable world the column table of
    every chunk has at most one entry per registered component type; an
    entry is non-NULL iff its component belongs to the archetype, and then
    it holds one column per field, of [field_size * chunk_size] bytes. *)
Theorem column_tables_match_signature w live a arch c ch :
  reachable w live →
  zlookup (archetypes w) a = Some arch →
  zlookup (chunks arch) c = Some ch →
  Z.of_nat (length (component_field_arrays ch)) ≤ number_of_components w ∧
  (∀ k o, zlookup (component_field_arrays ch) k = Some o →
          (is_Some o ↔ k ∈ components arch)) ∧
  (∀ k, k ∈ components arch →
     ∃ cd cols,
       zlookup (all_components_data w) k = Some cd ∧
       zlookup (component_field_arrays ch) k = Some (Some cols) ∧
       Forall2 (λ fs (col : array byte),
                  Z.of_nat (length col) = fs * dense_array_chunk_size w)
         (field_sizes cd) cols).
Proof.
  intros Hreach Ha Hc. pose proof (reachable_WF _ _ Hreach) as HWF.
  apply reachable_Shape in Hreach.
  pose proof (zlookup_Forall _ _ _ _ (shape_tables _ _ Hreach) Ha) as Htabs.
  destruct (zlookup_Forall _ _ _ _ Htabs Hc) as [Hlen Hnull].
  destruct (zlookup_Forall _ _ _ _ (wf_archs _ _ HWF) Ha)
    as (_ & _ & _ & _ & _ & Hchunks).
  destruct (zlookup_Forall _ _ _ _ Hchunks Hc) as (_ & _ & _ & Hcols).
  rewrite Forall_forall in Hcols.
  split_and!; [done| |exact Hcols].
  intros k o Hk. split.
  - intros [cols ->]. destruct (decide (k ∈ components arch)); [done|].
    rewrite Hnull in Hk; [done..|]. by apply zlookup_lt in Hk.
  - intros Hin. destruct (Hcols k Hin) as (cd & cols & _ & Hk' & _).
    rewrite Hk in Hk'. injection Hk' as ->. by eexists.
Qed.

Lemma column_tables_match_signature_witness :
  reachable example_world example_live ∧
  ∃ arch ch,
    zlookup (archetypes example_world) 1 = Some arch ∧
    zlookup (chunks arch) 0 = Some ch ∧
    Z.of_nat (length (component_field_arrays ch))
    ≤ number_of_components example_world ∧
    (∀ k o, zlookup (component_field_arrays ch) k = Some o →
            (is_Some o ↔ k ∈ components arch)).
Proof.
  split; [exact example_reachable|].
  destruct (zlookup (archetypes example_world) 1) as [arch|] eqn:Ha;
    [|vm_compute in Ha; discriminate Ha].
  destruct (zlookup (chunks arch) 0) as [ch|] eqn:Hc.
  2: { vm_compute in Ha. injection Ha as <-. vm_compute in Hc.
       discriminate Hc. }
  exists arch, ch. split; [reflexivity|]. split; [exact Hc|].
  destruct (column_tables_match_signature example_world example_live 1 arch
              0 ch example_reachable Ha Hc) as (Hlen & Hiff & _).
  split; [exact Hlen|exact Hiff].
Defined.

(** ** The rows in use *)

Lemma omap_length_Some {A B} (f : A → option B) (l : list A) :
  Forall (λ x, is_Some (f x)) l → length (omap f l) = length l.
Proof.
  induction 1 as [|x l [y Hy] _ IH]; simpl; [done|].
  rewrite Hy. simpl. by f_equal.
Qed.

Lemma omap_None {A B} (f : A → option B) (l : list A) :
  Forall (λ x, f x = None) l → omap f l = [].
Proof. induction 1 as [|x l Hx _ IH]; simpl; [done|]. by rewrite Hx. Qed.

Lemma length_rows_of_chunk w live a arch c ch :
  WF w live →
  zlookup (archetypes w) a = Some arch →
  zlookup (chunks arch) c = Some ch →
  Z.of_nat (length (rows_of_chunk w (a, c))) = dense_arrays_length ch.
Proof.
  intros HWF Ha Hc. unfold rows_of_chunk. simpl.
  destruct (zlookup_Forall _ _ _ _ (wf_archs _ _ HWF) Ha)
    as (_ & _ & _ & _ & _ & Hchunks).
  destruct (zlookup_Forall _ _ _ _ Hchunks Hc) as (_ & Hlen & Hsome & _).
  replace (dense_array_chunk_size w)
    with (dense_arrays_length ch
          + (dense_array_chunk_size w - dense_arrays_length ch)) by lia.
  rewrite seqZ_app by lia. rewrite omap_app, length_app.
  rewrite omap_length_Some, length_seqZ.
  - rewrite (omap_None _ (seqZ _ _)); [simpl; lia|].
    apply Forall_seqZ. intros r Hr. unfold row_at, chunks_row.
    rewrite Ha. simpl. rewrite Hc. simpl. unfold chunk_row.
    by rewrite option_guard_False by lia.
  - apply Forall_seqZ. intros r Hr. unfold row_at, chunks_row.
    rewrite Ha. simpl. rewrite Hc. simpl. unfold chunk_row.
    rewrite option_guard_True by lia. apply Hsome. lia.
Qed.

Lemma length_bind_chunks {A} (g : Z * Z → list A) a
    (chs : list ArchetypeDataChunk) c0 :
  (∀ i ch, chs !! i = Some ch →
     Z.of_nat (length (g (a, c0 + Z.of_nat i))) = dense_arrays_length ch) →
  Z.of_nat (length (((λ c, (a, c)) <$> seqZ c0 (Z.of_nat (length chs))) ≫= g))
  = foldr (λ ch n, dense_arrays_length ch + n) 0 chs.
Proof.
  revert c0. induction chs as [|ch chs IH]; intros c0 Hg; [done|].
  change (length (ch :: chs)) with (S (length chs)).
  rewrite seqZ_cons by lia.
  replace (Z.pred (Z.of_nat (S (length chs))))
    with (Z.of_nat (length chs)) by lia.
  rewrite fmap_cons, bind_cons, length_app, Nat2Z.inj_add. cbn [foldr].
  rewrite (IH (Z.succ c0)).
  - specialize (Hg 0%nat ch eq_refl). rewrite Z.add_0_r in Hg. lia.
  - intros i ch' Hi.
    replace (Z.succ c0 + Z.of_nat i) with (c0 + Z.of_nat (S i)) by lia.
    by apply Hg.
Qed.

Lemma length_bind_archetypes {A} (g : Z * Z → list A)
    (archs : list Archetype) a0 :
  (∀ i arch c ch, archs !! i = Some arch → zlookup (chunks arch) c = Some ch →
     Z.of_nat (length (g (a0 + Z.of_nat i, c))) = dense_arrays_length ch) →
  Z.of_nat (length (included_from archs [] a0 ≫= g))
  = foldr (λ arch n, arch_rows arch + n) 0 archs.
Proof.
  revert a0. induction archs as [|arch archs IH]; intros a0 Hg; [done|].
  cbn [included_from foldr]. rewrite decide_True by constructor.
  rewrite bind_app, length_app, Nat2Z.inj_add.
  rewrite (IH (a0 + 1)).
  - rewrite (length_bind_chunks g a0 (chunks arch) 0); [done|].
    intros i ch Hi. rewrite Z.add_0_l.
    replace a0 with (a0 + Z.of_nat 0) at 1 by lia.
    apply (Hg 0%nat arch); [done|]. by rewrite zlookup_nat.
  - intros i arch' c ch Hi Hc.
    replace (a0 + 1 + Z.of_nat i) with (a0 + Z.of_nat (S i)) by lia.
    by apply (Hg (S i) arch').
Qed.

(** X14.  The live rows hold exactly the live entities.  In every
    reachable world a live row holds a live entity whose sparse triple
    points back at that row; the ids in the live rows of all chunks are
    the live entities, each once; and the chunk lengths add up to the
    number of live entities. *)
Theorem rows_hold_the_live_entities w live :
  reachable w live →
  (∀ a c r e, row_at (archetypes w) a c r = Some e →
              e ∈ live ∧ sparse_get w e = Some (a, c, r)) ∧
  stored_ids w ≡ₚ live ∧
  total_rows w = Z.of_nat (length live).
Proof.
  intros Hreach. apply reachable_WF in Hreach.
  pose proof (wf_rows _ _ Hreach) as Hrows. unfold entity_at in Hrows.
  split; [intros a c r e; apply Hrows|].
  assert (stored_ids w ≡ₚ live) as Hperm.
  { unfold stored_ids. apply NoDup_Permutation.
    - apply NoDup_bind.
      + intros [a1 c1] [a2 c2] y _ _
          (r1 & _ & Hr1)%list_elem_of_omap (r2 & _ & Hr2)%list_elem_of_omap.
        simpl in *.
        destruct (Hrows _ _ _ _ Hr1) as [_ Hsp1].
        destruct (Hrows _ _ _ _ Hr2) as [_ Hsp2]. congruence.
      + intros [a c] _. apply NoDup_omap_inj; [|apply NoDup_seqZ].
        intros r1 r2 y _ _ Hr1 Hr2. simpl in *.
        destruct (Hrows _ _ _ _ Hr1) as [_ Hsp1].
        destruct (Hrows _ _ _ _ Hr2) as [_ Hsp2]. congruence.
      + apply included_from_NoDup.
    - by eapply WF_NoDup_live.
    - intros e. rewrite list_elem_of_bind. split.
      + intros ([a c] & (r & _ & Hr)%list_elem_of_omap & _).
        by destruct (Hrows _ _ _ _ Hr).
      + intros He.
        destruct (wf_live _ _ Hreach e He) as (a & c & r & Hsp & Hat).
        unfold entity_at in Hat. pose proof Hat as Hat'.
        apply row_at_Some in Hat' as (arch & ch & Harch & Hch & Hr & Hid).
        exists (a, c). split.
        * apply list_elem_of_omap. exists r. split; [|done].
          apply elem_of_seqZ.
          destruct (zlookup_Forall _ _ _ _ (wf_archs _ _ Hreach) Harch)
            as (_ & _ & _ & _ & _ & Hchunks).
          destruct (zlookup_Forall _ _ _ _ Hchunks Hch) as (_ & ? & _). lia.
        * apply elem_of_included_chunks. exists arch.
          split_and!; [done|constructor| |]; apply zlookup_lt in Hch; lia. }
  split; [done|].
  rewrite <- (Permutation_length Hperm). unfold stored_ids, total_rows.
  symmetry. apply length_bind_archetypes.
  intros i arch c ch Hi Hc. rewrite Z.add_0_l.
  apply (length_rows_of_chunk w live _ arch c ch); try done.
  by rewrite zlookup_nat.
Qed.

Lemma rows_hold_the_live_entities_witness :
  reachable example_world example_live ∧
  stored_ids example_world ≡ₚ example_live ∧
  total_rows example_world = Z.of_nat (length example_live).
Proof.
  split; [exact example_reachable|].
  exact (proj2 (rows_hold_the_live_entities example_world example_live
                  example_reachable)).
Defined.

(** ** The empty iterator *)

(** X15.  The iterator is empty (NULL arrays, zero chunks) exactly when no
    archetype carries every requested component: an archetype always has
    at least one chunk, so a matching archetype contributes a record even
    when it holds no entity. *)
Theorem iterator_is_empty_iff_nothing_matches w live R :
  reachable w live → NoDup R →
  Z.of_nat (length (included_chunks w R)) < 2 ^ 32 →
  ∃ it, world_get_component_iterator w R = Some it ∧
    (it_number_of_chunks it = 0 ↔
     ∀ arch, arch ∈ archetypes w → ∃ k, k ∈ R ∧ k ∉ components arch) ∧
    (it_number_of_chunks it = 0 → it = mkComponentIterator [] [] 0).
Proof.
  intros Hreach Hnd Hbound. pose proof (reachable_WF _ _ Hreach) as HWF.
  apply reachable_Shape in Hreach.
  destruct (world_get_component_iterator_spec w live R HWF Hnd Hbound)
    as (it & Hrun & Hn & Hlen & Hrecs).
  exists it. split; [done|].
  assert (it_number_of_chunks it = 0 ↔ included_chunks w R = []) as Hzero.
  { rewrite Hn. destruct (included_chunks w R); simpl; split; try done; lia. }
  split.
  - rewrite Hzero. split.
    + intros Hnil arch [a Ha]%elem_of_zlookup.
      destruct (decide (carries arch R)) as [Hcar|Hno].
      * exfalso.
        pose proof (zlookup_Forall _ _ _ _ (shape_chunks _ _ Hreach) Ha)
          as Hch.
        destruct (zlookup_Forall _ _ _ _ (wf_archs _ _ HWF) Ha)
          as (_ & _ & _ & Hlenc & _).
        simpl in Hch.
        assert ((a, 0) ∈ included_chunks w R) as Hin.
        { apply elem_of_included_chunks. exists arch.
          split_and!; [done|done|lia|lia]. }
        rewrite Hnil in Hin. by apply elem_of_nil in Hin.
      * unfold carries in Hno. apply not_Forall_Exists in Hno; [|apply _].
        apply Exists_exists in Hno as (k & Hk & Hnot). by exists k.
    + intros Hall. destruct (included_chunks w R) as [|[a c] l] eqn:Hinc;
        [done|]. exfalso.
      assert ((a, c) ∈ included_chunks w R) as Hin
        by (rewrite Hinc; left).
      apply elem_of_included_chunks in Hin as (arch & Ha & Hcar & _).
      destruct (Hall arch (zlookup_elem_of _ _ _ Ha)) as (k & Hk & Hnot).
      unfold carries in Hcar. rewrite Forall_forall in Hcar.
      by apply Hnot, Hcar.
  - intros Hz. pose proof (proj1 Hzero Hz) as Hnil.
    rewrite Hnil in Hrecs. apply Forall2_nil_inv_l in Hrecs.
    destruct it as [cfa lens n]. simpl in *. subst n.
    rewrite Hz. by destruct cfa, lens; simplify_eq/=.
Qed.

Lemma iterator_is_empty_iff_nothing_matches_witness :
  reachable example_world example_live ∧ NoDup [2] ∧
  Z.of_nat (length (included_chunks example_world [2])) < 2 ^ 32 ∧
  ∃ it, world_get_component_iterator example_world [2] = Some it ∧
    (it_number_of_chunks it = 0 ↔
     ∀ arch, arch ∈ archetypes example_world →
             ∃ k, k ∈ [2] ∧ k ∉ components arch).
Proof.
  assert (NoDup [2]) as Hnd
    by (apply (decide_by_compute (NoDup _)); vm_compute; reflexivity).
  assert (Z.of_nat (length (included_chunks example_world [2])) < 2 ^ 32)
    as Hbound by (vm_compute; reflexivity).
  split; [exact example_reachable|]. split; [exact Hnd|].
  split; [exact Hbound|].
  destruct (iterator_is_empty_iff_nothing_matches example_world
              example_live [2] example_reachable Hnd Hbound)
    as (it & Hrun & Hiff & _).
  exists it. split; [exact Hrun|exact Hiff].
Defined.

(** ** Destruction *)

Lemma destroy_fields_is_Some a c k (cols : columns) fuel j :
  0 ≤ j → j + Z.of_nat fuel ≤ Z.of_nat (length cols) →
  is_Some (destroy_fields a c k cols fuel j).
Proof.
  revert j. induction fuel as [|fuel IH]; intros j Hj Hlen; simpl; [done|].
  destruct (zlookup_is_Some cols j) as [col ->]; [lia|]. simpl.
  destruct (IH (j + 1)) as [rest ->]; [lia|lia|]. done.
Qed.

(** A column table shorter than the number of component types: the loop
    reads past its end. *)
Lemma destroy_columns_short a c ch all fuel i :
  0 ≤ i →
  i ≤ Z.of_nat (length (component_field_arrays ch)) < i + Z.of_nat fuel →
  destroy_columns a c ch all fuel i = None.
Proof.
  revert i. induction fuel as [|fuel IH]; intros i Hi Hlen; [lia|].
  simpl.
  destruct (decide (i = Z.of_nat (length (component_field_arrays ch))))
    as [->|Hne].
  { by rewrite (zlookup_None (component_field_arrays ch)) by lia. }
  destruct (zlookup (component_field_arrays ch) i) as [entry|]; [|done].
  simpl. rewrite IH by lia.
  by destruct (match entry with Some _ => _ | None => _ end).
Qed.

Lemma destroy_columns_is_Some a c ch all fuel i :
  0 ≤ i →
  i + Z.of_nat fuel ≤ Z.of_nat (length (component_field_arrays ch)) →
  (∀ k cols, zlookup (component_field_arrays ch) k = Some (Some cols) →
     ∃ cd, zlookup all k = Some cd ∧
           number_of_fields cd ≤ Z.of_nat (length cols)) →
  is_Some (destroy_columns a c ch all fuel i).
Proof.
  intros Hi Hlen Hcols. revert i Hi Hlen.
  induction fuel as [|fuel IH]; intros i Hi Hlen; simpl; [done|].
  destruct (zlookup_is_Some (component_field_arrays ch) i) as [entry Hentry];
    [lia|].
  rewrite Hentry. simpl.
  destruct (IH (i + 1)) as [rest ->]; [lia|lia|].
  destruct entry as [cols|]; [|done].
  destruct (Hcols i cols Hentry) as (cd & -> & Hnf). simpl.
  destruct (destroy_fields_is_Some a c i cols
              (Z.to_nat (number_of_fields cd)) 0) as [fields ->];
    [lia|lia|]. done.
Qed.

Lemma destroy_chunks_None a arch all nall fuel i c ch :
  zlookup (chunks arch) c = Some ch → i ≤ c < i + Z.of_nat fuel →
  archetype_data_chunk_destroy a c ch all nall = None →
  destroy_chunks a arch all nall fuel i = None.
Proof.
  intros Hc Hrange Hnone. revert i Hrange.
  induction fuel as [|fuel IH]; intros i Hrange; [lia|]. simpl.
  destruct (decide (i = c)) as [->|Hne].
  { by rewrite Hc; simpl; rewrite Hnone. }
  destruct (zlookup (chunks arch) i) as [ch'|]; [|done]. simpl.
  rewrite IH by lia.
  by destruct (archetype_data_chunk_destroy a i ch' all nall).
Qed.

Lemma destroy_chunks_is_Some a arch all nall fuel i :
  0 ≤ i → i + Z.of_nat fuel ≤ Z.of_nat (length (chunks arch)) →
  (∀ c ch, zlookup (chunks arch) c = Some ch →
           is_Some (archetype_data_chunk_destroy a c ch all nall)) →
  is_Some (destroy_chunks a arch all nall fuel i).
Proof.
  intros Hi Hlen Hok. revert i Hi Hlen.
  induction fuel as [|fuel IH]; intros i Hi Hlen; simpl; [done|].
  destruct (zlookup_is_Some (chunks arch) i) as [ch Hch]; [lia|].
  rewrite Hch. simpl. destruct (Hok i ch Hch) as [here ->]. simpl.
  destruct (IH (i + 1)) as [rest ->]; [lia|lia|]. done.
Qed.

Lemma destroy_archetypes_None w fuel i a arch :
  zlookup (archetypes w) a = Some arch → i ≤ a < i + Z.of_nat fuel →
  archetype_destroy a arch (all_components_data w) (number_of_components w)
  = None →
  destroy_archetypes w fuel i = None.
Proof.
  intros Ha Hrange Hnone. revert i Hrange.
  induction fuel as [|fuel IH]; intros i Hrange; [lia|]. simpl.
  destruct (decide (i = a)) as [->|Hne].
  { by rewrite Ha; simpl; rewrite Hnone. }
  destruct (zlookup (archetypes w) i) as [arch'|]; [|done]. simpl.
  rewrite IH by lia.
  by destruct (archetype_destroy i arch' _ _).
Qed.

Lemma destroy_archetypes_is_Some w fuel i :
  0 ≤ i → i + Z.of_nat fuel ≤ Z.of_nat (length (archetypes w)) →
  (∀ a arch, zlookup (archetypes w) a = Some arch →
     is_Some (archetype_destroy a arch (all_components_data w)
                (number_of_components w))) →
  is_Some (destroy_archetypes w fuel i).
Proof.
  intros Hi Hlen Hok. revert i Hi Hlen.
  induction fuel as [|fuel IH]; intros i Hi Hlen; simpl; [done|].
  destruct (zlookup_is_Some (archetypes w) i) as [arch Harch]; [lia|].
  rewrite Harch. simpl. destruct (Hok i arch Harch) as [here ->]. simpl.
  destruct (IH (i + 1)) as [rest ->]; [lia|lia|]. done.
Qed.

Lemma destroy_components_is_Some w fuel i :
  0 ≤ i → i + Z.of_nat fuel ≤ Z.of_nat (length (all_components_data w)) →
  is_Some (destroy_components w fuel i).
Proof.
  revert i. induction fuel as [|fuel IH]; intros i Hi Hlen; simpl; [done|].
  destruct (zlookup_is_Some (all_components_data w) i) as [cd ->]; [lia|].
  simpl. destruct (IH (i + 1)) as [rest ->]; [lia|lia|]. done.
Qed.

Lemma destroy_sparse_is_Some w fuel i :
  0 ≤ i → i + Z.of_nat fuel ≤ Z.of_nat (length (sparse_array_chunks w)) →
  is_Some (destroy_sparse w fuel i).
Proof.
  revert i. induction fuel as [|fuel IH]; intros i Hi Hlen; simpl; [done|].
  destruct (zlookup_is_Some (sparse_array_chunks w) i) as [sc ->]; [lia|].
  simpl. destruct (IH (i + 1)) as [rest ->]; [lia|lia|]. done.
Qed.

(** One chunk with a table shorter than the number of component types
    makes the whole destruction undefined. *)
Lemma world_destroy_short w live a arch c ch :
  WF w live →
  zlookup (archetypes w) a = Some arch →
  zlookup (chunks arch) c = Some ch →
  Z.of_nat (length (component_field_arrays ch)) < number_of_components w →
  world_destroy w = None.
Proof.
  intros HWF Ha Hc Hshort.
  destruct (wf_narch _ _ HWF) as [Hna _].
  unfold world_destroy.
  rewrite (destroy_archetypes_None w _ 0 a arch Ha); [done| |].
  { apply zlookup_lt in Ha. lia. }
  unfold archetype_destroy.
  rewrite (destroy_chunks_None a arch _ _ _ 0 c ch Hc); [done| |].
  { destruct (zlookup_Forall _ _ _ _ (wf_archs _ _ HWF) Ha)
      as (_ & _ & _ & Hn & _).
    apply zlookup_lt in Hc. lia. }
  unfold archetype_data_chunk_destroy.
  rewrite destroy_columns_short; [done|lia|lia].
Qed.

(** X16.  [world_destroy] walks every chunk's column table over all the
    component types the world has at destruction time, but a table has
    only as many entries as there were component types when its chunk was
    created.  So in a reachable world the call is free of out-of-bounds
    reads exactly when every chunk's table is as long as the number of
    registered component types. *)
Theorem world_destroy_defined_iff w live :
  reachable w live →
  is_Some (world_destroy w) ↔
  ∀ a arch c ch,
    zlookup (archetypes w) a = Some arch →
    zlookup (chunks arch) c = Some ch →
    Z.of_nat (length (component_field_arrays ch)) = number_of_components w.
Proof.
  intros Hreach. pose proof (reachable_WF _ _ Hreach) as HWF.
  apply reachable_Shape in Hreach.
  destruct (wf_ncomp _ _ HWF) as [Hnc _].
  destruct (wf_narch _ _ HWF) as [Hna _].
  split.
  - intros Hsome a arch c ch Ha Hc.
    pose proof (zlookup_Forall _ _ _ _ (shape_tables _ _ Hreach) Ha) as Htabs.
    destruct (zlookup_Forall _ _ _ _ Htabs Hc) as [Hlen _].
    destruct (decide (Z.of_nat (length (component_field_arrays ch))
                      = number_of_components w)) as [|Hne]; [done|].
    exfalso. destruct Hsome as [blocks Hrun].
    rewrite (world_destroy_short w live a arch c ch) in Hrun; [done..|lia].
  - intros Hfull. unfold world_destroy.
    destruct (destroy_archetypes_is_Some w
                (Z.to_nat (number_of_archetypes w)) 0) as [archs ->];
      [lia|lia| |].
    { intros a arch Ha. unfold archetype_destroy.
      destruct (zlookup_Forall _ _ _ _ (wf_archs _ _ HWF) Ha)
        as (_ & _ & _ & Hn & _ & Hchunks).
      destruct (destroy_chunks_is_Some a arch (all_components_data w)
                  (number_of_components w)
                  (Z.to_nat (number_of_chunks arch)) 0) as [chs ->];
        [lia|lia| |done].
      intros c ch Hc. unfold archetype_data_chunk_destroy.
      pose proof (zlookup_Forall _ _ _ _ (shape_tables _ _ Hreach) Ha)
        as Htabs.
      destruct (zlookup_Forall _ _ _ _ Htabs Hc) as [_ Hnull].
      destruct (zlookup_Forall _ _ _ _ Hchunks Hc) as (_ & _ & _ & Hcols).
      rewrite Forall_forall in Hcols.
      destruct (destroy_columns_is_Some a c ch (all_components_data w)
                  (Z.to_nat (number_of_components w)) 0) as [cols ->];
        [lia|rewrite (Hfull a arch c ch Ha Hc); lia| |done].
      intros k cols Hk.
      destruct (decide (k ∈ components arch)) as [Hin|Hout].
      - destruct (Hcols k Hin) as (cd & cols' & Hcd & Hk' & Hshape).
        rewrite Hk in Hk'. injection Hk' as <-. exists cd. split; [done|].
        destruct (zlookup_Forall _ _ _ _ (wf_comps _ _ HWF) Hcd) as (-> & _).
        rewrite (Forall2_length _ _ _ Hshape). lia.
      - rewrite Hnull in Hk; [done..|]. by apply zlookup_lt in Hk. }
    simpl.
    destruct (destroy_components_is_Some w
                (Z.to_nat (number_of_components w)) 0) as [comps ->];
      [lia|lia|].
    simpl.
    destruct (destroy_sparse_is_Some w
                (Z.to_nat (sparse_array_number_of_chunks w)) 0)
      as [sparse ->]; [lia|rewrite (wf_nsparse _ _ HWF); lia|].
    done.
Qed.

Lemma world_destroy_defined_iff_witness :
  reachable example_world example_live ∧
  (is_Some (world_destroy example_world) ↔
   ∀ a arch c ch,
     zlookup (archetypes example_world) a = Some arch →
     zlookup (chunks arch) c = Some ch →
     Z.of_nat (length (component_field_arrays ch))
     = number_of_components example_world).
Proof.
  split; [exact example_reachable|].
  exact (world_destroy_defined_iff example_world example_live
           example_reachable).
Defined.



(** ** Registering a component type later *)



(** ** Storage only grows *)






(** ** Destroying an iterator *)

Lemma destroy_records_is_Some it fuel i :
  0 ≤ i →
  i + Z.of_nat fuel ≤ Z.of_nat (length (it_component_field_arrays it)) →
  destroy_records it fuel i = Some (IteratorRecord <$> seqZ i (Z.of_nat fuel)).
Proof.
  revert i. induction fuel as [|fuel IH]; intros i Hi Hle; [done|].
  cbn [destroy_records].
  destruct (zlookup_is_Some (it_component_field_arrays it) i) as [x ->];
    [lia|].
  cbn [mbind option_bind]. rewrite IH by lia. cbn [mbind option_bind].
  rewrite (seqZ_cons i (Z.of_nat (S fuel))) by lia. rewrite fmap_cons.
  replace (Z.pred (Z.of_nat (S fuel))) with (Z.of_nat fuel) by lia.
  by rewrite Z.add_1_r.
Qed.

(** X20.  [component_iterator_destroy] on an iterator that
    [world_get_component_iterator] returned frees each per-chunk record
    once, then the two outer arrays, and nothing else (the columns stay
    with the world); on the empty iterator it frees nothing.  It leaves
    the empty iterator, so a second call frees nothing. *)
Theorem component_iterator_destroy_releases_the_records w live R it :
  reachable w live → NoDup R →
  Z.of_nat (length (included_chunks w R)) < 2 ^ 32 →
  world_get_component_iterator w R = Some it →
  component_iterator_destroy it
  = Some (mkComponentIterator [] [] 0,
          if decide (it_number_of_chunks it = 0) then []
          else (IteratorRecord <$> seqZ 0 (it_number_of_chunks it))
               ++ [IteratorRecords; IteratorLengths]) ∧
  component_iterator_destroy (mkComponentIterator [] [] 0)
  = Some (mkComponentIterator [] [] 0, []).
Proof.
  intros Hreach Hnd Hbound Hrun. split; [|done].
  apply reachable_WF in Hreach.
  destruct (world_get_component_iterator_spec w live R Hreach Hnd Hbound)
    as (it' & Hrun' & Hn & Hlen & Hrecs).
  rewrite Hrun in Hrun'. injection Hrun' as <-.
  apply Forall2_length in Hrecs. rewrite length_zip, <- Hlen in Hrecs.
  rewrite Nat.min_id in Hrecs.
  unfold component_iterator_destroy.
  destruct (decide (it_number_of_chunks it = 0)) as [Hz|Hnz].
  - assert (it_component_field_arrays it = []) as ->
      by (apply length_zero_iff_nil; lia).
    assert (chunk_lengths it = []) as ->
      by (apply length_zero_iff_nil; lia).
    done.
  - assert (it_component_field_arrays it ≠ []) as Hrecords
      by (intros Heq; rewrite Heq in Hrecs; simpl in *; lia).
    assert (chunk_lengths it ≠ []) as Hlengths
      by (intros Heq; rewrite Heq in Hlen; simpl in *; lia).
    rewrite (decide_True _ _ Hrecords), (decide_True _ _ Hlengths).
    rewrite (destroy_records_is_Some it _ 0) by lia.
    cbn [mbind option_bind].
    rewrite Z2Nat.id by lia. by rewrite <- app_assoc.
Qed.

Lemma component_iterator_destroy_releases_the_records_witness :
  reachable example_world example_live ∧ NoDup [1] ∧
  Z.of_nat (length (included_chunks example_world [1])) < 2 ^ 32 ∧
  ∃ it, world_get_component_iterator example_world [1] = Some it ∧
    component_iterator_destroy it
    = Some (mkComponentIterator [] [] 0,
            if decide (it_number_of_chunks it = 0) then []
            else (IteratorRecord <$> seqZ 0 (it_number_of_chunks it))
                 ++ [IteratorRecords; IteratorLengths]).
Proof.
  assert (NoDup [1]) as Hnd
    by (apply (decide_by_compute (NoDup _)); vm_compute; reflexivity).
  assert (Z.of_nat (length (included_chunks example_world [1])) < 2 ^ 32)
    as Hbound by (vm_compute; reflexivity).
  split; [exact example_reachable|]. split; [exact Hnd|].
  split; [exact Hbound|].
  destruct (world_get_component_iterator example_world [1]) as [it|] eqn:Hit;
    [|vm_compute in Hit; discriminate Hit].
  exists it. split; [reflexivity|].
  exact (proj1 (component_iterator_destroy_releases_the_records
                  example_world example_live [1] it example_reachable Hnd
                  Hbound Hit)).
Defined.
